(** * The callback manager of langchain/src/callbacks/manager.ts

    A shallow embedding of the run managers ([BaseRunManager] and its three
    subclasses) and of the dispatcher ([CallbackManager]), with the JavaScript
    heap made explicit: arrays of handlers and [CallbackManager] objects live
    in a store and are named by references, so that two owners of one array
    see each other's [push]. *)

From stdpp Require Import base gmap list strings.

Open Scope string_scope.
Open Scope list_scope.

(** ** Values passed through the dispatcher *)

Definition RunId := string.
Definition Error := string.

(** Payloads of ../schema/index.js.  The dispatcher only forwards them. *)
Definition LLMResult := string.
Definition ChainValues := string.
Definition AgentAction := string.
Definition AgentFinish := string.

(** One constructor per method of [BaseCallbackHandlerMethods], carrying the
    arguments that precede [runId] and [parentRunId]. *)
Inductive Event :=
| EvText (text : string)
| EvLLMStart (llm : string) (prompts : list string)
| EvLLMNewToken (token : string)
| EvLLMError (err : Error)
| EvLLMEnd (output : LLMResult)
| EvChainStart (chain : string) (inputs : ChainValues)
| EvChainError (err : Error)
| EvChainEnd (output : ChainValues)
| EvAgentAction (action : AgentAction)
| EvAgentEnd (action : AgentFinish)
| EvToolStart (tool : string) (input : string)
| EvToolError (err : Error)
| EvToolEnd (output : string).

Definition method_name (ev : Event) : string :=
  match ev with
  | EvText _ => "handleText"
  | EvLLMStart _ _ => "handleLLMStart"
  | EvLLMNewToken _ => "handleLLMNewToken"
  | EvLLMError _ => "handleLLMError"
  | EvLLMEnd _ => "handleLLMEnd"
  | EvChainStart _ _ => "handleChainStart"
  | EvChainError _ => "handleChainError"
  | EvChainEnd _ => "handleChainEnd"
  | EvAgentAction _ => "handleAgentAction"
  | EvAgentEnd _ => "handleAgentEnd"
  | EvToolStart _ _ => "handleToolStart"
  | EvToolError _ => "handleToolError"
  | EvToolEnd _ => "handleToolEnd"
  end.

(** What a handler does with an event: the optional method is missing
    ([handler.handleX?.(...)] is then [undefined] and nothing is called), or
    it is called and its promise resolves, or it is called and throws or
    rejects with [err]. *)
Inductive Behaviour :=
| Undefined
| Resolves
| Rejects (err : Error).

(** Modelled from the spec: [BaseCallbackHandler] of ./base.js is not part of
    the sources; the manager reads [name], the three [ignore*] flags,
    [constructor.name] and the optional methods, and calls [copy()].  [oid]
    is the identity of the JavaScript object, which is what [!==] compares. *)
Record BaseCallbackHandler := mkHandler {
  oid : nat;
  constructor_name : string;
  name : string;
  ignoreLLM : bool;
  ignoreChain : bool;
  ignoreAgent : bool;
  methods : Event → Behaviour
}.

(** A handler method that was called, with the arguments it was given. *)
Record Call := mkCall {
  callee : BaseCallbackHandler;
  event : Event;
  call_runId : RunId;
  call_parentRunId : option RunId
}.

(** ** Objects *)

Module BaseRunManager.
Record t := mk {
  runId : RunId;
  handlers : nat;
  inheritableHandlers : nat;
  _parentRunId : option RunId
}.
End BaseRunManager.

Definition CallbackManagerForLLMRun := BaseRunManager.t.
Definition CallbackManagerForChainRun := BaseRunManager.t.
Definition CallbackManagerForToolRun := BaseRunManager.t.

Module CallbackManager.
Record t := mk {
  handlers : nat;
  inheritableHandlers : nat;
  _parentRunId : option RunId
}.
Definition name : string := "callback_manager".
End CallbackManager.

#[global] Instance CallbackManager_inhabited : Inhabited CallbackManager.t :=
  populate (CallbackManager.mk 0 0 None).

(** ** The store

    [arrays] holds the JavaScript arrays of handlers, [managers] the
    [CallbackManager] objects (their fields are reassigned by
    [removeHandler] and [setHandlers]); [next_ref] is the next unused
    reference, shared by arrays, managers and handler identities.  [calls]
    and [console_error] record what reached the handlers and the diagnostic
    channel, oldest first. *)
Record Store := mkStore {
  arrays : gmap nat (list BaseCallbackHandler);
  managers : gmap nat CallbackManager.t;
  next_ref : nat;
  uuids_drawn : nat;
  LANGCHAIN_TRACING : option string;
  calls : list Call;
  console_error : list string
}.

Definition set_arrays (f : gmap nat (list BaseCallbackHandler) → gmap nat (list BaseCallbackHandler))
    (s : Store) : Store :=
  mkStore (f (arrays s)) (managers s) (next_ref s) (uuids_drawn s)
          (LANGCHAIN_TRACING s) (calls s) (console_error s).

Definition set_managers (f : gmap nat CallbackManager.t → gmap nat CallbackManager.t)
    (s : Store) : Store :=
  mkStore (arrays s) (f (managers s)) (next_ref s) (uuids_drawn s)
          (LANGCHAIN_TRACING s) (calls s) (console_error s).

Definition set_next_ref (f : nat → nat) (s : Store) : Store :=
  mkStore (arrays s) (managers s) (f (next_ref s)) (uuids_drawn s)
          (LANGCHAIN_TRACING s) (calls s) (console_error s).

Definition set_uuids_drawn (f : nat → nat) (s : Store) : Store :=
  mkStore (arrays s) (managers s) (next_ref s) (f (uuids_drawn s))
          (LANGCHAIN_TRACING s) (calls s) (console_error s).

Definition set_calls (f : list Call → list Call) (s : Store) : Store :=
  mkStore (arrays s) (managers s) (next_ref s) (uuids_drawn s)
          (LANGCHAIN_TRACING s) (f (calls s)) (console_error s).

Definition set_console_error (f : list string → list string) (s : Store) : Store :=
  mkStore (arrays s) (managers s) (next_ref s) (uuids_drawn s)
          (LANGCHAIN_TRACING s) (calls s) (f (console_error s)).

(** ** Computations: a state monad with exceptions

    A thrown exception (or a rejected promise that is awaited) keeps the
    effects made before it, as in JavaScript. *)
Inductive Completion (A : Type) :=
| Normal (a : A)
| Throw (e : Error).
Arguments Normal {A} a.
Arguments Throw {A} e.

Definition M (A : Type) : Type := Store → Completion A * Store.

Definition ret {A} (a : A) : M A := λ s, (Normal a, s).

Definition bind {A B} (m : M A) (f : A → M B) : M B :=
  λ s, match m s with
       | (Normal a, s') => f a s'
       | (Throw e, s') => (Throw e, s')
       end.

Definition throw {A} (e : Error) : M A := λ s, (Throw e, s).

(** [try { m } catch (err) { h err }] *)
Definition try_catch {A} (m : M A) (h : Error → M A) : M A :=
  λ s, match m s with
       | (Normal a, s') => (Normal a, s')
       | (Throw e, s') => h e s'
       end.

Definition gets {A} (f : Store → A) : M A := λ s, (Normal (f s), s).
Definition modify (f : Store → Store) : M unit := λ s, (Normal tt, f s).

Declare Scope js_scope.
Delimit Scope js_scope with js.
Notation "x <- m ;; k" := (bind m (λ x, k))
  (at level 100, m at next level, right associativity) : js_scope.
Notation "m ;; k" := (bind m (λ _, k))
  (at level 100, right associativity) : js_scope.
Open Scope js_scope.

(** [for (const x of xs) { body x }] over the elements the array has when
    the loop starts. *)
Fixpoint for_of {A} (xs : list A) (body : A → M unit) : M unit :=
  match xs with
  | [] => ret tt
  | x :: rest => body x ;; for_of rest body
  end.

(** [xs.map(f)] for an [f] with effects. *)
Fixpoint map_M {A B} (f : A → M B) (xs : list A) : M (list B) :=
  match xs with
  | [] => ret []
  | x :: rest => y <- f x ;; ys <- map_M f rest ;; ret (y :: ys)
  end.

(** [await Promise.all(xs.map(async (x) => body x))].  [map] starts every
    async function, one after the other in array order, whatever the earlier
    ones did; [Promise.all] settles when all have settled and rejects with a
    rejection of one of them if there is one.  Handlers are taken to settle
    and not to touch the dispatcher's store, so the interleaving of their
    continuations is not modelled. *)
Fixpoint promise_all_map {A} (xs : list A) (body : A → M unit) : M unit :=
  match xs with
  | [] => ret tt
  | x :: rest =>
      λ s, match body x s with
           | (r, s1) =>
               match promise_all_map rest body s1 with
               | (r', s2) =>
                   (match r with Throw e => Throw e | Normal _ => r' end, s2)
               end
           end
  end.

(** ** Primitive store operations *)

(** [[...xs]] or [[]]: a new array. *)
Definition new_array (xs : list BaseCallbackHandler) : M nat :=
  λ s, (Normal (next_ref s),
        set_next_ref S (set_arrays (insert (next_ref s) xs) s)).

Definition read_array (a : nat) : M (list BaseCallbackHandler) :=
  gets (λ s, arrays s !!! a).

(** [a.push(h)] *)
Definition push (a : nat) (h : BaseCallbackHandler) : M unit :=
  modify (λ s, set_arrays (insert a ((arrays s !!! a) ++ [h])) s).

Definition new_manager (m : CallbackManager.t) : M nat :=
  λ s, (Normal (next_ref s),
        set_next_ref S (set_managers (insert (next_ref s) m) s)).

Definition read_manager (this : nat) : M CallbackManager.t :=
  gets (λ s, managers s !!! this).

Definition write_manager (this : nat) (m : CallbackManager.t) : M unit :=
  modify (set_managers (insert this m)).

(** A new object identity. *)
Definition new_oid : M nat :=
  λ s, (Normal (next_ref s), set_next_ref S s).

Definition console_error_log (line : string) : M unit :=
  modify (set_console_error (λ l, l ++ [line])).

(** [await handler.handleX?.(args, runId, parentRunId)] *)
Definition call_method (handler : BaseCallbackHandler) (ev : Event)
    (runId : RunId) (parentRunId : option RunId) : M unit :=
  match methods handler ev with
  | Undefined => ret tt
  | Resolves =>
      modify (set_calls (λ l, l ++ [mkCall handler ev runId parentRunId]))
  | Rejects err =>
      modify (set_calls (λ l, l ++ [mkCall handler ev runId parentRunId])) ;;
      throw err
  end.

(** The object [o] with the fields of [handler]. *)
Definition with_oid (o : nat) (handler : BaseCallbackHandler) : BaseCallbackHandler :=
  mkHandler o (constructor_name handler) (name handler)
    (ignoreLLM handler) (ignoreChain handler) (ignoreAgent handler)
    (methods handler).

(** Modelled from the spec: [handler.copy()] of ./base.js is not part of the
    sources; the spec has it produce an independent copy with the same
    configuration, here a new object with the fields of the original. *)
Definition handler_copy (handler : BaseCallbackHandler) : M BaseCallbackHandler :=
  o <- new_oid ;; ret (with_oid o handler).

(** ** Run managers *)

(** The line written by [console.error]; the thrown value is taken to be
    printable. *)
Definition error_line (handler : BaseCallbackHandler) (ev : Event) (err : Error) : string :=
  "Error in handler " +:+ constructor_name handler +:+ ", " +:+
  method_name ev +:+ ": " +:+ err.

(** The body shared by every dispatching method:
    [try { await handler.handleX?.(...) } catch (err) { console.error(...) }] *)
Definition notify (handler : BaseCallbackHandler) (ev : Event)
    (runId : RunId) (parentRunId : option RunId) : M unit :=
  try_catch (call_method handler ev runId parentRunId)
    (λ err, console_error_log (error_line handler ev err)).

(** [BaseRunManager.handleText] *)
Definition handleText (this : BaseRunManager.t) (text : string) : M unit :=
  hs <- read_array (BaseRunManager.handlers this) ;;
  promise_all_map hs (λ handler,
    notify handler (EvText text)
      (BaseRunManager.runId this) (BaseRunManager._parentRunId this)).

(** [CallbackManagerForLLMRun] *)
Definition handleLLMNewToken (this : CallbackManagerForLLMRun) (token : string) : M unit :=
  hs <- read_array (BaseRunManager.handlers this) ;;
  promise_all_map hs (λ handler,
    if negb (ignoreLLM handler) then
      notify handler (EvLLMNewToken token)
        (BaseRunManager.runId this) (BaseRunManager._parentRunId this)
    else ret tt).

Definition handleLLMError (this : CallbackManagerForLLMRun) (err : Error) : M unit :=
  hs <- read_array (BaseRunManager.handlers this) ;;
  promise_all_map hs (λ handler,
    if negb (ignoreLLM handler) then
      notify handler (EvLLMError err)
        (BaseRunManager.runId this) (BaseRunManager._parentRunId this)
    else ret tt).

Definition handleLLMEnd (this : CallbackManagerForLLMRun) (output : LLMResult) : M unit :=
  hs <- read_array (BaseRunManager.handlers this) ;;
  promise_all_map hs (λ handler,
    if negb (ignoreLLM handler) then
      notify handler (EvLLMEnd output)
        (BaseRunManager.runId this) (BaseRunManager._parentRunId this)
    else ret tt).

(** [CallbackManagerForChainRun] *)
Definition handleChainError (this : CallbackManagerForChainRun) (err : Error) : M unit :=
  hs <- read_array (BaseRunManager.handlers this) ;;
  promise_all_map hs (λ handler,
    if negb (ignoreChain handler) then
      notify handler (EvChainError err)
        (BaseRunManager.runId this) (BaseRunManager._parentRunId this)
    else ret tt).

Definition handleChainEnd (this : CallbackManagerForChainRun) (output : ChainValues) : M unit :=
  hs <- read_array (BaseRunManager.handlers this) ;;
  promise_all_map hs (λ handler,
    if negb (ignoreChain handler) then
      notify handler (EvChainEnd output)
        (BaseRunManager.runId this) (BaseRunManager._parentRunId this)
    else ret tt).

Definition handleAgentAction (this : CallbackManagerForChainRun) (action : AgentAction) : M unit :=
  hs <- read_array (BaseRunManager.handlers this) ;;
  promise_all_map hs (λ handler,
    if negb (ignoreAgent handler) then
      notify handler (EvAgentAction action)
        (BaseRunManager.runId this) (BaseRunManager._parentRunId this)
    else ret tt).

Definition handleAgentEnd (this : CallbackManagerForChainRun) (action : AgentFinish) : M unit :=
  hs <- read_array (BaseRunManager.handlers this) ;;
  promise_all_map hs (λ handler,
    if negb (ignoreAgent handler) then
      notify handler (EvAgentEnd action)
        (BaseRunManager.runId this) (BaseRunManager._parentRunId this)
    else ret tt).

(** [CallbackManagerForToolRun] *)
Definition handleToolError (this : CallbackManagerForToolRun) (err : Error) : M unit :=
  hs <- read_array (BaseRunManager.handlers this) ;;
  promise_all_map hs (λ handler,
    if negb (ignoreAgent handler) then
      notify handler (EvToolError err)
        (BaseRunManager.runId this) (BaseRunManager._parentRunId this)
    else ret tt).

Definition handleToolEnd (this : CallbackManagerForToolRun) (output : string) : M unit :=
  hs <- read_array (BaseRunManager.handlers this) ;;
  promise_all_map hs (λ handler,
    if negb (ignoreAgent handler) then
      notify handler (EvToolEnd output)
        (BaseRunManager.runId this) (BaseRunManager._parentRunId this)
    else ret tt).

(** ** The dispatcher: registration *)

(** [new CallbackManager(parentRunId)]: the constructor makes the two empty
    arrays and sets the three fields; the object is entered in the store once
    its fields are set. *)
Definition CallbackManager_new (parentRunId : option RunId) : M nat :=
  hs <- new_array [] ;;
  ihs <- new_array [] ;;
  new_manager (CallbackManager.mk hs ihs parentRunId).

Definition addHandler (this : nat) (handler : BaseCallbackHandler) (inherit : bool) : M unit :=
  m <- read_manager this ;;
  push (CallbackManager.handlers m) handler ;;
  if inherit then
    m <- read_manager this ;;
    push (CallbackManager.inheritableHandlers m) handler
  else ret tt.

(** [_handler !== handler] *)
Definition differs (handler _handler : BaseCallbackHandler) : bool :=
  negb (Nat.eqb (oid _handler) (oid handler)).

Definition removeHandler (this : nat) (handler : BaseCallbackHandler) : M unit :=
  m <- read_manager this ;;
  hs <- read_array (CallbackManager.handlers m) ;;
  hs' <- new_array (List.filter (differs handler) hs) ;;
  write_manager this
    (CallbackManager.mk hs' (CallbackManager.inheritableHandlers m)
       (CallbackManager._parentRunId m)) ;;
  m <- read_manager this ;;
  ihs <- read_array (CallbackManager.inheritableHandlers m) ;;
  ihs' <- new_array (List.filter (differs handler) ihs) ;;
  write_manager this
    (CallbackManager.mk (CallbackManager.handlers m) ihs'
       (CallbackManager._parentRunId m)).

(** The argument is the contents of the array passed in: the loop only reads
    that array, and every [push] it makes goes to one of the two arrays
    created just before it, so the loop sees the contents the array had at
    the call. *)
Definition setHandlers (this : nat) (handlers : list BaseCallbackHandler) (inherit : bool) : M unit :=
  m <- read_manager this ;;
  hs <- new_array [] ;;
  write_manager this
    (CallbackManager.mk hs (CallbackManager.inheritableHandlers m)
       (CallbackManager._parentRunId m)) ;;
  m <- read_manager this ;;
  ihs <- new_array [] ;;
  write_manager this
    (CallbackManager.mk (CallbackManager.handlers m) ihs
       (CallbackManager._parentRunId m)) ;;
  for_of handlers (λ handler, addHandler this handler inherit).

(** [BaseCallbackManager.setHandler]: [setHandlers([handler])], with the
    default [inherit = true]. *)
Definition setHandler (this : nat) (handler : BaseCallbackHandler) : M unit :=
  setHandlers this [handler] true.

(** [new CallbackManager(this._parentRunId)], then the copies of
    [[...this.handlers]], then [setHandlers] with its default
    [inherit = true], then the additional handlers. *)
Definition copy (this : nat) (additionalHandlers : list BaseCallbackHandler) (inherit : bool) : M nat :=
  m <- read_manager this ;;
  manager <- CallbackManager_new (CallbackManager._parentRunId m) ;;
  m <- read_manager this ;;
  hs <- read_array (CallbackManager.handlers m) ;;
  copies <- map_M handler_copy hs ;;
  setHandlers manager copies true ;;
  for_of additionalHandlers (λ handler,
    c <- handler_copy handler ;;
    addHandler manager c inherit) ;;
  ret manager.

(** [getChild] of [CallbackManagerForChainRun] and of
    [CallbackManagerForToolRun] (the same body twice). *)
Definition CallbackManagerForChainRun_getChild (this : CallbackManagerForChainRun) : M nat :=
  manager <- CallbackManager_new (Some (BaseRunManager.runId this)) ;;
  ihs <- read_array (BaseRunManager.inheritableHandlers this) ;;
  setHandlers manager ihs true ;;
  ret manager.

Definition CallbackManagerForToolRun_getChild (this : CallbackManagerForToolRun) : M nat :=
  manager <- CallbackManager_new (Some (BaseRunManager.runId this)) ;;
  ihs <- read_array (BaseRunManager.inheritableHandlers this) ;;
  setHandlers manager ihs true ;;
  ret manager.

(** ** The dispatcher: start of a run, and [configure] *)

Record CallbackManagerOptions := mkOptions {
  verbose : option bool;
  tracing : option bool
}.

(** [options?.verbose] as a condition *)
Definition options_verbose (options : option CallbackManagerOptions) : bool :=
  match options with
  | Some o => match verbose o with Some b => b | None => false end
  | None => false
  end.

(** An optional argument was passed, or a variable of the environment is
    set: [x !== undefined] (and the truth value of [x] when [x] is an array
    or an object). *)
Definition is_given {A} (x : option A) : bool :=
  match x with
  | Some _ => true
  | None => false
  end.

(** [handlers.some((handler) => handler.name === n)] *)
Definition some_named (n : string) (handlers : list BaseCallbackHandler) : bool :=
  existsb (λ handler, bool_decide (name handler = n)) handlers.

Section Collaborators.

(** The imports of manager.ts that are not part of the sources: the [n]-th
    identifier drawn from [uuidv4()], the handler built by
    [new ConsoleCallbackHandler()] and the one [getTracingCallbackHandler()]
    resolves to (each up to the identity of the new object). *)
Variable uuidv4 : nat → RunId.
Variable consoleCallbackHandler : BaseCallbackHandler.
Variable tracingCallbackHandler : BaseCallbackHandler.

(** [runId = uuidv4()]: the default is evaluated only when the argument is
    missing. *)
Definition default_runId (runId : option RunId) : M RunId :=
  match runId with
  | Some r => ret r
  | None => λ s, (Normal (uuidv4 (uuids_drawn s)), set_uuids_drawn S s)
  end.

Definition ConsoleCallbackHandler_new : M BaseCallbackHandler :=
  o <- new_oid ;; ret (with_oid o consoleCallbackHandler).

(** Modelled from the spec: [getTracingCallbackHandler] of
    ./handlers/initialize.js is not part of the sources; the spec has
    [configure] add "one inheritable tracing handler", so the call is taken
    to resolve to a new handler. *)
Definition getTracingCallbackHandler : M BaseCallbackHandler :=
  o <- new_oid ;; ret (with_oid o tracingCallbackHandler).

Definition handleLLMStart (this : nat) (llm : string) (prompts : list string)
    (runId : option RunId) : M CallbackManagerForLLMRun :=
  runId <- default_runId runId ;;
  m <- read_manager this ;;
  hs <- read_array (CallbackManager.handlers m) ;;
  promise_all_map hs (λ handler,
    if negb (ignoreLLM handler) then
      notify handler (EvLLMStart llm prompts) runId (CallbackManager._parentRunId m)
    else ret tt) ;;
  m <- read_manager this ;;
  ret (BaseRunManager.mk runId (CallbackManager.handlers m)
         (CallbackManager.inheritableHandlers m) (CallbackManager._parentRunId m)).

Definition handleChainStart (this : nat) (chain : string) (inputs : ChainValues)
    (runId : option RunId) : M CallbackManagerForChainRun :=
  runId <- default_runId runId ;;
  m <- read_manager this ;;
  hs <- read_array (CallbackManager.handlers m) ;;
  promise_all_map hs (λ handler,
    if negb (ignoreChain handler) then
      notify handler (EvChainStart chain inputs) runId (CallbackManager._parentRunId m)
    else ret tt) ;;
  m <- read_manager this ;;
  ret (BaseRunManager.mk runId (CallbackManager.handlers m)
         (CallbackManager.inheritableHandlers m) (CallbackManager._parentRunId m)).

Definition handleToolStart (this : nat) (tool : string) (input : string)
    (runId : option RunId) : M CallbackManagerForToolRun :=
  runId <- default_runId runId ;;
  m <- read_manager this ;;
  hs <- read_array (CallbackManager.handlers m) ;;
  promise_all_map hs (λ handler,
    if negb (ignoreAgent handler) then
      notify handler (EvToolStart tool input) runId (CallbackManager._parentRunId m)
    else ret tt) ;;
  m <- read_manager this ;;
  ret (BaseRunManager.mk runId (CallbackManager.handlers m)
         (CallbackManager.inheritableHandlers m) (CallbackManager._parentRunId m)).

(** [configure].  The first argument is a [CallbackManager] (a reference),
    an array of handlers, or missing; an array and an object are both
    truthy, so [inheritableHandlers || localHandlers] holds as soon as one
    of the two is given.  The result is [None] for [undefined]. *)
Definition configure
    (inheritableHandlers : option (nat + list BaseCallbackHandler))
    (localHandlers : option (list BaseCallbackHandler))
    (options : option CallbackManagerOptions) : M (option nat) :=
  callbackManager <-
    (if is_given inheritableHandlers || is_given localHandlers then
       callbackManager <-
         match inheritableHandlers with
         | Some (inl manager) => ret manager
         | Some (inr handlers) =>
             manager <- CallbackManager_new None ;;
             setHandlers manager handlers true ;;
             ret manager
         | None =>
             manager <- CallbackManager_new None ;;
             setHandlers manager [] true ;;
             ret manager
         end ;;
       callbackManager <- copy callbackManager (default [] localHandlers) false ;;
       ret (Some callbackManager)
     else ret None) ;;
  env <- gets LANGCHAIN_TRACING ;;
  if options_verbose options || is_given env then
    callbackManager <-
      match callbackManager with
      | Some manager => ret manager
      | None => CallbackManager_new None
      end ;;
    consoleHandler <- ConsoleCallbackHandler_new ;;
    m <- read_manager callbackManager ;;
    hs <- read_array (CallbackManager.handlers m) ;;
    (if options_verbose options && negb (some_named (name consoleHandler) hs) then
       addHandler callbackManager consoleHandler false
     else ret tt) ;;
    env <- gets LANGCHAIN_TRACING ;;
    m <- read_manager callbackManager ;;
    hs <- read_array (CallbackManager.handlers m) ;;
    (if is_given env && negb (some_named "langchain_tracer" hs) then
       tracer <- getTracingCallbackHandler ;;
       addHandler callbackManager tracer true
     else ret tt) ;;
    ret (Some callbackManager)
  else ret callbackManager.

End Collaborators.

(** ** [CallbackManager.fromHandlers]

    [new Handler()] runs the constructor of [BaseCallbackHandler] (of
    ./base.js, not part of the sources), then sets [name] to the next
    identifier of [uuidv4] and assigns the members of the argument over the
    object.  [base] is the object as the base constructor leaves it;
    [handlers] gives the methods of the argument, [Undefined] for one it does
    not have. *)
Definition Handler_new (uuidv4 : nat → RunId) (base : BaseCallbackHandler)
    (handlers : Event → Behaviour) : M BaseCallbackHandler :=
  o <- new_oid ;;
  name <- (λ s, (Normal (uuidv4 (uuids_drawn s)), set_uuids_drawn S s)) ;;
  ret (mkHandler o "Handler" name (ignoreLLM base) (ignoreChain base) (ignoreAgent base)
         (λ ev, match handlers ev with
                | Undefined => methods base ev
                | given => given
                end)).

Definition fromHandlers (uuidv4 : nat → RunId) (base : BaseCallbackHandler)
    (handlers : Event → Behaviour) : M nat :=
  manager <- CallbackManager_new None ;;
  handler <- Handler_new uuidv4 base handlers ;;
  addHandler manager handler true ;;
  ret manager.

(** * The chat model of langchain/src/chat_models/openai.ts

    The caller of the model run manager.  Requests and responses are data;
    the transport ([completionWithRetry], the [openai] client) is not part of
    the model. *)

Module OpenAI.

(** ** JavaScript values *)

(** A JavaScript number, for the parameters that are only compared or passed
    on ([-0] is [Finite 0]). *)
Inductive number :=
| Finite (q : Qcanon.Qc)
| NaN
| Infinity
| NegInfinity.

(** The truth value of a number: [0] and [NaN] are false. *)
Definition number_truthy (x : number) : bool :=
  match x with
  | Finite q => negb (bool_decide (q = Qc_of_Z 0))
  | NaN => false
  | _ => true
  end.

(** [x === z] and [x > z] for an integer literal [z] *)
Definition number_is (x : number) (z : Z) : bool :=
  match x with
  | Finite q => bool_decide (q = Qc_of_Z z)
  | _ => false
  end.

Definition number_gt (x : number) (z : Z) : bool :=
  match x with
  | Finite q => bool_decide (Qcanon.Qclt (Qc_of_Z z) q)
  | Infinity => true
  | _ => false
  end.

(** The values met in the parameters of a request; [VOther] is any other
    object, carried as it is. *)
Inductive JSValue :=
| VUndefined
| VBoolean (b : bool)
| VNumber (x : number)
| VString (s : string)
| VStrings (l : list string)
| VOther (source : string).

Definition truthy (v : JSValue) : bool :=
  match v with
  | VUndefined => false
  | VBoolean b => b
  | VNumber x => number_truthy x
  | VString s => negb (String.eqb s "")
  | VStrings _ => true
  | VOther _ => true
  end.

(** The truth value of an optional string: [undefined] and [""] are false. *)
Definition string_truthy (s : option string) : bool :=
  match s with
  | Some x => negb (String.eqb x "")
  | None => false
  end.

Definition of_number (x : option number) : JSValue :=
  match x with Some n => VNumber n | None => VUndefined end.

Definition of_string (x : option string) : JSValue :=
  match x with Some s => VString s | None => VUndefined end.

Definition of_strings (x : option (list string)) : JSValue :=
  match x with Some l => VStrings l | None => VUndefined end.

(** An object as the finite map of its own properties; a property whose
    value is [undefined] is a property.  [Object.keys(o).includes(k)] is
    [includes_key o k]; [{...dst, ...src}] is [spread src dst], and spreading
    [undefined] adds nothing. *)
Definition includes_key (o : gmap string JSValue) (k : string) : bool :=
  bool_decide (is_Some (o !! k)).

Definition spread (src dst : gmap string JSValue) : gmap string JSValue := src ∪ dst.

Definition spread_optional (src : option (gmap string JSValue))
    (dst : gmap string JSValue) : gmap string JSValue :=
  match src with
  | Some o => spread o dst
  | None => dst
  end.

(** [{k1: v1, ..., kn: vn}], the later of two equal keys winning *)
Definition object_literal (entries : list (string * JSValue)) : gmap string JSValue :=
  foldl (λ o kv, <[kv.1 := kv.2]> o) ∅ entries.

(** ** Pure computations that may throw *)

Definition cbind {A B} (c : Completion A) (f : A → Completion B) : Completion B :=
  match c with
  | Normal a => f a
  | Throw e => Throw e
  end.

(** [xs.map(f)] for an [f] that may throw: the first throw ends the loop. *)
Fixpoint cmap {A B} (f : A → Completion B) (xs : list A) : Completion (list B) :=
  match xs with
  | [] => Normal []
  | x :: rest =>
      cbind (f x) (λ y, cbind (cmap f rest) (λ ys, Normal (y :: ys)))
  end.

(** ** Messages *)

(** The message classes of ../schema/index.js, which is not part of the
    sources: [_getType] answers "human", "ai", "system" and "generic", the
    four types [_convertMessageToDict] tells apart, and only a [ChatMessage]
    has a [role]. *)
Inductive MessageClass :=
| HumanChatMessage
| AIChatMessage
| SystemChatMessage
| ChatMessage (role : string).

Record BaseChatMessage := mkMessage {
  class : MessageClass;
  text : string;
  name : option string
}.

Definition _getType (message : BaseChatMessage) : string :=
  match class message with
  | HumanChatMessage => "human"
  | AIChatMessage => "ai"
  | SystemChatMessage => "system"
  | ChatMessage _ => "generic"
  end.

Definition messageTypeToOpenAIRole (type : string) : Completion string :=
  if String.eqb type "system" then Normal "system"
  else if String.eqb type "ai" then Normal "assistant"
  else if String.eqb type "human" then Normal "user"
  else Throw ("Unknown message type: " +:+ type).

Definition openAIResponseToChatMessage (role : option string) (text : string) :
    BaseChatMessage :=
  match role with
  | Some r =>
      if String.eqb r "user" then mkMessage HumanChatMessage text None
      else if String.eqb r "assistant" then mkMessage AIChatMessage text None
      else if String.eqb r "system" then mkMessage SystemChatMessage text None
      else mkMessage (ChatMessage r) text None
  | None => mkMessage (ChatMessage "unknown") text None
  end.

Record ChatCompletionRequestMessage := mkRequestMessage {
  rm_role : string;
  rm_content : string;
  rm_name : option string
}.

(** ** The model object *)

Module Fields.
Record t := mk {
  openAIApiKey : option string;
  azureOpenAIApiKey : option string;
  azureOpenAIApiInstanceName : option string;
  azureOpenAIApiDeploymentName : option string;
  azureOpenAIApiVersion : option string;
  modelName : option string;
  modelKwargs : option (gmap string JSValue);
  timeout : option number;
  temperature : option number;
  topP : option number;
  frequencyPenalty : option number;
  presencePenalty : option number;
  maxTokens : option number;
  n : option number;
  logitBias : JSValue;
  stop : option (list string);
  streaming : option bool;
  configuration : option (gmap string JSValue)
}.
End Fields.

Record ChatOpenAI := mkChatOpenAI {
  temperature : number;
  topP : number;
  frequencyPenalty : number;
  presencePenalty : number;
  n : number;
  logitBias : JSValue;
  modelName : string;
  modelKwargs : gmap string JSValue;
  stop : option (list string);
  timeout : option number;
  streaming : bool;
  maxTokens : option number;
  azureOpenAIApiVersion : option string;
  azureOpenAIApiKey : option string;
  azureOpenAIApiInstanceName : option string;
  azureOpenAIApiDeploymentName : option string;
  clientConfig : gmap string JSValue
}.

(** [fields?.x] *)
Definition field {A} (fields : option Fields.t) (x : Fields.t → option A) : option A :=
  match fields with
  | Some f => x f
  | None => None
  end.

(** [a ?? b] *)
Definition nullish {A} (a b : option A) : option A :=
  match a with
  | Some _ => a
  | None => b
  end.

(** The constructor.  [getEnvironmentVariable] (of ../util/env.js, not part
    of the sources) is the argument [env]; the constructor of the base class
    is taken to return. *)
Definition ChatOpenAI_new (env : string → option string)
    (fields : option Fields.t) (configuration : option (gmap string JSValue)) :
    Completion ChatOpenAI :=
  let apiKey := nullish (field fields Fields.openAIApiKey) (env "OPENAI_API_KEY") in
  let azureApiKey :=
    nullish (field fields Fields.azureOpenAIApiKey) (env "AZURE_OPENAI_API_KEY") in
  if negb (string_truthy azureApiKey) && negb (string_truthy apiKey) then
    Throw "(Azure) OpenAI API key not found"
  else
    let azureApiInstanceName :=
      nullish (field fields Fields.azureOpenAIApiInstanceName)
        (env "AZURE_OPENAI_API_INSTANCE_NAME") in
    let azureApiDeploymentName :=
      nullish (field fields Fields.azureOpenAIApiDeploymentName)
        (env "AZURE_OPENAI_API_DEPLOYMENT_NAME") in
    let azureApiVersion :=
      nullish (field fields Fields.azureOpenAIApiVersion)
        (env "AZURE_OPENAI_API_VERSION") in
    let this_modelName := default "gpt-3.5-turbo" (field fields Fields.modelName) in
    let this_modelKwargs := default ∅ (field fields Fields.modelKwargs) in
    let this_timeout := field fields Fields.timeout in
    let this_temperature :=
      default (Finite (Qc_of_Z 1)) (field fields Fields.temperature) in
    let this_topP := default (Finite (Qc_of_Z 1)) (field fields Fields.topP) in
    let this_frequencyPenalty :=
      default (Finite (Qc_of_Z 0)) (field fields Fields.frequencyPenalty) in
    let this_presencePenalty :=
      default (Finite (Qc_of_Z 0)) (field fields Fields.presencePenalty) in
    let this_maxTokens := field fields Fields.maxTokens in
    let this_n := default (Finite (Qc_of_Z 1)) (field fields Fields.n) in
    let this_logitBias :=
      match fields with Some f => Fields.logitBias f | None => VUndefined end in
    let this_stop := field fields Fields.stop in
    let this_streaming := default false (field fields Fields.streaming) in
    if this_streaming && number_gt this_n 1 then
      Throw "Cannot stream results when n > 1"
    else if string_truthy azureApiKey && negb (string_truthy azureApiInstanceName) then
      Throw "Azure OpenAI API instance name not found"
    else if string_truthy azureApiKey && negb (string_truthy azureApiDeploymentName) then
      Throw "Azure OpenAI API deployment name not found"
    else if string_truthy azureApiKey && negb (string_truthy azureApiVersion) then
      Throw "Azure OpenAI API version not found"
    else
      Normal (mkChatOpenAI this_temperature this_topP this_frequencyPenalty
                this_presencePenalty this_n this_logitBias this_modelName
                this_modelKwargs this_stop this_timeout this_streaming this_maxTokens
                azureApiVersion azureApiKey azureApiInstanceName azureApiDeploymentName
                (spread_optional (field fields Fields.configuration)
                   (spread_optional configuration
                      (object_literal [("apiKey", of_string apiKey)])))).

(** [invocationParams]: the ten named parameters, then [...this.modelKwargs]. *)
Definition invocationParams (this : ChatOpenAI) : gmap string JSValue :=
  spread (modelKwargs this)
    (object_literal
       [("model", VString (modelName this));
        ("temperature", VNumber (temperature this));
        ("top_p", VNumber (topP this));
        ("frequency_penalty", VNumber (frequencyPenalty this));
        ("presence_penalty", VNumber (presencePenalty this));
        ("max_tokens",
           match maxTokens this with
           | Some x => if number_is x (-1) then VUndefined else VNumber x
           | None => VUndefined
           end);
        ("n", VNumber (n this));
        ("logit_bias", logitBias this);
        ("stop", of_strings (stop this));
        ("stream", VBoolean (streaming this))]).

(** [{model_name: this.modelName, ...this.invocationParams(), ...this.clientConfig}] *)
Definition _identifyingParams (this : ChatOpenAI) : gmap string JSValue :=
  spread (clientConfig this)
    (spread (invocationParams this)
       (object_literal [("model_name", VString (modelName this))])).

Definition identifyingParams (this : ChatOpenAI) : gmap string JSValue :=
  _identifyingParams this.

Definition _llmType : string := "openai".

(** ** Requests and responses *)

(** An [AbortSignal]: one passed in by the caller, or
    [AbortSignal.timeout(ms)]. *)
Inductive AbortSignal :=
| signal_of_caller (tag : string)
| signal_timeout (ms : number).

Module CallOptions.
Record t := mk {
  stop : option (list string);
  signal : option AbortSignal;
  timeout : option number;
  options : option (gmap string JSValue)
}.
End CallOptions.

(** [options?.x] *)
Definition call_option {A} (options : option CallOptions.t)
    (x : CallOptions.t → option A) : option A :=
  match options with
  | Some o => x o
  | None => None
  end.

Record ResponseMessage := mkResponseMessage {
  role : option string;
  content : option string
}.

Record Choice := mkChoice {
  index : nat;
  message : option ResponseMessage;
  finish_reason : option string
}.

(** Token counts are integers, which JavaScript adds exactly. *)
Record Usage := mkUsage {
  completion_tokens : option Z;
  prompt_tokens : option Z;
  total_tokens : option Z
}.

(** [choices] is a JavaScript array: [None] is an element that is missing or
    [undefined]. *)
Record CreateChatCompletionResponse := mkResponse {
  id : string;
  object : string;
  created : number;
  model : string;
  choices : list (option Choice);
  usage : option Usage
}.

Record TokenUsage := mkTokenUsage {
  completionTokens : option Z;
  promptTokens : option Z;
  totalTokens : option Z
}.

Record ChatGeneration := mkGeneration {
  g_text : string;
  g_message : BaseChatMessage;
  generationInfo : option (gmap string JSValue)
}.

Record ChatResult := mkChatResult {
  generations : list ChatGeneration;
  llmOutput : TokenUsage
}.

(** [if (x) { usage.f = (usage.f ?? 0) + x }] for the field read by [get] and
    written by [set] *)
Definition add_usage (get : TokenUsage → option Z)
    (set : option Z → TokenUsage → TokenUsage) (x : option Z)
    (tokenUsage : TokenUsage) : TokenUsage :=
  match x with
  | Some v =>
      if negb (Z.eqb v 0) then set (Some (default 0%Z (get tokenUsage) + v)%Z) tokenUsage
      else tokenUsage
  | None => tokenUsage
  end.

Definition set_completionTokens (v : option Z) (u : TokenUsage) : TokenUsage :=
  mkTokenUsage v (promptTokens u) (totalTokens u).
Definition set_promptTokens (v : option Z) (u : TokenUsage) : TokenUsage :=
  mkTokenUsage (completionTokens u) v (totalTokens u).
Definition set_totalTokens (v : option Z) (u : TokenUsage) : TokenUsage :=
  mkTokenUsage (completionTokens u) (promptTokens u) v.

(** The loop over [data.choices]; reading [part.message] of a missing element
    is a [TypeError]. *)
Definition generation_of (part : option Choice) : Completion ChatGeneration :=
  match part with
  | Some c =>
      let role := match message c with Some m => role m | None => None end in
      let text :=
        default "" (match message c with Some m => content m | None => None end) in
      Normal (mkGeneration text (openAIResponseToChatMessage role text) None)
  | None => Throw "TypeError: Cannot read properties of undefined (reading 'message')"
  end.

(** [ChatOpenAI._generate].  [await_data params messages options] is the
    value awaited at [const data = params.stream ? ... : ...], whichever
    branch is taken, for the request made of [params] and the mapped
    messages; [None] is [undefined], which the promise of the streaming
    branch resolves with when no chunk came before "[DONE]". *)
Definition _generate (this : ChatOpenAI) (messages : list BaseChatMessage)
    (options : option CallOptions.t)
    (await_data : gmap string JSValue → list ChatCompletionRequestMessage →
                  option CallOptions.t →
                  Completion (option CreateChatCompletionResponse)) :
    Completion ChatResult :=
  let tokenUsage := mkTokenUsage None None None in
  if is_given (stop this) && is_given (call_option options CallOptions.stop) then
    Throw "Stop found in input and default params"
  else
    let params := invocationParams this in
    let params :=
      <["stop" := match call_option options CallOptions.stop with
                  | Some l => VStrings l
                  | None => default VUndefined (params !! "stop")
                  end]> params in
    cbind (cmap (λ message,
             cbind (messageTypeToOpenAIRole (_getType message)) (λ r,
               Normal (mkRequestMessage r (text message) (name message))))
             messages) (λ messagesMapped,
    cbind (await_data params messagesMapped options) (λ data,
    match data with
    | None => Throw "TypeError: Cannot read properties of undefined (reading 'usage')"
    | Some data =>
    let u := default (mkUsage None None None) (usage data) in
    let tokenUsage :=
      add_usage completionTokens set_completionTokens (completion_tokens u) tokenUsage in
    let tokenUsage :=
      add_usage promptTokens set_promptTokens (prompt_tokens u) tokenUsage in
    let tokenUsage :=
      add_usage totalTokens set_totalTokens (total_tokens u) tokenUsage in
    cbind (cmap generation_of (choices data)) (λ generations,
    Normal (mkChatResult generations tokenUsage))
    end)).

(** [_combineLLMOutput(...llmOutputs)]: an entry may be missing, and so may
    its [tokenUsage]. *)
Record CombinedUsage := mkCombined {
  sum_completionTokens : Z;
  sum_promptTokens : Z;
  sum_totalTokens : Z
}.

Definition _combineLLMOutput (llmOutputs : list (option (option TokenUsage))) :
    CombinedUsage :=
  foldl (λ acc llmOutput,
           match llmOutput with
           | Some (Some tokenUsage) =>
               mkCombined
                 (sum_completionTokens acc + default 0 (completionTokens tokenUsage))%Z
                 (sum_promptTokens acc + default 0 (promptTokens tokenUsage))%Z
                 (sum_totalTokens acc + default 0 (totalTokens tokenUsage))%Z
           | _ => acc
           end)
    (mkCombined 0 0 0) llmOutputs.

(** [getNumTokensFromMessages].  [getNumTokens] (of the base class) and
    [getModelNameForTiktoken] (of ../base_language/count_tokens.js) are not
    part of the sources; they are arguments, the first taken to resolve to an
    integer.  The accumulator [totalCount] is updated by each message's
    function when it has its count. *)
Definition getNumTokensFromMessages (getNumTokens : string → Z)
    (getModelNameForTiktoken : string → string)
    (this : ChatOpenAI) (messages : list BaseChatMessage) : Completion (Z * list Z) :=
  let '(tokensPerMessage, tokensPerName) :=
    if String.eqb (getModelNameForTiktoken (modelName this)) "gpt-3.5-turbo"
    then (4, -1)%Z
    else if String.prefix "gpt-4" (getModelNameForTiktoken (modelName this))
    then (3, 1)%Z
    else (0, 0)%Z in
  let step (acc : Completion (Z * list Z)) (message : BaseChatMessage) :=
    cbind acc (λ '(totalCount, counts),
      let textCount := getNumTokens (text message) in
      cbind (messageTypeToOpenAIRole (_getType message)) (λ r,
        let roleCount := getNumTokens r in
        let nameCount :=
          match name message with
          | Some nm => (tokensPerName + getNumTokens nm)%Z
          | None => 0%Z
          end in
        let count := (textCount + tokensPerMessage + roleCount + nameCount)%Z in
        Normal ((totalCount + count)%Z, counts ++ [count]))) in
  cbind (foldl step (Normal (0%Z, [])) messages) (λ '(totalCount, countPerMessage),
    Normal ((totalCount + 3)%Z, countPerMessage)).

(** ** The streaming branch of [_generate]

    The function passed as [onmessage], with the variables it closes over
    ([response], [resolved] and what the promise was resolved with) as a
    state.  An event is "[DONE]" or a chunk, taken to be parsed, with array
    indices for the [index] of its parts. *)

Record Delta := mkDelta {
  d_content : option string;
  d_role : option string
}.

Record Part := mkPart {
  p_index : nat;
  p_finish_reason : option string;
  p_delta : option Delta
}.

Record ChunkMessage := mkChunk {
  m_id : string;
  m_object : string;
  m_created : number;
  m_model : string;
  m_choices : list (option Part)
}.

Inductive StreamEvent :=
| Done
| Chunk (message : ChunkMessage).

(** [resolved_with] is what [resolve] was called with, if it was called: the
    response as it is at that moment, or [undefined]. *)
Record StreamState := mkStream {
  response : option CreateChatCompletionResponse;
  resolved : bool;
  resolved_with : option (option CreateChatCompletionResponse)
}.

Definition initial_stream : StreamState := mkStream None false None.

(** [part.delta?.content ?? ""] and [part.delta?.role] *)
Definition delta_content (part : Part) : string :=
  default "" (match p_delta part with Some d => d_content d | None => None end).

Definition delta_role (part : Part) : option string :=
  match p_delta part with Some d => d_role d | None => None end.

(** [choices.find((c) => c.index === i)], with the position of the element
    found (the element is an object, updated where it is): [find] also
    visits the missing elements of an array, where reading [c.index]
    throws. *)
Fixpoint find_choice (i : nat) (cs : list (option Choice)) (pos : nat) :
    Completion (option (nat * Choice)) :=
  match cs with
  | [] => Normal None
  | None :: _ => Throw "TypeError: Cannot read properties of undefined (reading 'index')"
  | Some c :: rest =>
      if Nat.eqb (index c) i then Normal (Some (pos, c)) else find_choice i rest (S pos)
  end.

(** [choices[i] = c]: an assignment past the end leaves the elements in
    between missing. *)
Definition array_set (i : nat) (c : Choice) (cs : list (option Choice)) :
    list (option Choice) :=
  if Nat.ltb i (length cs) then <[i := Some c]> cs
  else cs ++ replicate (i - length cs) None ++ [Some c].

(** [s += x] for a property that may be [undefined] *)
Definition append_content (s : option string) (x : string) : string :=
  match s with
  | Some c => c +:+ x
  | None => "undefined" +:+ x
  end.

(** The body of [for (const part of message.choices)] for a part that is not
    [null], on the choices of [response]. *)
Definition update_choice (part : Part) (cs : list (option Choice)) :
    Completion (list (option Choice)) :=
  cbind (find_choice (p_index part) cs 0) (λ found,
    let '(pos, choice, cs) :=
      match found with
      | Some (pos, c) => (pos, c, cs)
      | None =>
          let c := mkChoice (p_index part) None (p_finish_reason part) in
          (p_index part, c, array_set (p_index part) c cs)
      end in
    let msg :=
      match message choice with
      | Some m => m
      | None => mkResponseMessage (delta_role part) (Some (delta_content part))
      end in
    let msg := mkResponseMessage (role msg)
                 (Some (append_content (content msg) (delta_content part))) in
    Normal (<[pos := Some (mkChoice (index choice) (Some msg) (finish_reason choice))]> cs)).

(** [message.choices.every((c) => c.finish_reason != null)] *)
Fixpoint all_finished (parts : list (option Part)) : Completion bool :=
  match parts with
  | [] => Normal true
  | None :: _ =>
      Throw "TypeError: Cannot read properties of null (reading 'finish_reason')"
  | Some p :: rest =>
      if is_given (p_finish_reason p) then all_finished rest else Normal false
  end.

(** A thrown [TypeError] as a computation. *)
Definition lift {A} (c : Completion A) : M A :=
  match c with
  | Normal a => ret a
  | Throw e => throw e
  end.

(** The loop over the parts of one chunk.  [handleLLMNewToken] is not
    awaited; it has called the handlers when it returns its promise, which is
    before the next part is looked at. *)
Fixpoint consume_parts (runManager : option CallbackManagerForLLMRun)
    (parts : list (option Part)) (r : CreateChatCompletionResponse) :
    M CreateChatCompletionResponse :=
  match parts with
  | [] => ret r
  | None :: rest => consume_parts runManager rest r
  | Some part :: rest =>
      cs <- lift (update_choice part (choices r)) ;;
      match runManager with
      | Some rm => handleLLMNewToken rm (delta_content part)
      | None => ret tt
      end ;;
      consume_parts runManager rest
        (mkResponse (id r) (object r) (created r) (model r) cs (usage r))
  end.

Definition onmessage (runManager : option CallbackManagerForLLMRun)
    (st : StreamState) (event : StreamEvent) : M StreamState :=
  match event with
  | Done =>
      if resolved st then ret st
      else ret (mkStream (response st) true (Some (response st)))
  | Chunk message =>
      let r :=
        match response st with
        | Some r => r
        | None => mkResponse (m_id message) (m_object message) (m_created message)
                    (m_model message) [] None
        end in
      r <- consume_parts runManager (m_choices message) r ;;
      if resolved st then ret (mkStream (Some r) true (resolved_with st))
      else
        finished <- lift (all_finished (m_choices message)) ;;
        if finished then ret (mkStream (Some r) true (Some (Some r)))
        else ret (mkStream (Some r) false (resolved_with st))
  end.

(** The events of a stream, one call of [onmessage] after the other, up to
    the first call that throws. *)
Fixpoint consume (runManager : option CallbackManagerForLLMRun)
    (events : list StreamEvent) (st : StreamState) : M StreamState :=
  match events with
  | [] => ret st
  | event :: rest =>
      st' <- onmessage runManager st event ;;
      consume runManager rest st'
  end.

(** ** [PromptLayerChatOpenAI]

    The fields are as the constructor leaves them: [plTags] is an array and
    [returnPromptLayerId] a boolean. *)

Record PromptLayerChatOpenAI := mkPromptLayer {
  base : ChatOpenAI;
  promptLayerApiKey : option string;
  plTags : list string;
  returnPromptLayerId : bool
}.

Record TrackResponse := mkTrackResponse {
  success : bool;
  request_id : option string
}.

(** [(message as ChatMessage).role] *)
Definition role_of (message : BaseChatMessage) : JSValue :=
  match class message with
  | ChatMessage r => VString r
  | _ => VUndefined
  end.

Definition _convertMessageToDict (message : BaseChatMessage) :
    Completion (gmap string JSValue) :=
  if String.eqb (_getType message) "human" then
    Normal (object_literal [("role", VString "user"); ("content", VString (text message))])
  else if String.eqb (_getType message) "ai" then
    Normal (object_literal [("role", VString "assistant");
                            ("content", VString (text message))])
  else if String.eqb (_getType message) "system" then
    Normal (object_literal [("role", VString "system"); ("content", VString (text message))])
  else if String.eqb (_getType message) "generic" then
    Normal (object_literal [("role", role_of message); ("content", VString (text message))])
  else Throw "Got unknown type [object Object]".

Definition _createMessageDicts (this : PromptLayerChatOpenAI)
    (messages : list BaseChatMessage) (callOptions : option CallOptions.t) :
    Completion (list (gmap string JSValue)) :=
  let params :=
    <["model" := VString (modelName (base this))]> (invocationParams (base this)) in
  if is_given (call_option callOptions CallOptions.stop) && includes_key params "stop"
  then Throw "`stop` found in both the input and default params."
  else cmap _convertMessageToDict messages.

(** The options as parsed at the start of [_generate]: an array is a stop
    list; with a [timeout] and no [signal], a signal is made of the
    timeout. *)
Definition parse_options (options : option (list string + CallOptions.t)) : CallOptions.t :=
  match options with
  | Some (inl stop) => CallOptions.mk (Some stop) None None None
  | Some (inr o) =>
      if match CallOptions.timeout o with Some t => number_truthy t | None => false end
         && negb (is_given (CallOptions.signal o))
      then CallOptions.mk (CallOptions.stop o)
             (match CallOptions.timeout o with
              | Some t => Some (signal_timeout t)
              | None => None
              end)
             (CallOptions.timeout o) (CallOptions.options o)
      else o
  | None => CallOptions.mk None None None None
  end.

(** The body of the loop over the generations.  [track] stands for
    [promptLayerTrackRequest] (of ../util/prompt-layer.js, not part of the
    sources) with the arguments that vary; it may reject. *)
Definition track_generation (this : PromptLayerChatOpenAI)
    (track : list (gmap string JSValue) → gmap string JSValue → list string →
             string * string → option string → Completion TrackResponse)
    (messages : list BaseChatMessage) (parsedOptions : CallOptions.t)
    (generation : ChatGeneration) : Completion ChatGeneration :=
  cbind (_createMessageDicts this messages (Some parsedOptions)) (λ messageDicts,
  cbind (messageTypeToOpenAIRole (_getType (g_message generation))) (λ r,
  cbind (track messageDicts (_identifyingParams (base this)) (plTags this)
           (g_text generation, r) (promptLayerApiKey this)) (λ promptLayerRespBody,
  if returnPromptLayerId this then
    let promptLayerRequestId :=
      if success promptLayerRespBody then request_id promptLayerRespBody else None in
    Normal (mkGeneration (g_text generation) (g_message generation)
              (Some (<["promptLayerRequestId" := of_string promptLayerRequestId]>
                       (default ∅ (generationInfo generation)))))
  else Normal generation))).

Definition PromptLayerChatOpenAI_generate (this : PromptLayerChatOpenAI)
    (messages : list BaseChatMessage) (options : option (list string + CallOptions.t))
    (await_data : gmap string JSValue → list ChatCompletionRequestMessage →
                  option CallOptions.t →
                  Completion (option CreateChatCompletionResponse))
    (track : list (gmap string JSValue) → gmap string JSValue → list string →
             string * string → option string → Completion TrackResponse) :
    Completion ChatResult :=
  let parsedOptions := parse_options options in
  cbind (_generate (base this) messages (Some parsedOptions) await_data)
    (λ generatedResponses,
  cbind (cmap (track_generation this track messages parsedOptions)
           (generations generatedResponses)) (λ tracked,
  Normal (mkChatResult tracked (llmOutput generatedResponses)))).

End OpenAI.

(** * Vocabulary of the statements *)

(** The calls and the diagnostic lines one handler adds for one event. *)
Definition calls_of (ev : Event) (runId : RunId) (parentRunId : option RunId)
    (handler : BaseCallbackHandler) : list Call :=
  match methods handler ev with
  | Undefined => []
  | _ => [mkCall handler ev runId parentRunId]
  end.

Definition errors_of (ev : Event) (handler : BaseCallbackHandler) : list string :=
  match methods handler ev with
  | Rejects err => [error_line handler ev err]
  | _ => []
  end.

(** A handler takes part in a fan-out when the flag the method looks at is
    not set. *)
Definition unsuppressed (suppressed : BaseCallbackHandler → bool)
    (hs : list BaseCallbackHandler) : list BaseCallbackHandler :=
  List.filter (λ h, negb (suppressed h)) hs.

Definition after_fan_out (suppressed : BaseCallbackHandler → bool) (ev : Event)
    (runId : RunId) (parentRunId : option RunId)
    (hs : list BaseCallbackHandler) (s : Store) : Store :=
  set_console_error (λ l, l ++ flat_map (errors_of ev) (unsuppressed suppressed hs))
    (set_calls (λ l, l ++ flat_map (calls_of ev runId parentRunId) (unsuppressed suppressed hs)) s).

(** The dispatching methods of the three run managers, each with the flag it
    tests and the event it delivers. *)
Inductive run_dispatch (this : BaseRunManager.t) :
    M unit → (BaseCallbackHandler → bool) → Event → Prop :=
| dispatch_handleText text :
    run_dispatch this (handleText this text) (λ _, false) (EvText text)
| dispatch_handleLLMNewToken token :
    run_dispatch this (handleLLMNewToken this token) ignoreLLM (EvLLMNewToken token)
| dispatch_handleLLMError err :
    run_dispatch this (handleLLMError this err) ignoreLLM (EvLLMError err)
| dispatch_handleLLMEnd output :
    run_dispatch this (handleLLMEnd this output) ignoreLLM (EvLLMEnd output)
| dispatch_handleChainError err :
    run_dispatch this (handleChainError this err) ignoreChain (EvChainError err)
| dispatch_handleChainEnd output :
    run_dispatch this (handleChainEnd this output) ignoreChain (EvChainEnd output)
| dispatch_handleAgentAction action :
    run_dispatch this (handleAgentAction this action) ignoreAgent (EvAgentAction action)
| dispatch_handleAgentEnd action :
    run_dispatch this (handleAgentEnd this action) ignoreAgent (EvAgentEnd action)
| dispatch_handleToolError err :
    run_dispatch this (handleToolError this err) ignoreAgent (EvToolError err)
| dispatch_handleToolEnd output :
    run_dispatch this (handleToolEnd this output) ignoreAgent (EvToolEnd output).

Section StartOfRun.

Variable uuidv4 : nat → RunId.

Definition minted (runId : option RunId) (s : Store) : RunId :=
  match runId with
  | Some r => r
  | None => uuidv4 (uuids_drawn s)
  end.

Definition after_minting (runId : option RunId) (s : Store) : Store :=
  match runId with
  | Some _ => s
  | None => set_uuids_drawn S s
  end.

(** The three start operations of the dispatcher. *)
Inductive start_dispatch (this : nat) (runId : option RunId) :
    M BaseRunManager.t → (BaseCallbackHandler → bool) → Event → Prop :=
| dispatch_handleLLMStart llm prompts :
    start_dispatch this runId (handleLLMStart uuidv4 this llm prompts runId)
      ignoreLLM (EvLLMStart llm prompts)
| dispatch_handleChainStart chain inputs :
    start_dispatch this runId (handleChainStart uuidv4 this chain inputs runId)
      ignoreChain (EvChainStart chain inputs)
| dispatch_handleToolStart tool input :
    start_dispatch this runId (handleToolStart uuidv4 this tool input runId)
      ignoreAgent (EvToolStart tool input).

End StartOfRun.


(** A dispatch withholds the event from [h]: it resolves, none of the calls
    it makes is a call of [h], and every handler of the array [hs] that is
    not suppressed and has the method is called. *)
Definition withholds (h : BaseCallbackHandler) (suppressed : BaseCallbackHandler → bool)
    (ev : Event) (this : BaseRunManager.t) (op : M unit) (s : Store) : Prop :=
  ∃ s' new,
    op s = (Normal tt, s') ∧
    calls s' = calls s ++ new ∧
    (∀ c, c ∈ new → callee c ≠ h) ∧
    (∀ h', h' ∈ arrays s !!! BaseRunManager.handlers this →
       suppressed h' = false → methods h' ev ≠ Undefined →
       mkCall h' ev (BaseRunManager.runId this) (BaseRunManager._parentRunId this) ∈ new).

(** ** Example inputs *)

(** A handler that has every method; [fails] makes every method reject. *)
Definition example_handler (o : nat) (n : string) (noLLM noChain noAgent fails : bool) :
    BaseCallbackHandler :=
  mkHandler o "Handler" n noLLM noChain noAgent
    (λ _, if fails then Rejects "boom" else Resolves).

(** A store with the given arrays at references 0, 1, ... and the given
    managers after them. *)
Definition example_store (arrs : list (list BaseCallbackHandler))
    (mgrs : list CallbackManager.t) (env : option string) : Store :=
  mkStore (list_to_map (zip (seq 0 (length arrs)) arrs))
    (list_to_map (zip (seq (length arrs) (length mgrs)) mgrs))
    (length arrs + length mgrs) 0 env [] [].

Definition example_uuidv4 (n : nat) : RunId :=
  "run-" +:+ String.concat "" (repeat "i" n).

Definition handler_a : BaseCallbackHandler := example_handler 100 "a" false false false false.
Definition handler_b : BaseCallbackHandler := example_handler 101 "b" false false false false.
Definition handler_k : BaseCallbackHandler := example_handler 102 "k" false false false true.

(** Array 0 holds [a; k; b], array 1 holds [a]; manager 2 owns them. *)
Definition store_akb : Store :=
  example_store [[handler_a; handler_k; handler_b]; [handler_a]]
    [CallbackManager.mk 0 1 None] None.

Definition run_akb : BaseRunManager.t := BaseRunManager.mk "r1" 0 1 None.

(** [c] suppresses pipeline events only, [g] agent events only. *)
Definition handler_c : BaseCallbackHandler := example_handler 103 "c" false true false false.
Definition handler_g : BaseCallbackHandler := example_handler 104 "g" false false true false.

Definition store_ca : Store := example_store [[handler_c; handler_a]; []] [] None.
Definition run_ca : CallbackManagerForChainRun := BaseRunManager.mk "r1" 0 1 None.

(** ** Registration *)

(** The arrays after [addHandler] on a manager whose fields are the arrays
    [a] and [b]. *)
Definition add1 (a b : nat) (inherit : bool) (A : gmap nat (list BaseCallbackHandler))
    (handler : BaseCallbackHandler) : gmap nat (list BaseCallbackHandler) :=
  if inherit then
    <[b := (<[a := (A !!! a) ++ [handler]]> A !!! b) ++ [handler]]>
      (<[a := (A !!! a) ++ [handler]]> A)
  else <[a := (A !!! a) ++ [handler]]> A.

Definition after_removeHandler (this : nat) (handler : BaseCallbackHandler) (s : Store) : Store :=
  let m := managers s !!! this in
  let n := next_ref s in
  let A1 := <[n := List.filter (differs handler) (arrays s !!! CallbackManager.handlers m)]>
              (arrays s) in
  mkStore
    (<[S n := List.filter (differs handler) (A1 !!! CallbackManager.inheritableHandlers m)]> A1)
    (<[this := CallbackManager.mk n (S n) (CallbackManager._parentRunId m)]> (managers s))
    (S (S n)) (uuids_drawn s) (LANGCHAIN_TRACING s) (calls s) (console_error s).

Definition after_setHandlers (this : nat) (handlers : list BaseCallbackHandler)
    (inherit : bool) (s : Store) : Store :=
  let m := managers s !!! this in
  let n := next_ref s in
  mkStore
    (foldl (add1 n (S n) inherit) (<[S n := []]> (<[n := []]> (arrays s))) handlers)
    (<[this := CallbackManager.mk n (S n) (CallbackManager._parentRunId m)]> (managers s))
    (S (S n)) (uuids_drawn s) (LANGCHAIN_TRACING s) (calls s) (console_error s).

(** A call of one of the three registration methods. *)
Inductive Mutation :=
| AddHandler (handler : BaseCallbackHandler) (inherit : bool)
| RemoveHandler (handler : BaseCallbackHandler)
| SetHandlers (handlers : list BaseCallbackHandler) (inherit : bool).

Definition mutate (this : nat) (op : Mutation) : M unit :=
  match op with
  | AddHandler handler inherit => addHandler this handler inherit
  | RemoveHandler handler => removeHandler this handler
  | SetHandlers handlers inherit => setHandlers this handlers inherit
  end.

(** The manager [this] holds two different arrays, both in the store, and
    every handler of [inheritableHandlers] is in [handlers]. *)
Definition inheritance_invariant (s : Store) (this : nat) : Prop :=
  let m := managers s !!! this in
  CallbackManager.handlers m < next_ref s ∧
  CallbackManager.inheritableHandlers m < next_ref s ∧
  CallbackManager.handlers m ≠ CallbackManager.inheritableHandlers m ∧
  arrays s !!! CallbackManager.inheritableHandlers m
    ⊆ arrays s !!! CallbackManager.handlers m.

(** The manager [this] holds two different arrays, both in the store. *)
Definition owns_two_arrays (s : Store) (this : nat) : Prop :=
  let m := managers s !!! this in
  CallbackManager.handlers m < next_ref s ∧
  CallbackManager.inheritableHandlers m < next_ref s ∧
  CallbackManager.handlers m ≠ CallbackManager.inheritableHandlers m.

(** The array [a0] of the store is neither of the two arrays of [this]. *)
Definition detached (s : Store) (this a0 : nat) : Prop :=
  owns_two_arrays s this ∧
  CallbackManager.handlers (managers s !!! this) ≠ a0 ∧
  CallbackManager.inheritableHandlers (managers s !!! this) ≠ a0 ∧
  a0 < next_ref s.

(** The handlers that a sequence of registration calls adds before it first
    calls [removeHandler] or [setHandlers]. *)
Fixpoint added_first (ops : list Mutation) : list BaseCallbackHandler :=
  match ops with
  | AddHandler handler _ :: rest => handler :: added_first rest
  | _ => []
  end.

(** Array 0 holds [a], array 1 holds [a]; manager 2 owns them. *)
Definition store_d : Store :=
  example_store [[handler_a]; [handler_a]] [CallbackManager.mk 0 1 None] None.

(** ** Copies *)

(** The copies of [hs] made one after the other when [o] is the next unused
    reference. *)
Fixpoint copies_from (o : nat) (hs : list BaseCallbackHandler) : list BaseCallbackHandler :=
  match hs with
  | [] => []
  | h :: rest => with_oid o h :: copies_from (S o) rest
  end.

(** The store after [copy] on a manager that is in the store. *)
Definition after_copy (this : nat) (additionalHandlers : list BaseCallbackHandler)
    (inherit : bool) (s : Store) : Store :=
  let m := managers s !!! this in
  let n := next_ref s in
  let hs := arrays s !!! CallbackManager.handlers m in
  let N := length hs + S (S (S n)) in
  mkStore
    (foldl (add1 N (S N) inherit)
       (foldl (add1 N (S N) true)
          (<[S N := []]> (<[N := []]> (<[S n := []]> (<[n := []]> (arrays s)))))
          (copies_from (S (S (S n))) hs))
       (copies_from (S (S N)) additionalHandlers))
    (<[S (S n) := CallbackManager.mk N (S N) (CallbackManager._parentRunId m)]>
       (managers s))
    (length additionalHandlers + S (S N))
    (uuids_drawn s) (LANGCHAIN_TRACING s) (calls s) (console_error s).

(** ** The two halves of [configure] *)

(** The block guarded by [inheritableHandlers || localHandlers]. *)
Definition configure_base
    (inheritableHandlers : option (nat + list BaseCallbackHandler))
    (localHandlers : option (list BaseCallbackHandler)) : M (option nat) :=
  if is_given inheritableHandlers || is_given localHandlers then
    callbackManager <-
      match inheritableHandlers with
      | Some (inl manager) => ret manager
      | Some (inr handlers) =>
          manager <- CallbackManager_new None ;;
          setHandlers manager handlers true ;;
          ret manager
      | None =>
          manager <- CallbackManager_new None ;;
          setHandlers manager [] true ;;
          ret manager
      end ;;
    callbackManager <- copy callbackManager (default [] localHandlers) false ;;
    ret (Some callbackManager)
  else ret None.

(** The block guarded by [options?.verbose || process.env.LANGCHAIN_TRACING
    !== undefined], and the [return]. *)
Definition configure_ambient (consoleCallbackHandler tracingCallbackHandler : BaseCallbackHandler)
    (callbackManager : option nat) (options : option CallbackManagerOptions) : M (option nat) :=
  env <- gets LANGCHAIN_TRACING ;;
  if options_verbose options || is_given env then
    callbackManager <-
      match callbackManager with
      | Some manager => ret manager
      | None => CallbackManager_new None
      end ;;
    consoleHandler <- ConsoleCallbackHandler_new consoleCallbackHandler ;;
    m <- read_manager callbackManager ;;
    hs <- read_array (CallbackManager.handlers m) ;;
    (if options_verbose options && negb (some_named (name consoleHandler) hs) then
       addHandler callbackManager consoleHandler false
     else ret tt) ;;
    env <- gets LANGCHAIN_TRACING ;;
    m <- read_manager callbackManager ;;
    hs <- read_array (CallbackManager.handlers m) ;;
    (if is_given env && negb (some_named "langchain_tracer" hs) then
       tracer <- getTracingCallbackHandler tracingCallbackHandler ;;
       addHandler callbackManager tracer true
     else ret tt) ;;
    ret (Some callbackManager)
  else ret callbackManager.

(** What the second half appends to the [handlers] array [hs] of the manager
    when [o] is the next unused reference: the console handler, then the
    tracer. *)
Definition console_part (consoleCallbackHandler : BaseCallbackHandler)
    (options : option CallbackManagerOptions) (o : nat)
    (hs : list BaseCallbackHandler) : list BaseCallbackHandler :=
  if options_verbose options && negb (some_named (name consoleCallbackHandler) hs)
  then [with_oid o consoleCallbackHandler] else [].

Definition tracer_part (tracingCallbackHandler : BaseCallbackHandler)
    (env : option string) (o : nat)
    (hs : list BaseCallbackHandler) : list BaseCallbackHandler :=
  if is_given env && negb (some_named "langchain_tracer" hs)
  then [with_oid o tracingCallbackHandler] else [].

(** The store after the second half of [configure] on the manager
    [manager]. *)
Definition after_ambient (consoleCallbackHandler tracingCallbackHandler : BaseCallbackHandler)
    (manager : nat) (options : option CallbackManagerOptions) (s : Store) : Store :=
  if options_verbose options || is_given (LANGCHAIN_TRACING s) then
    let m := managers s !!! manager in
    let a := CallbackManager.handlers m in
    let b := CallbackManager.inheritableHandlers m in
    let A1 :=
      foldl (add1 a b false) (arrays s)
        (console_part consoleCallbackHandler options (next_ref s) (arrays s !!! a)) in
    let tracer :=
      tracer_part tracingCallbackHandler (LANGCHAIN_TRACING s) (S (next_ref s)) (A1 !!! a) in
    mkStore (foldl (add1 a b true) A1 tracer) (managers s)
      (length tracer + S (next_ref s))
      (uuids_drawn s) (LANGCHAIN_TRACING s) (calls s) (console_error s)
  else s.

(** [store_d] with [LANGCHAIN_TRACING] set. *)
Definition store_traced : Store :=
  example_store [[handler_a]; [handler_a]] [CallbackManager.mk 0 1 None] (Some "true").

(** ** Stable names *)

Definition names (hs : list BaseCallbackHandler) : list string := map name hs.

Definition named (n : string) (ns : list string) : bool :=
  existsb (λ x, bool_decide (x = n)) ns.

(** The number of handlers of [hs] whose stable name is the tracer's. *)
Definition tracer_count (hs : list BaseCallbackHandler) : nat :=
  length (List.filter (λ h, bool_decide (name h = "langchain_tracer")) hs).

(** The handlers the first argument of [configure] stands for, and what it
    takes for a dispatcher passed there to be a dispatcher of the store. *)
Definition source_handlers (s : Store)
    (inheritableHandlers : option (nat + list BaseCallbackHandler)) :
    list BaseCallbackHandler :=
  match inheritableHandlers with
  | Some (inl manager) => arrays s !!! CallbackManager.handlers (managers s !!! manager)
  | Some (inr handlers) => handlers
  | None => []
  end.

Definition source_in_store (s : Store)
    (inheritableHandlers : option (nat + list BaseCallbackHandler)) : Prop :=
  match inheritableHandlers with
  | Some (inl manager) =>
      manager < next_ref s ∧
      CallbackManager.handlers (managers s !!! manager) < next_ref s
  | _ => True
  end.

(** The names of the handlers [configure] ends with, from the names [src] of
    the inheritable source and the names [lcl] of the local handlers. *)
Definition expected_names (consoleCallbackHandler tracingCallbackHandler : BaseCallbackHandler)
    (src lcl : list string) (options : option CallbackManagerOptions)
    (env : option string) : list string :=
  let cp :=
    if options_verbose options && negb (named (name consoleCallbackHandler) (src ++ lcl))
    then [name consoleCallbackHandler] else [] in
  let tp :=
    if is_given env && negb (named "langchain_tracer" ((src ++ lcl) ++ cp))
    then [name tracingCallbackHandler] else [] in
  (src ++ lcl) ++ cp ++ tp.

Definition example_console : BaseCallbackHandler :=
  mkHandler 0 "ConsoleCallbackHandler" "console_callback_handler" false false false
    (λ _, Resolves).

Definition example_tracer : BaseCallbackHandler :=
  mkHandler 0 "LangChainTracer" "langchain_tracer" false false false (λ _, Resolves).

(** The number of occurrences of [n] among the names [ns]. *)
Definition name_count (n : string) (ns : list string) : nat :=
  length (List.filter (λ x, bool_decide (x = n)) ns).

(** Manager 2 already has a tracer among its handlers, and
    [LANGCHAIN_TRACING] is set. *)
Definition store_with_tracer : Store :=
  example_store [[handler_a; with_oid 105 example_tracer]; [handler_a]]
    [CallbackManager.mk 0 1 None] (Some "true").

Definition verbose_options : option CallbackManagerOptions :=
  Some (mkOptions (Some true) None).

(** ** The scenarios of the specification *)

Definition empty_store : Store := mkStore ∅ ∅ 0 0 None [] [].

(** A dispatcher with [a] inheritable and [b] local starts a pipeline run;
    the child dispatcher of the run starts a tool run. *)
Definition scenario_child_run : M (BaseRunManager.t * BaseRunManager.t) :=
  d <- CallbackManager_new None ;;
  addHandler d handler_a true ;;
  addHandler d handler_b false ;;
  rm <- handleChainStart example_uuidv4 d "chain" "x" (Some "r1") ;;
  d2 <- CallbackManagerForChainRun_getChild rm ;;
  rm2 <- handleToolStart example_uuidv4 d2 "tool" "y" None ;;
  ret (rm, rm2).

(** Two handlers with one name, added by hand, are both kept. *)
Definition scenario_same_name : M (list string) :=
  d <- CallbackManager_new None ;;
  addHandler d (example_handler 200 "h" false false false false) true ;;
  addHandler d (example_handler 201 "h" false false false false) true ;;
  r <- configure example_console example_tracer (Some (inl d)) None None ;;
  match r with
  | Some d' =>
      m <- read_manager d' ;;
      hs <- read_array (CallbackManager.handlers m) ;;
      ret (names hs)
  | None => ret []
  end.

(** * Further vocabulary *)

(** The handler has the method that event [ev] calls. *)
Definition has_method (ev : Event) (h : BaseCallbackHandler) : bool :=
  match methods h ev with
  | Undefined => false
  | _ => true
  end.

(** The handlers of [hs] that a dispatch testing [suppressed] calls with
    [ev], in the order of [hs], each as often as it occurs. *)
Definition notified (suppressed : BaseCallbackHandler → bool) (ev : Event)
    (hs : list BaseCallbackHandler) : list BaseCallbackHandler :=
  List.filter (λ h, negb (suppressed h) && has_method ev h) hs.

(** [l] suppresses model events only. *)
Definition handler_l : BaseCallbackHandler := example_handler 106 "l" true false false false.

(** Array 0 holds [b; l; a; b]: [b] is registered twice. *)
Definition store_twice : Store :=
  example_store [[handler_b; handler_l; handler_a; handler_b]; []] [] None.

Definition run_twice : BaseRunManager.t := BaseRunManager.mk "r7" 0 1 (Some "r6").

(** The handlers that a sequence of registration calls adds as inheritable
    before it first calls [removeHandler] or [setHandlers]. *)
Fixpoint inherited_first (ops : list Mutation) : list BaseCallbackHandler :=
  match ops with
  | AddHandler handler true :: rest => handler :: inherited_first rest
  | AddHandler handler false :: rest => inherited_first rest
  | _ => []
  end.

(** [getChild] is one of the two methods of that name. *)
Definition is_getChild (getChild : BaseRunManager.t → M nat) : Prop :=
  getChild = CallbackManagerForChainRun_getChild ∨
  getChild = CallbackManagerForToolRun_getChild.

(** A pipeline run started on the dispatcher [this], a tool run started on
    the child dispatcher of that run, and the child dispatcher of the tool
    run. *)
Definition nested_runs (uuidv4 : nat → RunId) (this : nat)
    (chain : string) (inputs : ChainValues) (tool : string) (input : string) :
    M (BaseRunManager.t * BaseRunManager.t * nat) :=
  rm <- handleChainStart uuidv4 this chain inputs None ;;
  child <- CallbackManagerForChainRun_getChild rm ;;
  rm2 <- handleToolStart uuidv4 child tool input None ;;
  grandchild <- CallbackManagerForToolRun_getChild rm2 ;;
  ret (rm, rm2, grandchild).

(** The names of the inheritable handlers [configure] ends with: the whole
    inheritable source, then the tracer if [configure] adds it. *)
Definition expected_inheritable_names
    (consoleCallbackHandler tracingCallbackHandler : BaseCallbackHandler)
    (src lcl : list string) (options : option CallbackManagerOptions)
    (env : option string) : list string :=
  let cp :=
    if options_verbose options && negb (named (name consoleCallbackHandler) (src ++ lcl))
    then [name consoleCallbackHandler] else [] in
  let tp :=
    if is_given env && negb (named "langchain_tracer" ((src ++ lcl) ++ cp))
    then [name tracingCallbackHandler] else [] in
  src ++ tp.

(** Handlers 0 and 1 are objects of the store; arrays 2 and 3 belong to the
    dispatcher 4, which holds both handlers, the second as a local one. *)
Definition store_wf : Store :=
  mkStore
    (<[3 := [example_handler 0 "first" false false false false]]>
       (<[2 := [example_handler 0 "first" false false false false;
                example_handler 1 "second" false false false false]]> ∅))
    (<[4 := CallbackManager.mk 2 3 None]> ∅)
    5 0 None [] [].

(** An argument of [fromHandlers] that has [handleLLMStart] only. *)
Definition only_handleLLMStart (ev : Event) : Behaviour :=
  match ev with
  | EvLLMStart _ _ => Resolves
  | _ => Undefined
  end.

(** A handler without methods, as a base constructor might leave it. *)
Definition bare_handler : BaseCallbackHandler :=
  mkHandler 0 "BaseCallbackHandler" "" false false false (λ _, Undefined).

(** * Vocabulary for the chat model *)

(** The roles the chat endpoint knows. *)
Definition openai_roles : list string := ["system"; "assistant"; "user"].

(** The message is a [ChatMessage], of type "generic". *)
Definition is_generic (m : OpenAI.BaseChatMessage) : bool :=
  match OpenAI.class m with
  | OpenAI.ChatMessage _ => true
  | _ => false
  end.

(** An environment in which only [OPENAI_API_KEY] is set. *)
Definition example_env (key : string) (variable : string) : option string :=
  if String.eqb variable "OPENAI_API_KEY" then Some key else None.

Definition no_fields : OpenAI.Fields.t :=
  OpenAI.Fields.mk None None None None None None None None None None None None None
    None OpenAI.VUndefined None None None.

(** The model made with no fields in [example_env "sk-1"]. *)
Definition example_model : OpenAI.ChatOpenAI :=
  OpenAI.mkChatOpenAI
    (OpenAI.Finite (Qc_of_Z 1)) (OpenAI.Finite (Qc_of_Z 1))
    (OpenAI.Finite (Qc_of_Z 0)) (OpenAI.Finite (Qc_of_Z 0))
    (OpenAI.Finite (Qc_of_Z 1)) OpenAI.VUndefined "gpt-3.5-turbo" ∅ None None false None
    None None None None
    (OpenAI.object_literal [("apiKey", OpenAI.VString "sk-1")]).

Definition human (text : string) : OpenAI.BaseChatMessage :=
  OpenAI.mkMessage OpenAI.HumanChatMessage text None.

Definition generic (role text : string) : OpenAI.BaseChatMessage :=
  OpenAI.mkMessage (OpenAI.ChatMessage role) text None.

(** The message of the request made for a message that is not generic. *)
Definition request_message (m : OpenAI.BaseChatMessage) :
    OpenAI.ChatCompletionRequestMessage :=
  OpenAI.mkRequestMessage
    (match OpenAI.class m with
     | OpenAI.HumanChatMessage => "user"
     | OpenAI.AIChatMessage => "assistant"
     | _ => "system"
     end)
    (OpenAI.text m) (OpenAI.name m).

(** The model and the call both give a stop list. *)
Definition stop_conflict (this : OpenAI.ChatOpenAI) (options : option OpenAI.CallOptions.t) :
    bool :=
  is_given (OpenAI.stop this) &&
  is_given (OpenAI.call_option options OpenAI.CallOptions.stop).

(** The generation made of a choice of the response. *)
Definition generation_of_choice (c : OpenAI.Choice) : OpenAI.ChatGeneration :=
  let text :=
    default "" (match OpenAI.message c with
                | Some m => OpenAI.content m
                | None => None
                end) in
  OpenAI.mkGeneration text
    (OpenAI.openAIResponseToChatMessage
       (match OpenAI.message c with Some m => OpenAI.role m | None => None end) text)
    None.

(** A count of the usage the endpoint reports with a response, zero when it
    reports none. *)
Definition reported (count : OpenAI.Usage → option Z)
    (data : OpenAI.CreateChatCompletionResponse) : Z :=
  match OpenAI.usage data with
  | Some u => default 0%Z (count u)
  | None => 0%Z
  end.

Definition total {A} (f : A → Z) (l : list A) : Z :=
  foldr (λ x acc, (f x + acc)%Z) 0%Z l.

(** A call of [_generate], with the response the endpoint gives it. *)
Record GenerateCall := mkGenerateCall {
  call_messages : list OpenAI.BaseChatMessage;
  call_options : option OpenAI.CallOptions.t;
  call_data : OpenAI.CreateChatCompletionResponse
}.

Definition answers (data : OpenAI.CreateChatCompletionResponse)
    (params : gmap string OpenAI.JSValue)
    (messages : list OpenAI.ChatCompletionRequestMessage)
    (options : option OpenAI.CallOptions.t) :
    Completion (option OpenAI.CreateChatCompletionResponse) :=
  Normal (Some data).

Definition example_response (content : string) (completion prompt : Z) :
    OpenAI.CreateChatCompletionResponse :=
  OpenAI.mkResponse "cmpl-1" "chat.completion" (OpenAI.Finite (Qc_of_Z 0)) "gpt-3.5-turbo"
    [Some (OpenAI.mkChoice 0
             (Some (OpenAI.mkResponseMessage (Some "assistant") (Some content)))
             (Some "stop"))]
    (Some (OpenAI.mkUsage (Some completion) (Some prompt) (Some (completion + prompt)%Z))).

(** The parameters [invocationParams] names itself. *)
Definition named_params : list string :=
  ["model"; "temperature"; "top_p"; "frequency_penalty"; "presence_penalty";
   "max_tokens"; "n"; "logit_bias"; "stop"; "stream"].

Definition example_call : GenerateCall :=
  mkGenerateCall [human "hi"] None (example_response "hello" 2 5).

Definition example_result : OpenAI.ChatResult :=
  OpenAI.mkChatResult
    [OpenAI.mkGeneration "hello" (OpenAI.mkMessage OpenAI.AIChatMessage "hello" None) None]
    (OpenAI.mkTokenUsage (Some 2%Z) (Some 5%Z) (Some 7%Z)).

(** The count [count] of an entry passed to [_combineLLMOutput], zero when
    the entry, its usage or the count is missing. *)
Definition entry_count (count : OpenAI.TokenUsage → option Z)
    (llmOutput : option (option OpenAI.TokenUsage)) : Z :=
  match llmOutput with
  | Some (Some tokenUsage) => default 0%Z (count tokenUsage)
  | _ => 0%Z
  end.

(** The entry made of the result of a call. *)
Definition output_of (r : OpenAI.ChatResult) : option (option OpenAI.TokenUsage) :=
  Some (Some (OpenAI.llmOutput r)).

(** The endpoint answers [undefined]. *)
Definition answers_undefined (params : gmap string OpenAI.JSValue)
    (messages : list OpenAI.ChatCompletionRequestMessage)
    (options : option OpenAI.CallOptions.t) :
    Completion (option OpenAI.CreateChatCompletionResponse) :=
  Normal None.

(** ** [PromptLayerChatOpenAI] *)

(** The message as [_convertMessageToDict] passes it to the tracker. *)
Definition message_dict (m : OpenAI.BaseChatMessage) : gmap string OpenAI.JSValue :=
  OpenAI.object_literal
    [("role", OpenAI.VString
                match OpenAI.class m with
                | OpenAI.HumanChatMessage => "user"
                | OpenAI.AIChatMessage => "assistant"
                | OpenAI.SystemChatMessage => "system"
                | OpenAI.ChatMessage r => r
                end);
     ("content", OpenAI.VString (OpenAI.text m))].

(** The role of a choice of the response, if it has one. *)
Definition role_of_choice (c : OpenAI.Choice) : option string :=
  match OpenAI.message c with
  | Some m => OpenAI.role m
  | None => None
  end.

(** The role is one of [openai_roles]. *)
Definition known_role (role : option string) : bool :=
  match role with
  | Some r => bool_decide (r ∈ openai_roles)
  | None => false
  end.

(** The type of [promptLayerTrackRequest], as far as the model has it. *)
Definition Tracker : Type :=
  list (gmap string OpenAI.JSValue) → gmap string OpenAI.JSValue → list string →
  string * string → option string → Completion OpenAI.TrackResponse.

(** A tracker that accepts every request under the identifier [id]. *)
Definition example_tracker (id : string) : Tracker :=
  λ _ _ _ _ _, Normal (OpenAI.mkTrackResponse true (Some id)).

Definition example_promptlayer (returnId : bool) : OpenAI.PromptLayerChatOpenAI :=
  OpenAI.mkPromptLayer example_model (Some "pl-1") ["tag"] returnId.

(** A response whose only choice has the role [role]. *)
Definition response_with_role (role : option string) (content : string) :
    OpenAI.CreateChatCompletionResponse :=
  OpenAI.mkResponse "cmpl-1" "chat.completion" (OpenAI.Finite (Qc_of_Z 0)) "gpt-3.5-turbo"
    [Some (OpenAI.mkChoice 0 (Some (OpenAI.mkResponseMessage role (Some content)))
             (Some "stop"))]
    None.

(** The computation returns. *)
Definition resolves {A} (c : Completion A) : Prop := ∃ a, c = Normal a.

(** What tracking may change of a generation: nothing but [generationInfo],
    which is left alone unless [returnPromptLayerId] is set and then holds
    the identifier of a tracking response under [promptLayerRequestId]
    ([undefined] when the tracker reported no success). *)
Definition tracked_as (this : OpenAI.PromptLayerChatOpenAI)
    (before after : OpenAI.ChatGeneration) : Prop :=
  OpenAI.g_text after = OpenAI.g_text before ∧
  OpenAI.g_message after = OpenAI.g_message before ∧
  if OpenAI.returnPromptLayerId this then
    ∃ response,
      OpenAI.generationInfo after =
      Some (<["promptLayerRequestId" :=
                OpenAI.of_string (if OpenAI.success response
                                  then OpenAI.request_id response else None)]>
              (default ∅ (OpenAI.generationInfo before)))
  else OpenAI.generationInfo after = OpenAI.generationInfo before.

(** The key the constructor takes for the OpenAI endpoint. *)
Definition api_key (env : string → option string) (fields : option OpenAI.Fields.t) :
    option string :=
  OpenAI.nullish (OpenAI.field fields OpenAI.Fields.openAIApiKey) (env "OPENAI_API_KEY").

Definition azure_api_key (env : string → option string) (fields : option OpenAI.Fields.t) :
    option string :=
  OpenAI.nullish (OpenAI.field fields OpenAI.Fields.azureOpenAIApiKey)
    (env "AZURE_OPENAI_API_KEY").

(** Fields that ask for streaming and, through [modelKwargs], for two
    choices. *)
Definition streaming_fields : OpenAI.Fields.t :=
  OpenAI.Fields.mk None None None None None None
    (Some (<["n" := OpenAI.VNumber (OpenAI.Finite (Qc_of_Z 2))]> ∅))
    None None None None None None None OpenAI.VUndefined None (Some true) None.

Definition streaming_model : OpenAI.ChatOpenAI :=
  OpenAI.mkChatOpenAI
    (OpenAI.Finite (Qc_of_Z 1)) (OpenAI.Finite (Qc_of_Z 1))
    (OpenAI.Finite (Qc_of_Z 0)) (OpenAI.Finite (Qc_of_Z 0))
    (OpenAI.Finite (Qc_of_Z 1)) OpenAI.VUndefined "gpt-3.5-turbo"
    (<["n" := OpenAI.VNumber (OpenAI.Finite (Qc_of_Z 2))]> ∅) None None true None
    None None None None
    (OpenAI.object_literal [("apiKey", OpenAI.VString "sk-1")]).

(** Fields with an empty key. *)
Definition empty_key_fields : OpenAI.Fields.t :=
  OpenAI.Fields.mk (Some "") None None None None None None None None None None None None
    None OpenAI.VUndefined None None None.

(** ** Counting tokens *)

(** The count of one message, for the two constants the model name
    selects. *)
Definition message_count (getNumTokens : string → Z) (tokensPerMessage tokensPerName : Z)
    (m : OpenAI.BaseChatMessage) : Z :=
  (getNumTokens (OpenAI.text m) + tokensPerMessage
   + getNumTokens (OpenAI.rm_role (request_message m))
   + match OpenAI.name m with
     | Some nm => tokensPerName + getNumTokens nm
     | None => 0
     end)%Z.

(** A tokenizer that counts characters. *)
Definition example_getNumTokens (s : string) : Z := Z.of_nat (String.length s).

(** ** Streaming *)

Definition joined (l : list string) : string := foldr String.append "" l.

(** The part carries a [finish_reason]. *)
Definition finished (p : OpenAI.Part) : bool := is_given (OpenAI.p_finish_reason p).

(** The choices of the response after the parts [parts] of a stream for a
    single choice: the role and the [finish_reason] are those of the first
    part, and the content is the content of the first part followed by the
    contents of all the parts, the first one included. *)
Definition streamed_choices (parts : list OpenAI.Part) : list (option OpenAI.Choice) :=
  match parts with
  | [] => []
  | p :: _ =>
      [Some (OpenAI.mkChoice 0
               (Some (OpenAI.mkResponseMessage (OpenAI.delta_role p)
                        (Some (OpenAI.delta_content p
                               +:+ joined (map OpenAI.delta_content parts)))))
               (OpenAI.p_finish_reason p))]
  end.

(** The response after these parts, [first] being the first chunk. *)
Definition streamed_response (first : OpenAI.ChunkMessage) (parts : list OpenAI.Part) :
    OpenAI.CreateChatCompletionResponse :=
  OpenAI.mkResponse (OpenAI.m_id first) (OpenAI.m_object first) (OpenAI.m_created first)
    (OpenAI.m_model first) (streamed_choices parts) None.

(** The parts up to the first one that is finished, with [seen] before
    them. *)
Fixpoint first_finished (seen parts : list OpenAI.Part) : option (list OpenAI.Part) :=
  match parts with
  | [] => None
  | p :: rest =>
      if finished p then Some (seen ++ [p]) else first_finished (seen ++ [p]) rest
  end.

(** The store after [handleLLMNewToken] of the run manager has been called
    with each of the tokens in turn. *)
Definition after_tokens (rm : BaseRunManager.t) (tokens : list string) (s : Store) : Store :=
  foldl (λ s token,
           after_fan_out ignoreLLM (EvLLMNewToken token) (BaseRunManager.runId rm)
             (BaseRunManager._parentRunId rm)
             (arrays s !!! BaseRunManager.handlers rm) s)
    s tokens.

Definition example_chunk (content : option string) (role : option string)
    (finish_reason : option string) : OpenAI.ChunkMessage :=
  OpenAI.mkChunk "cmpl-1" "chat.completion.chunk" (OpenAI.Finite (Qc_of_Z 0)) "gpt-3.5-turbo"
    [Some (OpenAI.mkPart 0 finish_reason (Some (OpenAI.mkDelta content role)))].

Definition example_part (content : option string) (role : option string)
    (finish_reason : option string) : OpenAI.Part :=
  OpenAI.mkPart 0 finish_reason (Some (OpenAI.mkDelta content role)).

(** [example_model] with [streaming] set. *)
Definition example_streaming_model : OpenAI.ChatOpenAI :=
  OpenAI.mkChatOpenAI
    (OpenAI.Finite (Qc_of_Z 1)) (OpenAI.Finite (Qc_of_Z 1))
    (OpenAI.Finite (Qc_of_Z 0)) (OpenAI.Finite (Qc_of_Z 0))
    (OpenAI.Finite (Qc_of_Z 1)) OpenAI.VUndefined "gpt-3.5-turbo" ∅ None None true None
    None None None None
    (OpenAI.object_literal [("apiKey", OpenAI.VString "sk-1")]).

(** A model that limits nothing ([maxTokens] is -1) and passes [user]
    through [modelKwargs]. *)
Definition unlimited_model : OpenAI.ChatOpenAI :=
  OpenAI.mkChatOpenAI
    (OpenAI.Finite (Qc_of_Z 1)) (OpenAI.Finite (Qc_of_Z 1))
    (OpenAI.Finite (Qc_of_Z 0)) (OpenAI.Finite (Qc_of_Z 0))
    (OpenAI.Finite (Qc_of_Z 1)) OpenAI.VUndefined "gpt-3.5-turbo"
    (<["user" := OpenAI.VString "u-1"]> ∅) None None false
    (Some (OpenAI.Finite (Qc_of_Z (-1))))
    None None None None
    (OpenAI.object_literal [("apiKey", OpenAI.VString "sk-1")]).

(** A chunk whose parts are [parts]. *)
Definition chunk_with (parts : list (option OpenAI.Part)) : OpenAI.ChunkMessage :=
  OpenAI.mkChunk "cmpl-1" "chat.completion.chunk" (OpenAI.Finite (Qc_of_Z 0)) "gpt-3.5-turbo"
    parts.

(** * Properties *)

(** ** Tactics for stores *)

Ltac unfold_setters :=
  unfold set_arrays, set_managers, set_next_ref, set_uuids_drawn, set_calls,
    set_console_error in *; cbn in *.

(** Projections of a store or of a manager that is written out. *)
Ltac store_simpl :=
  cbn [arrays managers next_ref uuids_drawn LANGCHAIN_TRACING calls console_error
       CallbackManager.handlers CallbackManager.inheritableHandlers
       CallbackManager._parentRunId].

Tactic Notation "store_simpl" "in" hyp(H) :=
  cbn [arrays managers next_ref uuids_drawn LANGCHAIN_TRACING calls console_error
       CallbackManager.handlers CallbackManager.inheritableHandlers
       CallbackManager._parentRunId] in H.

(** The same with the field updates computed; for a goal whose stores are
    all built from [mkStore]. *)
Ltac store_cbv :=
  cbv beta iota zeta delta
    [set_arrays set_managers set_next_ref set_uuids_drawn set_calls
     set_console_error
     arrays managers next_ref uuids_drawn LANGCHAIN_TRACING calls console_error];
  cbn [CallbackManager.handlers CallbackManager.inheritableHandlers
       CallbackManager._parentRunId].

(** ** Fan-out *)

Lemma notify_run handler ev runId parentRunId s :
  notify handler ev runId parentRunId s =
  (Normal tt,
   set_console_error (λ l, l ++ errors_of ev handler)
     (set_calls (λ l, l ++ calls_of ev runId parentRunId handler) s)).
Proof.
  destruct s as [A Ms n u e cs ce].
  unfold notify, try_catch, call_method, calls_of, errors_of.
  destruct (methods handler ev); cbn; unfold_setters;
    rewrite ?app_nil_r; reflexivity.
Qed.

Lemma fan_out_run suppressed ev runId parentRunId hs : ∀ s,
  promise_all_map hs (λ handler,
    if negb (suppressed handler) then notify handler ev runId parentRunId
    else ret tt) s =
  (Normal tt, after_fan_out suppressed ev runId parentRunId hs s).
Proof.
  induction hs as [|h hs IH]; intros s.
  - destruct s; cbn. unfold after_fan_out; unfold_setters.
    rewrite !app_nil_r. reflexivity.
  - cbn [promise_all_map]. destruct (suppressed h) eqn:Hh; cbn [negb].
    + unfold ret at 1. rewrite IH. unfold after_fan_out, unsuppressed.
      cbn [List.filter]. rewrite Hh. reflexivity.
    + rewrite notify_run, IH. unfold after_fan_out, unsuppressed.
      cbn [List.filter]. rewrite Hh. destruct s; unfold_setters.
      rewrite <- !app_assoc. reflexivity.
Qed.

Lemma run_dispatch_run this op suppressed ev :
  run_dispatch this op suppressed ev →
  ∀ s, op s =
    (Normal tt,
     after_fan_out suppressed ev (BaseRunManager.runId this)
       (BaseRunManager._parentRunId this)
       (arrays s !!! BaseRunManager.handlers this) s).
Proof.
  destruct 1; intros s;
    [ exact (fan_out_run (λ _, false) _ _ _ _ s)
    | exact (fan_out_run _ _ _ _ _ s) .. ].
Qed.

Lemma calls_after_fan_out suppressed ev runId parentRunId hs s :
  calls (after_fan_out suppressed ev runId parentRunId hs s) =
  calls s ++ flat_map (calls_of ev runId parentRunId) (unsuppressed suppressed hs).
Proof. reflexivity. Qed.

Lemma console_error_after_fan_out suppressed ev runId parentRunId hs s :
  console_error (after_fan_out suppressed ev runId parentRunId hs s) =
  console_error s ++ flat_map (errors_of ev) (unsuppressed suppressed hs).
Proof. reflexivity. Qed.

Lemma elem_of_unsuppressed suppressed hs h :
  h ∈ unsuppressed suppressed hs ↔ h ∈ hs ∧ suppressed h = false.
Proof.
  unfold unsuppressed. rewrite !list_elem_of_In, filter_In, negb_true_iff.
  reflexivity.
Qed.

(** Every handler of the array that is not suppressed and has the method is
    called. *)
Lemma fan_out_calls_all suppressed ev runId parentRunId hs h :
  h ∈ hs → suppressed h = false → methods h ev ≠ Undefined →
  mkCall h ev runId parentRunId
    ∈ flat_map (calls_of ev runId parentRunId) (unsuppressed suppressed hs).
Proof.
  intros Hin Hs Hm.
  rewrite list_elem_of_In. apply in_flat_map. exists h. split.
  - rewrite <- list_elem_of_In. apply elem_of_unsuppressed. auto.
  - unfold calls_of. destruct (methods h ev); [congruence | left; reflexivity ..].
Qed.

Lemma fan_out_delivers suppressed ev runId parentRunId hs s h :
  h ∈ hs → suppressed h = false → methods h ev ≠ Undefined →
  mkCall h ev runId parentRunId
    ∈ calls (after_fan_out suppressed ev runId parentRunId hs s).
Proof.
  intros Hin Hs Hm. rewrite calls_after_fan_out, elem_of_app. right.
  apply fan_out_calls_all; auto.
Qed.

(** Only such handlers were called. *)
Lemma fan_out_calls_only suppressed ev runId parentRunId hs c :
  c ∈ flat_map (calls_of ev runId parentRunId) (unsuppressed suppressed hs) →
  callee c ∈ hs ∧ suppressed (callee c) = false ∧
  methods (callee c) ev ≠ Undefined ∧ event c = ev.
Proof.
  rewrite list_elem_of_In, in_flat_map. intros (h & Hh & Hc).
  rewrite <- list_elem_of_In in Hh. apply elem_of_unsuppressed in Hh as [Hin Hs].
  unfold calls_of in Hc.
  destruct (methods h ev) eqn:Hm; cbn in Hc; [tauto | | ];
    destruct Hc as [<- | []]; cbn; rewrite Hm; auto.
Qed.


Lemma start_dispatch_run uuidv4 this runId op suppressed ev :
  start_dispatch uuidv4 this runId op suppressed ev →
  ∀ s, op s =
    (Normal (BaseRunManager.mk (minted uuidv4 runId s)
               (CallbackManager.handlers (managers s !!! this))
               (CallbackManager.inheritableHandlers (managers s !!! this))
               (CallbackManager._parentRunId (managers s !!! this))),
     after_fan_out suppressed ev (minted uuidv4 runId s)
       (CallbackManager._parentRunId (managers s !!! this))
       (arrays s !!! CallbackManager.handlers (managers s !!! this))
       (after_minting runId s)).
Proof.
  destruct 1; intros s;
    unfold handleLLMStart, handleChainStart, handleToolStart, bind at 1;
    destruct runId as [r|]; cbn [default_runId minted after_minting];
    unfold ret at 1, bind at 1, read_manager, gets, bind at 1, read_array,
      gets, bind at 1;
    rewrite fan_out_run; reflexivity.
Qed.

(** ** The scenarios of the specification, run *)

Example scenario_child_run_calls :
  calls (scenario_child_run empty_store).2 =
  [mkCall handler_a (EvChainStart "chain" "x") "r1" None;
   mkCall handler_b (EvChainStart "chain" "x") "r1" None;
   mkCall handler_a (EvToolStart "tool" "y") "run-" (Some "r1")].
Proof. vm_compute. reflexivity. Qed.

Example scenario_same_name_kept :
  (scenario_same_name empty_store).1 = Normal ["h"; "h"].
Proof. vm_compute. reflexivity. Qed.

Example configure_nothing :
  configure example_console example_tracer None None None empty_store
  = (Normal None, empty_store).
Proof. vm_compute. reflexivity. Qed.

Example configure_tracing_only :
  (r <- configure example_console example_tracer None None None ;;
   match r with
   | Some d =>
       m <- read_manager d ;;
       hs <- read_array (CallbackManager.handlers m) ;;
       ihs <- read_array (CallbackManager.inheritableHandlers m) ;;
       ret (names hs, names ihs)
   | None => ret ([], [])
   end) (example_store [] [] (Some "true"))
  = (Normal (["langchain_tracer"], ["langchain_tracer"]),
     (configure example_console example_tracer None None None
        (example_store [] [] (Some "true"))).2).
Proof. vm_compute. reflexivity. Qed.

Example configure_verbose_local :
  (r <- configure example_console example_tracer None (Some [handler_a]) verbose_options ;;
   match r with
   | Some d =>
       m <- read_manager d ;;
       hs <- read_array (CallbackManager.handlers m) ;;
       ihs <- read_array (CallbackManager.inheritableHandlers m) ;;
       ret (names hs, names ihs)
   | None => ret ([], [])
   end) empty_store
  = (Normal (["a"; "console_callback_handler"], []),
     (configure example_console example_tracer None (Some [handler_a]) verbose_options
        empty_store).2).
Proof. vm_compute. reflexivity. Qed.

(** ** Isolation of handler failures *)



(** ** Free text reaches every handler *)

Lemma unsuppressed_none hs : unsuppressed (λ _, false) hs = hs.
Proof.
  unfold unsuppressed. induction hs as [|x xs IH]; [reflexivity|].
  cbn [List.filter negb]. f_equal. exact IH.
Qed.

(** C8: [handleText] on a run manager (of any of the three classes) resolves
    and calls [handleText] on every handler of the run's array that has the
    method; the calls it makes are those of the whole array, none of the
    three [ignore*] flags being looked at. *)
Theorem handleText_ignores_suppression_flags (this : BaseRunManager.t) (text : string)
    (s : Store) (h : BaseCallbackHandler) :
  h ∈ arrays s !!! BaseRunManager.handlers this →
  methods h (EvText text) ≠ Undefined →
  ∃ s', handleText this text s = (Normal tt, s') ∧
    calls s' = calls s ++
      flat_map (calls_of (EvText text) (BaseRunManager.runId this)
                  (BaseRunManager._parentRunId this))
        (arrays s !!! BaseRunManager.handlers this) ∧
    mkCall h (EvText text) (BaseRunManager.runId this)
      (BaseRunManager._parentRunId this) ∈ calls s'.
Proof.
  intros Hin Hm.
  rewrite (run_dispatch_run _ _ _ _ (dispatch_handleText this text) s).
  eexists; split; [reflexivity | split].
  - rewrite calls_after_fan_out, unsuppressed_none. reflexivity.
  - apply fan_out_delivers; auto.
Qed.

Lemma handleText_ignores_suppression_flags_witness :
  ∃ s', handleText (BaseRunManager.mk "r1" 0 0 (Some "r0")) "hello"
          (example_store [[example_handler 7 "deaf" true true true false]] [] None)
        = (Normal tt, s') ∧
    calls s' =
      calls (example_store [[example_handler 7 "deaf" true true true false]] [] None) ++
      flat_map (calls_of (EvText "hello") "r1" (Some "r0"))
        (arrays (example_store [[example_handler 7 "deaf" true true true false]] [] None)
           !!! 0) ∧
    mkCall (example_handler 7 "deaf" true true true false) (EvText "hello") "r1" (Some "r0")
      ∈ calls s'.
Proof.
  apply (handleText_ignores_suppression_flags
           (BaseRunManager.mk "r1" 0 0 (Some "r0")) "hello"
           (example_store [[example_handler 7 "deaf" true true true false]] [] None)
           (example_handler 7 "deaf" true true true false)).
  - vm_compute. constructor.
  - cbn. discriminate.
Defined.

(** ** Suppression flags *)

Lemma run_dispatch_withholds this op suppressed ev s h :
  run_dispatch this op suppressed ev →
  suppressed h = true →
  withholds h suppressed ev this op s.
Proof.
  intros Hop Hh. unfold withholds.
  rewrite (run_dispatch_run _ _ _ _ Hop s).
  eexists _, _; split; [reflexivity | split; [apply calls_after_fan_out | split]].
  - intros c Hc Heq. apply fan_out_calls_only in Hc as (_ & Hs & _).
    rewrite Heq in Hs. congruence.
  - intros h' Hin Hs Hm. apply fan_out_calls_all; auto.
Qed.

(** C3 as stated fails: a handler with [ignoreChain] set and [ignoreAgent]
    not set is called by [handleAgentAction] and by [handleAgentEnd], which
    test [ignoreAgent]. *)
Lemma ignoreChain_does_not_stop_agent_events :
  ignoreChain handler_c = true ∧
  arrays store_ca !!! BaseRunManager.handlers run_ca = [handler_c; handler_a] ∧
  calls store_ca = [] ∧
  calls (handleAgentAction run_ca "act" store_ca).2 =
    [mkCall handler_c (EvAgentAction "act") "r1" None;
     mkCall handler_a (EvAgentAction "act") "r1" None] ∧
  calls (handleAgentEnd run_ca "fin" store_ca).2 =
    [mkCall handler_c (EvAgentEnd "fin") "r1" None;
     mkCall handler_a (EvAgentEnd "fin") "r1" None].
Proof. repeat split; vm_compute; reflexivity. Qed.

(** C3, amended: on a pipeline run manager, a handler with [ignoreChain] set
    is never called by [handleChainError] or [handleChainEnd], and a handler
    with [ignoreAgent] set is never called by [handleAgentAction] or
    [handleAgentEnd]; in each case the dispatch resolves and the handlers of
    the run that do not have the flag (and have the method) are called. *)
Theorem suppression_flags_respected (this : CallbackManagerForChainRun) (s : Store)
    (h : BaseCallbackHandler) :
  (ignoreChain h = true →
   ∀ err output,
     withholds h ignoreChain (EvChainError err) this (handleChainError this err) s ∧
     withholds h ignoreChain (EvChainEnd output) this (handleChainEnd this output) s)
  ∧
  (ignoreAgent h = true →
   ∀ action finish,
     withholds h ignoreAgent (EvAgentAction action) this (handleAgentAction this action) s ∧
     withholds h ignoreAgent (EvAgentEnd finish) this (handleAgentEnd this finish) s).
Proof.
  split; intros Hh ? ?; split; apply run_dispatch_withholds; auto; constructor.
Qed.

Lemma suppression_flags_respected_witness :
  (∀ err output,
     withholds handler_c ignoreChain (EvChainError err) run_ca
       (handleChainError run_ca err) store_ca ∧
     withholds handler_c ignoreChain (EvChainEnd output) run_ca
       (handleChainEnd run_ca output) store_ca)
  ∧
  (∀ action finish,
     withholds handler_g ignoreAgent (EvAgentAction action) run_ca
       (handleAgentAction run_ca action) store_ca ∧
     withholds handler_g ignoreAgent (EvAgentEnd finish) run_ca
       (handleAgentEnd run_ca finish) store_ca).
Proof.
  split.
  - apply (proj1 (suppression_flags_respected run_ca store_ca handler_c)).
    reflexivity.
  - apply (proj2 (suppression_flags_respected run_ca store_ca handler_g)).
    reflexivity.
Defined.

(** ** Registration: what each method does to the store *)

Lemma addHandler_run this handler inherit s :
  addHandler this handler inherit s =
  (Normal tt,
   set_arrays (λ A, add1 (CallbackManager.handlers (managers s !!! this))
                      (CallbackManager.inheritableHandlers (managers s !!! this))
                      inherit A handler) s).
Proof. destruct inherit; reflexivity. Qed.

Lemma for_of_addHandler_run this inherit handlers : ∀ s,
  for_of handlers (λ handler, addHandler this handler inherit) s =
  (Normal tt,
   set_arrays (λ A, foldl (add1 (CallbackManager.handlers (managers s !!! this))
                             (CallbackManager.inheritableHandlers (managers s !!! this))
                             inherit) A handlers) s).
Proof.
  induction handlers as [|h hs IH]; intros s.
  - destruct s; reflexivity.
  - cbn [for_of]. unfold bind at 1. rewrite addHandler_run, IH. reflexivity.
Qed.

Lemma removeHandler_run this handler s :
  removeHandler this handler s = (Normal tt, after_removeHandler this handler s).
Proof.
  destruct s as [A Ms n u e cs ce].
  unfold removeHandler, after_removeHandler, bind, read_manager, read_array,
    new_array, write_manager, gets, modify.
  store_cbv. rewrite !lookup_total_insert_eq. store_cbv.
  rewrite insert_insert_eq. reflexivity.
Qed.

Lemma setHandlers_run this handlers inherit s :
  setHandlers this handlers inherit s =
  (Normal tt, after_setHandlers this handlers inherit s).
Proof.
  destruct s as [A Ms n u e cs ce].
  unfold setHandlers, after_setHandlers.
  unfold bind at 1, read_manager at 1, gets at 1.
  unfold bind at 1, new_array at 1.
  unfold bind at 1, write_manager at 1, modify at 1.
  unfold bind at 1, read_manager at 1, gets at 1.
  unfold bind at 1, new_array at 1.
  unfold bind at 1, write_manager at 1, modify at 1.
  rewrite for_of_addHandler_run. store_cbv.
  rewrite !lookup_total_insert_eq. store_cbv.
  rewrite insert_insert_eq. reflexivity.
Qed.

Lemma add1_handlers a b inherit A h :
  a ≠ b → add1 a b inherit A h !!! a = (A !!! a) ++ [h].
Proof.
  intros Hab. unfold add1. destruct inherit.
  - rewrite lookup_total_insert_ne by auto. apply lookup_total_insert_eq.
  - apply lookup_total_insert_eq.
Qed.

Lemma add1_inheritable a b inherit A h :
  a ≠ b →
  add1 a b inherit A h !!! b = (A !!! b) ++ (if inherit then [h] else []).
Proof.
  intros Hab. unfold add1. destruct inherit.
  - rewrite lookup_total_insert_eq. rewrite lookup_total_insert_ne by auto.
    reflexivity.
  - rewrite lookup_total_insert_ne by auto. rewrite app_nil_r. reflexivity.
Qed.

Lemma add1_other a b inherit A h l :
  l ≠ a → l ≠ b → add1 a b inherit A h !! l = A !! l.
Proof.
  intros Ha Hb. unfold add1. destruct inherit.
  - rewrite !lookup_insert_ne by auto. reflexivity.
  - rewrite lookup_insert_ne by auto. reflexivity.
Qed.

Lemma add_all_handlers a b inherit hs : ∀ A,
  a ≠ b → foldl (add1 a b inherit) A hs !!! a = (A !!! a) ++ hs.
Proof.
  induction hs as [|h hs IH]; intros A Hab; cbn [foldl].
  - rewrite app_nil_r. reflexivity.
  - rewrite IH, add1_handlers by auto. rewrite <- app_assoc. reflexivity.
Qed.

Lemma add_all_inheritable a b inherit hs : ∀ A,
  a ≠ b →
  foldl (add1 a b inherit) A hs !!! b = (A !!! b) ++ (if inherit then hs else []).
Proof.
  induction hs as [|h hs IH]; intros A Hab; cbn [foldl].
  - destruct inherit; rewrite app_nil_r; reflexivity.
  - rewrite IH, add1_inheritable by auto.
    destruct inherit; rewrite <- app_assoc; reflexivity.
Qed.

Lemma add_all_other a b inherit hs l : ∀ A,
  l ≠ a → l ≠ b → foldl (add1 a b inherit) A hs !! l = A !! l.
Proof.
  induction hs as [|h hs IH]; intros A Ha Hb; cbn [foldl].
  - reflexivity.
  - rewrite IH, add1_other by auto. reflexivity.
Qed.

Lemma lookup_total_other {V} `{Inhabited V} (A A' : gmap nat V) l :
  A' !! l = A !! l → A' !!! l = A !!! l.
Proof. intros Heq. rewrite !lookup_total_alt, Heq. reflexivity. Qed.

Lemma filter_subseteq (P : BaseCallbackHandler → bool) (l1 l2 : list BaseCallbackHandler) :
  l1 ⊆ l2 → List.filter P l1 ⊆ List.filter P l2.
Proof.
  intros Hsub x. rewrite !list_elem_of_In, !filter_In, <- !list_elem_of_In.
  intros [Hin HP]. split; [apply Hsub|]; assumption.
Qed.

(** ** The inheritance invariant *)

Lemma CallbackManager_new_run parentRunId s :
  CallbackManager_new parentRunId s =
  (Normal (S (S (next_ref s))),
   mkStore (<[S (next_ref s) := []]> (<[next_ref s := []]> (arrays s)))
     (<[S (S (next_ref s)) :=
          CallbackManager.mk (next_ref s) (S (next_ref s)) parentRunId]> (managers s))
     (S (S (S (next_ref s)))) (uuids_drawn s) (LANGCHAIN_TRACING s) (calls s)
     (console_error s)).
Proof. reflexivity. Qed.

Lemma new_manager_invariant parentRunId s :
  ∃ s', CallbackManager_new parentRunId s = (Normal (S (S (next_ref s))), s') ∧
    inheritance_invariant s' (S (S (next_ref s))).
Proof.
  rewrite CallbackManager_new_run. eexists; split; [reflexivity|].
  unfold inheritance_invariant. cbn. rewrite lookup_total_insert_eq. cbn.
  rewrite lookup_total_insert_eq. repeat split; try lia.
  intros x Hx. apply elem_of_nil in Hx. contradiction.
Qed.

Lemma mutate_invariant this op s :
  inheritance_invariant s this →
  ∃ s', mutate this op s = (Normal tt, s') ∧ inheritance_invariant s' this.
Proof.
  unfold inheritance_invariant. cbn zeta. intros (Ha & Hb & Hab & Hsub).
  destruct op as [h inherit | h | hs inherit]; cbn [mutate].
  - rewrite addHandler_run. eexists; split; [reflexivity|]. cbn.
    repeat split; auto.
    rewrite add1_handlers, add1_inheritable by auto.
    intros x. rewrite !elem_of_app. intros [Hx | Hx]; [left; auto|].
    destruct inherit; [right; exact Hx | apply elem_of_nil in Hx; contradiction].
  - rewrite removeHandler_run. eexists; split; [reflexivity|].
    unfold after_removeHandler. cbn. rewrite lookup_total_insert_eq. cbn.
    repeat split; try lia.
    rewrite lookup_total_insert_eq.
    rewrite (lookup_total_insert_ne _ (S (next_ref s)) (next_ref s)) by lia.
    rewrite lookup_total_insert_eq.
    rewrite lookup_total_insert_ne by lia.
    apply filter_subseteq, Hsub.
  - rewrite setHandlers_run. eexists; split; [reflexivity|].
    unfold after_setHandlers. cbn. rewrite lookup_total_insert_eq. cbn.
    repeat split; try lia.
    rewrite add_all_handlers, add_all_inheritable by lia.
    rewrite lookup_total_insert_eq.
    rewrite lookup_total_insert_ne by lia. rewrite lookup_total_insert_eq.
    cbn. destruct inherit; [reflexivity|].
    intros x Hx. apply elem_of_nil in Hx. contradiction.
Qed.

Lemma mutations_invariant this ops : ∀ s,
  inheritance_invariant s this →
  ∃ s', for_of ops (mutate this) s = (Normal tt, s') ∧ inheritance_invariant s' this.
Proof.
  induction ops as [|op ops IH]; intros s Hinv.
  - exists s. split; [reflexivity | assumption].
  - cbn [for_of]. unfold bind.
    destruct (mutate_invariant this op s Hinv) as (s1 & -> & Hinv1).
    apply IH, Hinv1.
Qed.

(** C4: build a dispatcher with [new CallbackManager(parentRunId)] in any
    store and apply to it any finite sequence of [addHandler],
    [removeHandler] and [setHandlers] calls: the sequence runs to its end and
    every handler of the resulting [inheritableHandlers] array is in the
    resulting [handlers] array. *)
Theorem inheritable_subset_of_handlers (parentRunId : option RunId)
    (ops : list Mutation) (s0 : Store) :
  ∃ this s,
    (this <- CallbackManager_new parentRunId ;;
     for_of ops (mutate this) ;;
     ret this) s0 = (Normal this, s) ∧
    arrays s !!! CallbackManager.inheritableHandlers (managers s !!! this)
      ⊆ arrays s !!! CallbackManager.handlers (managers s !!! this).
Proof.
  destruct (new_manager_invariant parentRunId s0) as (s1 & Hnew & Hinv1).
  destruct (mutations_invariant _ ops s1 Hinv1) as (s2 & Hops & Hinv2).
  exists (S (S (next_ref s0))), s2. split.
  - unfold bind. rewrite Hnew, Hops. reflexivity.
  - apply Hinv2.
Qed.

(** ** Run managers share the dispatcher's arrays *)

Lemma mutate_detached this op s a0 :
  detached s this a0 →
  ∃ s', mutate this op s = (Normal tt, s') ∧ detached s' this a0 ∧
    arrays s' !! a0 = arrays s !! a0.
Proof.
  unfold detached, owns_two_arrays. cbn zeta.
  intros ((Ha & Hb & Hab) & Ha0 & Hb0 & Hlt).
  destruct op as [h inherit | h | hs inherit]; cbn [mutate].
  - rewrite addHandler_run. eexists; split; [reflexivity|]. cbn.
    split; [tauto|]. apply add1_other; auto.
  - rewrite removeHandler_run. eexists; split; [reflexivity|].
    unfold after_removeHandler. cbn. rewrite lookup_total_insert_eq. cbn.
    split; [repeat split; lia|].
    rewrite !lookup_insert_ne by lia. reflexivity.
  - rewrite setHandlers_run. eexists; split; [reflexivity|].
    unfold after_setHandlers. cbn. rewrite lookup_total_insert_eq. cbn.
    split; [repeat split; lia|].
    rewrite add_all_other by lia. rewrite !lookup_insert_ne by lia. reflexivity.
Qed.

Lemma mutations_detached this ops a0 : ∀ s,
  detached s this a0 →
  ∃ s', for_of ops (mutate this) s = (Normal tt, s') ∧
    arrays s' !! a0 = arrays s !! a0.
Proof.
  induction ops as [|op ops IH]; intros s Hd.
  - exists s. split; reflexivity.
  - cbn [for_of]. unfold bind.
    destruct (mutate_detached this op s a0 Hd) as (s1 & -> & Hd1 & Heq1).
    destruct (IH s1 Hd1) as (s2 & -> & Heq2).
    exists s2. split; [reflexivity | congruence].
Qed.

Lemma mutations_shared this ops : ∀ s,
  owns_two_arrays s this →
  ∃ s', for_of ops (mutate this) s = (Normal tt, s') ∧
    arrays s' !!! CallbackManager.handlers (managers s !!! this) =
    (arrays s !!! CallbackManager.handlers (managers s !!! this)) ++ added_first ops.
Proof.
  induction ops as [|op ops IH]; intros s Hown.
  - exists s. split; [reflexivity|]. cbn. rewrite app_nil_r. reflexivity.
  - cbn [for_of]. unfold bind.
    pose proof Hown as (Ha & Hb & Hab).
    destruct op as [h inherit | h | hs inherit]; cbn [mutate added_first].
    + rewrite addHandler_run.
      match goal with |- context [for_of ops _ ?s1] =>
        destruct (IH s1) as (s2 & -> & Heq2) end.
      { unfold owns_two_arrays. cbn. auto. }
      exists s2. split; [reflexivity|]. cbn in Heq2. rewrite Heq2.
      rewrite add1_handlers by auto. rewrite <- app_assoc. reflexivity.
    + rewrite removeHandler_run.
      destruct (mutations_detached this ops
                  (CallbackManager.handlers (managers s !!! this))
                  (after_removeHandler this h s)) as (s2 & -> & Heq2).
      { unfold detached, owns_two_arrays, after_removeHandler. cbn.
        rewrite lookup_total_insert_eq. cbn. repeat split; lia. }
      exists s2. split; [reflexivity|]. rewrite app_nil_r.
      apply lookup_total_other. rewrite Heq2.
      unfold after_removeHandler. cbn. rewrite !lookup_insert_ne by lia.
      reflexivity.
    + rewrite setHandlers_run.
      destruct (mutations_detached this ops
                  (CallbackManager.handlers (managers s !!! this))
                  (after_setHandlers this hs inherit s)) as (s2 & -> & Heq2).
      { unfold detached, owns_two_arrays, after_setHandlers. cbn.
        rewrite lookup_total_insert_eq. cbn. repeat split; lia. }
      exists s2. split; [reflexivity|]. rewrite app_nil_r.
      apply lookup_total_other. rewrite Heq2.
      unfold after_setHandlers. cbn. rewrite add_all_other by lia.
      rewrite !lookup_insert_ne by lia. reflexivity.
Qed.

(** C2 as stated fails: manager 2 of [store_d] starts a model run, then
    [addHandler] is called on it; [push] writes to the array the run manager
    holds, and the run's next [handleText] calls the added handler too. *)
Lemma addHandler_reaches_earlier_run :
  ∃ rm s1 s2 s3,
    handleLLMStart example_uuidv4 2 "llm" ["p"] (Some "r1") store_d = (Normal rm, s1) ∧
    arrays s1 !!! BaseRunManager.handlers rm = [handler_a] ∧
    addHandler 2 handler_c true s1 = (Normal tt, s2) ∧
    arrays s2 !!! BaseRunManager.handlers rm = [handler_a; handler_c] ∧
    handleText rm "t" s2 = (Normal tt, s3) ∧
    calls s3 = calls s2 ++
      [mkCall handler_a (EvText "t") "r1" None; mkCall handler_c (EvText "t") "r1" None].
Proof.
  eexists _, _, _, _.
  split; [vm_compute; reflexivity|].
  split; [vm_compute; reflexivity|].
  split; [vm_compute; reflexivity|].
  split; [vm_compute; reflexivity|].
  split; vm_compute; reflexivity.
Qed.

(** C2, amended: let [rm] be the run manager returned by a start operation of
    a dispatcher that holds two different arrays, and let any sequence of
    [addHandler], [removeHandler] and [setHandlers] calls on the dispatcher
    follow.  The handlers [rm] notifies afterwards are those its array held
    when it was created, followed by the handlers that [addHandler] added
    before the first [removeHandler] or [setHandlers] of the sequence:
    [removeHandler], [setHandlers] and every call after the first of them
    leave the run manager's handlers unchanged. *)
Theorem run_manager_shares_handlers_array (uuidv4 : nat → RunId) (this : nat)
    (runId : option RunId) (start : M BaseRunManager.t)
    (suppressed : BaseCallbackHandler → bool) (ev : Event)
    (ops : list Mutation) (s : Store) :
  start_dispatch uuidv4 this runId start suppressed ev →
  owns_two_arrays s this →
  ∃ rm s1 s2,
    start s = (Normal rm, s1) ∧
    for_of ops (mutate this) s1 = (Normal tt, s2) ∧
    arrays s2 !!! BaseRunManager.handlers rm =
      (arrays s1 !!! BaseRunManager.handlers rm) ++ added_first ops ∧
    ∀ op suppressed' ev',
      run_dispatch rm op suppressed' ev' →
      op s2 =
        (Normal tt,
         after_fan_out suppressed' ev' (BaseRunManager.runId rm)
           (BaseRunManager._parentRunId rm)
           ((arrays s1 !!! BaseRunManager.handlers rm) ++ added_first ops) s2).
Proof.
  intros Hstart Hown.
  rewrite (start_dispatch_run _ _ _ _ _ _ Hstart s).
  match goal with |- context [(Normal ?rm, ?s1)] =>
    destruct (mutations_shared this ops s1) as (s2 & Hops & Heq) end.
  { destruct runId; exact Hown. }
  eexists _, _, s2. split; [reflexivity|].
  split; [exact Hops|].
  assert (Hm : ∀ s0, managers (after_fan_out suppressed ev (minted uuidv4 runId s)
                        (CallbackManager._parentRunId (managers s !!! this)) s0
                        (after_minting runId s)) = managers s)
    by (intros; destruct runId; reflexivity).
  rewrite Hm in Heq. cbn [BaseRunManager.handlers].
  split; [exact Heq|].
  intros op suppressed' ev' Hop.
  rewrite (run_dispatch_run _ _ _ _ Hop s2). cbn [BaseRunManager.handlers].
  rewrite Heq. reflexivity.
Qed.

Lemma run_manager_shares_handlers_array_witness :
  ∃ rm s1 s2,
    handleChainStart example_uuidv4 2 "chain" "in" None store_d = (Normal rm, s1) ∧
    for_of [AddHandler handler_b false; RemoveHandler handler_a; AddHandler handler_c true]
      (mutate 2) s1 = (Normal tt, s2) ∧
    arrays s2 !!! BaseRunManager.handlers rm =
      (arrays s1 !!! BaseRunManager.handlers rm) ++
      added_first [AddHandler handler_b false; RemoveHandler handler_a;
                   AddHandler handler_c true] ∧
    ∀ op suppressed' ev',
      run_dispatch rm op suppressed' ev' →
      op s2 =
        (Normal tt,
         after_fan_out suppressed' ev' (BaseRunManager.runId rm)
           (BaseRunManager._parentRunId rm)
           ((arrays s1 !!! BaseRunManager.handlers rm) ++
            added_first [AddHandler handler_b false; RemoveHandler handler_a;
                         AddHandler handler_c true]) s2).
Proof.
  apply (run_manager_shares_handlers_array example_uuidv4 2 None _ ignoreChain
           (EvChainStart "chain" "in")).
  - constructor.
  - unfold owns_two_arrays. vm_compute. repeat split; lia.
Defined.

(** ** Child dispatchers *)

Ltac getChild_run_tac Hlt :=
  unfold bind at 1; rewrite CallbackManager_new_run;
  unfold bind at 1, read_array at 1, gets at 1;
  unfold bind at 1; rewrite setHandlers_run;
  eexists; split; [reflexivity|];
  unfold after_setHandlers; store_simpl;
  rewrite !lookup_total_insert_eq; store_simpl;
  split; [reflexivity|];
  rewrite add_all_handlers, add_all_inheritable by lia;
  rewrite lookup_total_insert_eq;
  rewrite (lookup_total_insert_ne _ (S (S (S (S (next_ref _)))))) by lia;
  rewrite lookup_total_insert_eq;
  rewrite !lookup_total_insert_ne by lia;
  split; reflexivity.

Lemma chain_getChild_run (this : CallbackManagerForChainRun) (s : Store) :
  BaseRunManager.inheritableHandlers this < next_ref s →
  ∃ s',
    CallbackManagerForChainRun_getChild this s = (Normal (S (S (next_ref s))), s') ∧
    managers s' !!! S (S (next_ref s)) =
      CallbackManager.mk (3 + next_ref s) (4 + next_ref s)
        (Some (BaseRunManager.runId this)) ∧
    arrays s' !!! (3 + next_ref s) = arrays s !!! BaseRunManager.inheritableHandlers this ∧
    arrays s' !!! (4 + next_ref s) = arrays s !!! BaseRunManager.inheritableHandlers this.
Proof.
  intros Hlt. unfold CallbackManagerForChainRun_getChild. getChild_run_tac Hlt.
Qed.

Lemma tool_getChild_run (this : CallbackManagerForToolRun) (s : Store) :
  BaseRunManager.inheritableHandlers this < next_ref s →
  ∃ s',
    CallbackManagerForToolRun_getChild this s = (Normal (S (S (next_ref s))), s') ∧
    managers s' !!! S (S (next_ref s)) =
      CallbackManager.mk (3 + next_ref s) (4 + next_ref s)
        (Some (BaseRunManager.runId this)) ∧
    arrays s' !!! (3 + next_ref s) = arrays s !!! BaseRunManager.inheritableHandlers this ∧
    arrays s' !!! (4 + next_ref s) = arrays s !!! BaseRunManager.inheritableHandlers this.
Proof.
  intros Hlt. unfold CallbackManagerForToolRun_getChild. getChild_run_tac Hlt.
Qed.

(** C5: [getChild] of a pipeline or of a tool run manager returns a new
    dispatcher whose parent run is the run of the run manager and whose
    [handlers] and [inheritableHandlers] arrays both hold exactly the
    handlers of the run manager's [inheritableHandlers] array. *)
Theorem getChild_inherits_inheritable_handlers (this : BaseRunManager.t) (s : Store)
    (getChild : BaseRunManager.t → M nat) :
  getChild = CallbackManagerForChainRun_getChild ∨
  getChild = CallbackManagerForToolRun_getChild →
  BaseRunManager.inheritableHandlers this < next_ref s →
  ∃ child s',
    getChild this s = (Normal child, s') ∧
    (next_ref s ≤ child)%nat ∧
    CallbackManager._parentRunId (managers s' !!! child)
      = Some (BaseRunManager.runId this) ∧
    arrays s' !!! CallbackManager.handlers (managers s' !!! child)
      = arrays s !!! BaseRunManager.inheritableHandlers this ∧
    arrays s' !!! CallbackManager.inheritableHandlers (managers s' !!! child)
      = arrays s !!! BaseRunManager.inheritableHandlers this.
Proof.
  intros Hget Hlt.
  assert (Hrun : ∃ s',
    getChild this s = (Normal (S (S (next_ref s))), s') ∧
    managers s' !!! S (S (next_ref s)) =
      CallbackManager.mk (3 + next_ref s) (4 + next_ref s)
        (Some (BaseRunManager.runId this)) ∧
    arrays s' !!! (3 + next_ref s) = arrays s !!! BaseRunManager.inheritableHandlers this ∧
    arrays s' !!! (4 + next_ref s) = arrays s !!! BaseRunManager.inheritableHandlers this).
  { destruct Hget as [-> | ->];
      [apply chain_getChild_run | apply tool_getChild_run]; exact Hlt. }
  destruct Hrun as (s' & Hrun & Hm & Hhs & Hihs).
  exists (S (S (next_ref s))), s'. split; [exact Hrun|].
  rewrite Hm. store_simpl. split; [lia|]. auto.
Qed.

Lemma getChild_inherits_inheritable_handlers_witness :
  ∃ child s',
    CallbackManagerForToolRun_getChild run_akb store_akb = (Normal child, s') ∧
    (next_ref store_akb ≤ child)%nat ∧
    CallbackManager._parentRunId (managers s' !!! child)
      = Some (BaseRunManager.runId run_akb) ∧
    arrays s' !!! CallbackManager.handlers (managers s' !!! child)
      = arrays store_akb !!! BaseRunManager.inheritableHandlers run_akb ∧
    arrays s' !!! CallbackManager.inheritableHandlers (managers s' !!! child)
      = arrays store_akb !!! BaseRunManager.inheritableHandlers run_akb.
Proof.
  apply (getChild_inherits_inheritable_handlers run_akb store_akb
           CallbackManagerForToolRun_getChild).
  - right. reflexivity.
  - vm_compute. lia.
Defined.

(** ** Copies of a dispatcher *)

Lemma handler_copy_run handler s :
  handler_copy handler s = (Normal (with_oid (next_ref s) handler), set_next_ref S s).
Proof. reflexivity. Qed.

Lemma map_M_copy_run hs : ∀ s,
  map_M handler_copy hs s =
  (Normal (copies_from (next_ref s) hs), set_next_ref (λ n, length hs + n) s).
Proof.
  induction hs as [|h hs IH]; intros s.
  - destruct s; reflexivity.
  - cbn [map_M]. unfold bind at 1. rewrite handler_copy_run.
    unfold bind at 1. rewrite IH. destruct s; unfold_setters.
    rewrite Nat.add_succ_r. reflexivity.
Qed.

Lemma for_of_copy_add_run manager inherit hs : ∀ s,
  for_of hs (λ handler, c <- handler_copy handler ;; addHandler manager c inherit) s =
  (Normal tt,
   set_next_ref (λ n, length hs + n)
     (set_arrays (λ A, foldl (add1 (CallbackManager.handlers (managers s !!! manager))
                                (CallbackManager.inheritableHandlers (managers s !!! manager))
                                inherit) A (copies_from (next_ref s) hs)) s)).
Proof.
  induction hs as [|h hs IH]; intros s.
  - destruct s; reflexivity.
  - cbn [for_of]. unfold bind at 1, bind at 1. rewrite handler_copy_run.
    rewrite addHandler_run, IH. destruct s; unfold_setters.
    rewrite Nat.add_succ_r. reflexivity.
Qed.

Lemma copy_run this additionalHandlers inherit s :
  this < next_ref s →
  CallbackManager.handlers (managers s !!! this) < next_ref s →
  copy this additionalHandlers inherit s =
  (Normal (S (S (next_ref s))), after_copy this additionalHandlers inherit s).
Proof.
  destruct s as [A Ms n u e cs ce]. cbn [next_ref managers].
  intros Hthis Hhs. unfold copy.
  unfold bind at 1, read_manager at 1, gets at 1.
  unfold bind at 1. rewrite CallbackManager_new_run.
  unfold bind at 1, read_manager at 1, gets at 1.
  unfold bind at 1, read_array at 1, gets at 1.
  unfold bind at 1. rewrite map_M_copy_run.
  unfold bind at 1. rewrite setHandlers_run.
  unfold bind at 1. rewrite for_of_copy_add_run.
  unfold after_setHandlers, after_copy. store_cbv.
  rewrite !lookup_total_insert_eq. store_cbv.
  rewrite (lookup_total_insert_ne Ms) by lia. store_cbv.
  rewrite !(lookup_total_insert_ne _ _ (CallbackManager.handlers (Ms !!! this)))
    by lia.
  rewrite insert_insert_eq. reflexivity.
Qed.

(** ** [configure] *)

Lemma configure_split consoleCallbackHandler tracingCallbackHandler
    inheritableHandlers localHandlers options :
  configure consoleCallbackHandler tracingCallbackHandler
    inheritableHandlers localHandlers options =
  (callbackManager <- configure_base inheritableHandlers localHandlers ;;
   configure_ambient consoleCallbackHandler tracingCallbackHandler
     callbackManager options).
Proof. reflexivity. Qed.

Lemma copy_total this additionalHandlers inherit s :
  ∃ s', copy this additionalHandlers inherit s = (Normal (S (S (next_ref s))), s') ∧
    LANGCHAIN_TRACING s' = LANGCHAIN_TRACING s.
Proof.
  destruct s as [A Ms n u e cs ce]. unfold copy.
  unfold bind at 1, read_manager at 1, gets at 1.
  unfold bind at 1. rewrite CallbackManager_new_run.
  unfold bind at 1, read_manager at 1, gets at 1.
  unfold bind at 1, read_array at 1, gets at 1.
  unfold bind at 1. rewrite map_M_copy_run.
  unfold bind at 1. rewrite setHandlers_run.
  unfold bind at 1. rewrite for_of_copy_add_run.
  eexists; split; reflexivity.
Qed.

Lemma copy_spec this additionalHandlers inherit s :
  this < next_ref s →
  CallbackManager.handlers (managers s !!! this) < next_ref s →
  let n := next_ref s in
  let hs := arrays s !!! CallbackManager.handlers (managers s !!! this) in
  let N := length hs + S (S (S n)) in
  ∃ s',
    copy this additionalHandlers inherit s = (Normal (S (S n)), s') ∧
    managers s' !!! S (S n) =
      CallbackManager.mk N (S N) (CallbackManager._parentRunId (managers s !!! this)) ∧
    arrays s' !!! N =
      copies_from (S (S (S n))) hs ++ copies_from (S (S N)) additionalHandlers ∧
    arrays s' !!! S N =
      copies_from (S (S (S n))) hs ++
      (if inherit then copies_from (S (S N)) additionalHandlers else []) ∧
    (∀ l, l < n → arrays s' !! l = arrays s !! l) ∧
    (∀ l, l < n → managers s' !! l = managers s !! l) ∧
    next_ref s' = length additionalHandlers + S (S N) ∧
    LANGCHAIN_TRACING s' = LANGCHAIN_TRACING s.
Proof.
  intros Hthis Hhs n hs N. rewrite copy_run by assumption.
  eexists; split; [reflexivity|]. unfold after_copy. store_simpl.
  fold n hs N.
  split; [apply lookup_total_insert_eq|].
  split.
  { rewrite !add_all_handlers by lia.
    rewrite (lookup_total_insert_ne _ (S N) N) by lia.
    rewrite lookup_total_insert_eq. reflexivity. }
  split.
  { rewrite !add_all_inheritable by lia.
    rewrite lookup_total_insert_eq. reflexivity. }
  split.
  { intros l Hl. rewrite !add_all_other by lia.
    rewrite !lookup_insert_ne by lia. reflexivity. }
  split.
  { intros l Hl. rewrite lookup_insert_ne by lia. reflexivity. }
  split; reflexivity.
Qed.

(** C9: [copy] on a dispatcher of the store returns a new dispatcher with the
    parent run of the original.  Its [handlers] array holds the copies of the
    original's [handlers] followed by the copies of [additionalHandlers]; its
    [inheritableHandlers] array holds the copies of all of the original's
    [handlers], whatever the original's [inheritableHandlers] array holds,
    followed by the copies of [additionalHandlers] only when [inherit] is
    set. *)
Theorem copy_marks_every_existing_handler_inheritable (this : nat)
    (additionalHandlers : list BaseCallbackHandler) (inherit : bool) (s : Store) :
  this < next_ref s →
  CallbackManager.handlers (managers s !!! this) < next_ref s →
  ∃ manager s' copies added,
    copy this additionalHandlers inherit s = (Normal manager, s') ∧
    copies = copies_from (3 + next_ref s)
               (arrays s !!! CallbackManager.handlers (managers s !!! this)) ∧
    added = copies_from (2 + (length copies + (3 + next_ref s))) additionalHandlers ∧
    arrays s' !!! CallbackManager.handlers (managers s' !!! manager)
      = copies ++ added ∧
    arrays s' !!! CallbackManager.inheritableHandlers (managers s' !!! manager)
      = copies ++ (if inherit then added else []) ∧
    CallbackManager._parentRunId (managers s' !!! manager)
      = CallbackManager._parentRunId (managers s !!! this).
Proof.
  intros Hthis Hhs.
  destruct (copy_spec this additionalHandlers inherit s Hthis Hhs)
    as (s' & Hrun & Hm & Ha & Hb & _).
  eexists _, s', _, _. split; [exact Hrun|].
  split; [reflexivity|]. split; [reflexivity|].
  rewrite Hm. store_simpl.
  assert (Hlen : ∀ o hs, length (copies_from o hs) = length hs).
  { intros o hs. revert o. induction hs as [|x xs IH]; intros o; cbn; auto. }
  rewrite Hlen. split; [exact Ha|]. split; [exact Hb | reflexivity].
Qed.

Lemma copy_marks_every_existing_handler_inheritable_witness :
  arrays store_akb !!! CallbackManager.inheritableHandlers (managers store_akb !!! 2)
    = [handler_a] ∧
  ∃ manager s' copies added,
    copy 2 [handler_c] false store_akb = (Normal manager, s') ∧
    copies = copies_from (3 + next_ref store_akb)
               (arrays store_akb !!! CallbackManager.handlers (managers store_akb !!! 2)) ∧
    added = copies_from (2 + (length copies + (3 + next_ref store_akb))) [handler_c] ∧
    arrays s' !!! CallbackManager.handlers (managers s' !!! manager)
      = copies ++ added ∧
    arrays s' !!! CallbackManager.inheritableHandlers (managers s' !!! manager)
      = copies ++ (if false then added else []) ∧
    CallbackManager._parentRunId (managers s' !!! manager)
      = CallbackManager._parentRunId (managers store_akb !!! 2).
Proof.
  split; [vm_compute; reflexivity|].
  apply (copy_marks_every_existing_handler_inheritable 2 [handler_c] false store_akb).
  - vm_compute. lia.
  - vm_compute. lia.
Defined.

Lemma ConsoleCallbackHandler_new_run consoleCallbackHandler s :
  ConsoleCallbackHandler_new consoleCallbackHandler s =
  (Normal (with_oid (next_ref s) consoleCallbackHandler), set_next_ref S s).
Proof. reflexivity. Qed.

Lemma cond_addHandler_run (c : bool) manager handler inherit s :
  (if c then addHandler manager handler inherit else ret tt) s =
  (Normal tt,
   set_arrays (λ A, foldl (add1 (CallbackManager.handlers (managers s !!! manager))
                             (CallbackManager.inheritableHandlers (managers s !!! manager))
                             inherit) A (if c then [handler] else [])) s).
Proof. destruct c, s; [rewrite addHandler_run|]; reflexivity. Qed.

Lemma cond_tracer_run (c : bool) tracingCallbackHandler manager s :
  (if c then
     tracer <- getTracingCallbackHandler tracingCallbackHandler ;;
     addHandler manager tracer true
   else ret tt) s =
  (Normal tt,
   set_next_ref
     (λ n, length (if c then [with_oid (next_ref s) tracingCallbackHandler] else []) + n)
     (set_arrays
        (λ A, foldl (add1 (CallbackManager.handlers (managers s !!! manager))
                       (CallbackManager.inheritableHandlers (managers s !!! manager))
                       true) A
                (if c then [with_oid (next_ref s) tracingCallbackHandler] else [])) s)).
Proof.
  destruct c, s; [|reflexivity].
  unfold getTracingCallbackHandler, bind, new_oid, ret. cbv beta iota.
  rewrite addHandler_run. reflexivity.
Qed.

Lemma configure_ambient_run consoleCallbackHandler tracingCallbackHandler
    manager options s :
  configure_ambient consoleCallbackHandler tracingCallbackHandler
    (Some manager) options s =
  (Normal (Some manager),
   after_ambient consoleCallbackHandler tracingCallbackHandler manager options s).
Proof.
  destruct s as [A Ms n u e cs ce].
  unfold configure_ambient, after_ambient, console_part, tracer_part.
  unfold bind at 1, gets at 1. store_cbv.
  destruct (options_verbose options || is_given e) eqn:Hgo; [|reflexivity].
  unfold bind at 1, ret at 1.
  unfold bind at 1. rewrite ConsoleCallbackHandler_new_run.
  unfold bind at 1, read_manager at 1, gets at 1.
  unfold bind at 1, read_array at 1, gets at 1.
  unfold bind at 1. rewrite cond_addHandler_run.
  unfold bind at 1, gets at 1.
  unfold bind at 1, read_manager at 1, gets at 1.
  unfold bind at 1, read_array at 1, gets at 1.
  unfold bind at 1. rewrite cond_tracer_run.
  unfold ret. store_cbv. cbn [name with_oid]. reflexivity.
Qed.

Lemma configure_ambient_none_run consoleCallbackHandler tracingCallbackHandler options s :
  configure_ambient consoleCallbackHandler tracingCallbackHandler None options s =
  if options_verbose options || is_given (LANGCHAIN_TRACING s) then
    (Normal (Some (S (S (next_ref s)))),
     after_ambient consoleCallbackHandler tracingCallbackHandler
       (S (S (next_ref s))) options
       (mkStore (<[S (next_ref s) := []]> (<[next_ref s := []]> (arrays s)))
          (<[S (S (next_ref s)) :=
               CallbackManager.mk (next_ref s) (S (next_ref s)) None]> (managers s))
          (S (S (S (next_ref s)))) (uuids_drawn s) (LANGCHAIN_TRACING s) (calls s)
          (console_error s)))
  else (Normal None, s).
Proof.
  destruct s as [A Ms n u e cs ce].
  unfold configure_ambient, after_ambient, console_part, tracer_part.
  unfold bind at 1, gets at 1. store_cbv.
  destruct (options_verbose options || is_given e) eqn:Hgo; [|reflexivity].
  unfold bind at 1. rewrite CallbackManager_new_run.
  unfold bind at 1. rewrite ConsoleCallbackHandler_new_run.
  unfold bind at 1, read_manager at 1, gets at 1.
  unfold bind at 1, read_array at 1, gets at 1.
  unfold bind at 1. rewrite cond_addHandler_run.
  unfold bind at 1, gets at 1.
  unfold bind at 1, read_manager at 1, gets at 1.
  unfold bind at 1, read_array at 1, gets at 1.
  unfold bind at 1. rewrite cond_tracer_run.
  unfold ret. store_cbv. cbn [name with_oid]. reflexivity.
Qed.

Lemma after_ambient_env consoleCallbackHandler tracingCallbackHandler manager options s :
  LANGCHAIN_TRACING
    (after_ambient consoleCallbackHandler tracingCallbackHandler manager options s)
  = LANGCHAIN_TRACING s.
Proof.
  unfold after_ambient.
  destruct (options_verbose options || is_given (LANGCHAIN_TRACING s)); reflexivity.
Qed.

Lemma configure_base_total inheritableHandlers localHandlers s :
  ∃ r s',
    configure_base inheritableHandlers localHandlers s = (Normal r, s') ∧
    LANGCHAIN_TRACING s' = LANGCHAIN_TRACING s ∧
    (r = None ↔ inheritableHandlers = None ∧ localHandlers = None).
Proof.
  unfold configure_base.
  destruct inheritableHandlers as [[d | hs] |]; cbn [is_given orb].
  - unfold bind at 1, ret at 1. unfold bind at 1.
    destruct (copy_total d (default [] localHandlers) false s) as (s' & -> & Henv).
    eexists _, s'. split; [reflexivity|]. split; [exact Henv|].
    split; [discriminate | intros [? _]; discriminate].
  - unfold bind at 1, bind at 1. rewrite CallbackManager_new_run.
    unfold bind at 1. rewrite setHandlers_run. unfold ret at 1.
    unfold bind at 1.
    match goal with |- context [copy ?d ?l ?i ?s1] =>
      destruct (copy_total d l i s1) as (s' & -> & Henv) end.
    eexists _, s'. split; [reflexivity|]. split; [exact Henv|].
    split; [discriminate | intros [? _]; discriminate].
  - destruct localHandlers as [ls|]; cbn [is_given].
    + unfold bind at 1, bind at 1. rewrite CallbackManager_new_run.
      unfold bind at 1. rewrite setHandlers_run. unfold ret at 1.
      unfold bind at 1.
      match goal with |- context [copy ?d ?l ?i ?s1] =>
        destruct (copy_total d l i s1) as (s' & -> & Henv) end.
      eexists _, s'. split; [reflexivity|]. split; [exact Henv|].
      split; [discriminate | intros [_ ?]; discriminate].
    + eexists _, s. split; [reflexivity|]. split; [reflexivity|]. tauto.
Qed.


Lemma after_ambient_managers consoleCallbackHandler tracingCallbackHandler manager options s :
  managers (after_ambient consoleCallbackHandler tracingCallbackHandler manager options s)
  = managers s.
Proof.
  unfold after_ambient.
  destruct (options_verbose options || is_given (LANGCHAIN_TRACING s)); reflexivity.
Qed.

Lemma after_ambient_next_ref consoleCallbackHandler tracingCallbackHandler manager options s :
  (next_ref s ≤
   next_ref (after_ambient consoleCallbackHandler tracingCallbackHandler manager options s))%nat.
Proof.
  unfold after_ambient.
  destruct (options_verbose options || is_given (LANGCHAIN_TRACING s));
    store_simpl; lia.
Qed.

Lemma after_ambient_other consoleCallbackHandler tracingCallbackHandler manager options s l :
  l ≠ CallbackManager.handlers (managers s !!! manager) →
  l ≠ CallbackManager.inheritableHandlers (managers s !!! manager) →
  arrays (after_ambient consoleCallbackHandler tracingCallbackHandler manager options s) !! l
  = arrays s !! l.
Proof.
  intros Ha Hb. unfold after_ambient.
  destruct (options_verbose options || is_given (LANGCHAIN_TRACING s));
    [|reflexivity].
  store_simpl. rewrite !add_all_other by auto. reflexivity.
Qed.

Lemma after_ambient_handlers consoleCallbackHandler tracingCallbackHandler manager options s a b p :
  managers s !!! manager = CallbackManager.mk a b p →
  a ≠ b →
  arrays (after_ambient consoleCallbackHandler tracingCallbackHandler manager options s) !!! a
  = (arrays s !!! a) ++
    console_part consoleCallbackHandler options (next_ref s) (arrays s !!! a) ++
    tracer_part tracingCallbackHandler (LANGCHAIN_TRACING s) (S (next_ref s))
      ((arrays s !!! a) ++
       console_part consoleCallbackHandler options (next_ref s) (arrays s !!! a)).
Proof.
  intros Hm Hab. unfold after_ambient. rewrite Hm. store_simpl.
  destruct (options_verbose options) eqn:Hv; cbn [orb].
  - store_simpl. rewrite !add_all_handlers by auto. rewrite <- app_assoc.
    reflexivity.
  - destruct (LANGCHAIN_TRACING s) as [v|] eqn:He; cbn [is_given].
    + store_simpl. rewrite !add_all_handlers by auto. rewrite <- app_assoc.
      reflexivity.
    + unfold console_part, tracer_part. rewrite Hv. cbn [andb is_given].
      rewrite !app_nil_r. reflexivity.
Qed.

(** ** [configure] leaves the dispatcher it is given alone *)

(** C10: [configure] called with a dispatcher of the store as its first
    argument returns another dispatcher, and neither the fields of the given
    dispatcher nor any array of the store (its [handlers] and
    [inheritableHandlers] arrays among them) is changed by the call. *)
Theorem configure_leaves_the_given_manager_unchanged
    (consoleCallbackHandler tracingCallbackHandler : BaseCallbackHandler)
    (this : nat) (localHandlers : option (list BaseCallbackHandler))
    (options : option CallbackManagerOptions) (s : Store) :
  this < next_ref s →
  CallbackManager.handlers (managers s !!! this) < next_ref s →
  CallbackManager.inheritableHandlers (managers s !!! this) < next_ref s →
  ∃ manager s',
    configure consoleCallbackHandler tracingCallbackHandler
      (Some (inl this)) localHandlers options s = (Normal (Some manager), s') ∧
    manager ≠ this ∧
    managers s' !!! this = managers s !!! this ∧
    arrays s' !!! CallbackManager.handlers (managers s' !!! this)
      = arrays s !!! CallbackManager.handlers (managers s !!! this) ∧
    arrays s' !!! CallbackManager.inheritableHandlers (managers s' !!! this)
      = arrays s !!! CallbackManager.inheritableHandlers (managers s !!! this) ∧
    (∀ l, l < next_ref s → arrays s' !! l = arrays s !! l).
Proof.
  intros Hthis Ha Hb.
  rewrite configure_split. unfold bind at 1, configure_base.
  cbn [is_given orb]. unfold bind at 1, ret at 1. unfold bind at 1.
  destruct (copy_spec this (default [] localHandlers) false s Hthis Ha)
    as (s1 & -> & Hm & _ & _ & Harr & Hmgr & _).
  unfold ret at 1. rewrite configure_ambient_run.
  eexists _, _. split; [reflexivity|].
  assert (Hframe : ∀ l, l < next_ref s →
            arrays (after_ambient consoleCallbackHandler tracingCallbackHandler
                      (S (S (next_ref s))) options s1) !! l = arrays s !! l).
  { intros l Hl. rewrite after_ambient_other, Harr by (rewrite ?Hm; store_simpl; lia).
    reflexivity. }
  assert (Hsame : managers
            (after_ambient consoleCallbackHandler tracingCallbackHandler
               (S (S (next_ref s))) options s1) !!! this = managers s !!! this).
  { rewrite after_ambient_managers. apply lookup_total_other, Hmgr, Hthis. }
  split; [lia|]. split; [exact Hsame|]. rewrite Hsame.
  split; [apply lookup_total_other, Hframe, Ha|].
  split; [apply lookup_total_other, Hframe, Hb | exact Hframe].
Qed.

Lemma configure_leaves_the_given_manager_unchanged_witness :
  ∃ manager s',
    configure example_console example_tracer (Some (inl 2)) (Some [handler_b])
      (Some (mkOptions (Some true) None)) store_traced = (Normal (Some manager), s') ∧
    manager ≠ 2 ∧
    managers s' !!! 2 = managers store_traced !!! 2 ∧
    arrays s' !!! CallbackManager.handlers (managers s' !!! 2)
      = arrays store_traced !!! CallbackManager.handlers (managers store_traced !!! 2) ∧
    arrays s' !!! CallbackManager.inheritableHandlers (managers s' !!! 2)
      = arrays store_traced
          !!! CallbackManager.inheritableHandlers (managers store_traced !!! 2) ∧
    (∀ l, l < next_ref store_traced → arrays s' !! l = arrays store_traced !! l).
Proof.
  apply (configure_leaves_the_given_manager_unchanged example_console example_tracer 2
           (Some [handler_b]) (Some (mkOptions (Some true) None)) store_traced);
    vm_compute; lia.
Defined.

(** ** Names of the handlers [configure] ends with *)

Lemma names_copies_from hs : ∀ o, names (copies_from o hs) = names hs.
Proof.
  induction hs as [|h hs IH]; intros o; [reflexivity|].
  cbn [copies_from names map]. f_equal. apply IH.
Qed.

Lemma some_named_names n hs : some_named n hs = named n (names hs).
Proof.
  unfold some_named, named, names.
  induction hs as [|h hs IH]; [reflexivity|]. cbn [existsb map]. rewrite IH.
  reflexivity.
Qed.

Lemma names_console_part consoleCallbackHandler options o hs :
  names (console_part consoleCallbackHandler options o hs) =
  if options_verbose options && negb (named (name consoleCallbackHandler) (names hs))
  then [name consoleCallbackHandler] else [].
Proof.
  unfold console_part. rewrite some_named_names.
  destruct (options_verbose options && _); reflexivity.
Qed.

Lemma names_tracer_part tracingCallbackHandler env o hs :
  names (tracer_part tracingCallbackHandler env o hs) =
  if is_given env && negb (named "langchain_tracer" (names hs))
  then [name tracingCallbackHandler] else [].
Proof.
  unfold tracer_part. rewrite some_named_names.
  destruct (is_given env && _); reflexivity.
Qed.

Lemma names_app hs1 hs2 : names (hs1 ++ hs2) = names hs1 ++ names hs2.
Proof. apply map_app. Qed.

Lemma copy_then_ambient consoleCallbackHandler tracingCallbackHandler
    this localHandlers options s :
  this < next_ref s →
  CallbackManager.handlers (managers s !!! this) < next_ref s →
  ∃ s1 s',
    copy this localHandlers false s = (Normal (S (S (next_ref s))), s1) ∧
    configure_ambient consoleCallbackHandler tracingCallbackHandler
      (Some (S (S (next_ref s)))) options s1 = (Normal (Some (S (S (next_ref s)))), s') ∧
    LANGCHAIN_TRACING s' = LANGCHAIN_TRACING s ∧
    S (S (next_ref s)) < next_ref s' ∧
    CallbackManager.handlers (managers s' !!! S (S (next_ref s))) < next_ref s' ∧
    names (arrays s' !!! CallbackManager.handlers (managers s' !!! S (S (next_ref s)))) =
      expected_names consoleCallbackHandler tracingCallbackHandler
        (names (arrays s !!! CallbackManager.handlers (managers s !!! this)))
        (names localHandlers) options (LANGCHAIN_TRACING s).
Proof.
  intros Hthis Ha.
  destruct (copy_spec this localHandlers false s Hthis Ha)
    as (s1 & Hcopy & Hm & Harr & _ & _ & _ & Hnext & Henv).
  exists s1. eexists. split; [exact Hcopy|].
  rewrite configure_ambient_run. split; [reflexivity|].
  pose proof (after_ambient_next_ref consoleCallbackHandler tracingCallbackHandler
                (S (S (next_ref s))) options s1) as Hle.
  rewrite after_ambient_env, after_ambient_managers, Hm. store_simpl.
  split; [exact Henv|]. split; [lia|]. split; [lia|].
  rewrite (after_ambient_handlers _ _ _ _ _ _ _ _ Hm) by lia.
  rewrite Harr, Henv.
  rewrite !names_app, names_tracer_part, names_console_part, !names_app,
    names_console_part, !names_app, !names_copies_from.
  unfold expected_names. cbn zeta. rewrite <- !app_assoc. reflexivity.
Qed.

(** The dispatcher [configure] builds from a list of handlers, before the
    copy. *)
Lemma seeded_manager hs s :
  ∃ s0,
    (manager <- CallbackManager_new None ;;
     setHandlers manager hs true ;;
     ret manager) s = (Normal (S (S (next_ref s))), s0) ∧
    S (S (next_ref s)) < next_ref s0 ∧
    CallbackManager.handlers (managers s0 !!! S (S (next_ref s))) < next_ref s0 ∧
    arrays s0 !!! CallbackManager.handlers (managers s0 !!! S (S (next_ref s))) = hs ∧
    LANGCHAIN_TRACING s0 = LANGCHAIN_TRACING s.
Proof.
  unfold bind at 1. rewrite CallbackManager_new_run.
  unfold bind at 1. rewrite setHandlers_run. unfold ret at 1.
  eexists; split; [reflexivity|].
  unfold after_setHandlers. store_simpl.
  rewrite !lookup_total_insert_eq. store_simpl.
  split; [lia|]. split; [lia|]. split; [|reflexivity].
  rewrite add_all_handlers by lia.
  rewrite lookup_total_insert_ne by lia. rewrite lookup_total_insert_eq.
  reflexivity.
Qed.

Lemma configure_names consoleCallbackHandler tracingCallbackHandler
    inheritableHandlers localHandlers options s :
  source_in_store s inheritableHandlers →
  ∃ r s',
    configure consoleCallbackHandler tracingCallbackHandler
      inheritableHandlers localHandlers options s = (Normal r, s') ∧
    LANGCHAIN_TRACING s' = LANGCHAIN_TRACING s ∧
    (r = None → options_verbose options || is_given (LANGCHAIN_TRACING s) = false) ∧
    ∀ manager, r = Some manager →
      manager < next_ref s' ∧
      CallbackManager.handlers (managers s' !!! manager) < next_ref s' ∧
      names (arrays s' !!! CallbackManager.handlers (managers s' !!! manager)) =
        expected_names consoleCallbackHandler tracingCallbackHandler
          (names (source_handlers s inheritableHandlers))
          (names (default [] localHandlers)) options (LANGCHAIN_TRACING s).
Proof.
  intros Hsrc. rewrite configure_split. unfold bind at 1, configure_base.
  destruct inheritableHandlers as [[d | hs] |]; cbn [is_given orb source_handlers].
  - destruct Hsrc as [Hd Ha]. unfold bind at 1, ret at 1. unfold bind at 1.
    destruct (copy_then_ambient consoleCallbackHandler tracingCallbackHandler
                d (default [] localHandlers) options s Hd Ha)
      as (s1 & s' & -> & Hamb & Henv & Hlt & Hlt' & Hnames).
    unfold ret at 1. rewrite Hamb. eexists _, s'. split; [reflexivity|].
    split; [exact Henv|]. split; [discriminate|]. intros manager [= <-]. auto.
  - unfold bind at 1.
    destruct (seeded_manager hs s) as (s0 & -> & Hd & Ha & Hhs & Henv0).
    unfold bind at 1.
    destruct (copy_then_ambient consoleCallbackHandler tracingCallbackHandler
                _ (default [] localHandlers) options s0 Hd Ha)
      as (s1 & s' & -> & Hamb & Henv & Hlt & Hlt' & Hnames).
    unfold ret at 1. rewrite Hamb. eexists _, s'. split; [reflexivity|].
    split; [congruence|]. split; [discriminate|]. intros manager [= <-].
    rewrite Hhs, Henv0 in Hnames. auto.
  - destruct localHandlers as [ls|]; cbn [is_given].
    + unfold bind at 1.
      destruct (seeded_manager [] s) as (s0 & -> & Hd & Ha & Hhs & Henv0).
      unfold bind at 1.
      destruct (copy_then_ambient consoleCallbackHandler tracingCallbackHandler
                  _ (default [] (Some ls)) options s0 Hd Ha)
        as (s1 & s' & -> & Hamb & Henv & Hlt & Hlt' & Hnames).
      unfold ret at 1. rewrite Hamb. eexists _, s'. split; [reflexivity|].
      split; [congruence|]. split; [discriminate|]. intros manager [= <-].
      rewrite Hhs, Henv0 in Hnames. auto.
    + unfold ret at 1. rewrite configure_ambient_none_run.
      destruct (options_verbose options || is_given (LANGCHAIN_TRACING s)) eqn:Hgo.
      * eexists _, _. split; [reflexivity|].
        split; [rewrite after_ambient_env; reflexivity|].
        split; [discriminate|]. intros manager [= <-].
        match goal with |- context [after_ambient ?c ?t ?m ?o ?s0] =>
          pose proof (after_ambient_next_ref c t m o s0) as Hle;
          assert (Hm : managers s0 !!! m =
                       CallbackManager.mk (next_ref s) (S (next_ref s)) None)
            by apply lookup_total_insert_eq;
          rewrite after_ambient_managers, Hm; store_simpl;
          rewrite (after_ambient_handlers c t m o s0 _ _ _ Hm) by lia
        end.
        store_simpl. store_simpl in Hle.
        split; [lia|]. split; [lia|].
        rewrite lookup_total_insert_ne by lia. rewrite lookup_total_insert_eq.
        rewrite !names_app, names_tracer_part, names_console_part, !names_app,
          names_console_part.
        reflexivity.
      * eexists _, s. split; [reflexivity|]. split; [reflexivity|].
        split; [reflexivity|]. intros manager [=].
Qed.

(** ** One tracer *)

Lemma named_app n ns1 ns2 : named n (ns1 ++ ns2) = named n ns1 || named n ns2.
Proof. apply existsb_app. Qed.

Lemma tracer_count_names hs :
  tracer_count hs = name_count "langchain_tracer" (names hs).
Proof.
  unfold tracer_count, name_count, names.
  induction hs as [|h hs IH]; [reflexivity|].
  cbn [List.filter map]. destruct (bool_decide _); cbn [length]; rewrite IH;
    reflexivity.
Qed.

Lemma name_count_app n ns1 ns2 :
  name_count n (ns1 ++ ns2) = name_count n ns1 + name_count n ns2.
Proof.
  unfold name_count. rewrite List.filter_app, length_app. reflexivity.
Qed.

Lemma name_count_not_named n ns : named n ns = false → name_count n ns = 0.
Proof.
  unfold named, name_count. induction ns as [|x ns IH]; [reflexivity|].
  cbn [existsb List.filter]. destruct (bool_decide (x = n)); cbn [orb];
    [discriminate | exact IH].
Qed.

Lemma name_count_console n c (b : bool) :
  c ≠ n → name_count n (if b then [c] else []) = 0.
Proof.
  intros Hne. destruct b; [|reflexivity].
  unfold name_count. cbn [List.filter]. rewrite bool_decide_eq_false_2 by exact Hne.
  reflexivity.
Qed.

Lemma named_console n c (b : bool) :
  c ≠ n → named n (if b then [c] else []) = false.
Proof.
  intros Hne. destruct b; [|reflexivity].
  unfold named. cbn [existsb]. rewrite bool_decide_eq_false_2 by exact Hne.
  reflexivity.
Qed.

(** C7: with [LANGCHAIN_TRACING] set, [configure] on a dispatcher whose
    [handlers] already hold a handler named "langchain_tracer" adds no
    tracer: the handlers of the result are, by name, those of the dispatcher,
    then the local handlers, then the console handler if [verbose] asks for
    it and none has its name.  Hence, when the tracing handler is named
    "langchain_tracer" and the console handler is not, and none of the
    handlers passed in has that name, two successive [configure] calls, the
    second on the result of the first, each end with exactly one handler of
    that name. *)
Theorem configure_registers_one_tracer
    (consoleCallbackHandler tracingCallbackHandler : BaseCallbackHandler) :
  (∀ this localHandlers options s,
     this < next_ref s →
     CallbackManager.handlers (managers s !!! this) < next_ref s →
     is_given (LANGCHAIN_TRACING s) = true →
     some_named "langchain_tracer"
       (arrays s !!! CallbackManager.handlers (managers s !!! this)) = true →
     ∃ manager s',
       configure consoleCallbackHandler tracingCallbackHandler
         (Some (inl this)) localHandlers options s = (Normal (Some manager), s') ∧
       names (arrays s' !!! CallbackManager.handlers (managers s' !!! manager)) =
         names (arrays s !!! CallbackManager.handlers (managers s !!! this)) ++
         names (default [] localHandlers) ++
         (if options_verbose options &&
             negb (named (name consoleCallbackHandler)
                     (names (arrays s !!! CallbackManager.handlers (managers s !!! this)) ++
                      names (default [] localHandlers)))
          then [name consoleCallbackHandler] else []))
  ∧
  (name tracingCallbackHandler = "langchain_tracer" →
   name consoleCallbackHandler ≠ "langchain_tracer" →
   ∀ inheritableHandlers localHandlers options localHandlers' options' s,
     source_in_store s inheritableHandlers →
     is_given (LANGCHAIN_TRACING s) = true →
     some_named "langchain_tracer" (source_handlers s inheritableHandlers) = false →
     some_named "langchain_tracer" (default [] localHandlers) = false →
     some_named "langchain_tracer" (default [] localHandlers') = false →
     ∃ manager s1 manager' s2,
       configure consoleCallbackHandler tracingCallbackHandler
         inheritableHandlers localHandlers options s = (Normal (Some manager), s1) ∧
       configure consoleCallbackHandler tracingCallbackHandler
         (Some (inl manager)) localHandlers' options' s1 = (Normal (Some manager'), s2) ∧
       tracer_count (arrays s1 !!! CallbackManager.handlers (managers s1 !!! manager)) = 1 ∧
       tracer_count (arrays s2 !!! CallbackManager.handlers (managers s2 !!! manager')) = 1).
Proof.
  split.
  - intros this localHandlers options s Hthis Ha Henv Htr.
    destruct (configure_names consoleCallbackHandler tracingCallbackHandler
                (Some (inl this)) localHandlers options s (conj Hthis Ha))
      as (r & s' & Hrun & _ & Hnone & Hsome).
    destruct r as [manager|].
    2:{ specialize (Hnone eq_refl). rewrite Henv, orb_true_r in Hnone. discriminate. }
    exists manager, s'. split; [exact Hrun|].
    destruct (Hsome manager eq_refl) as (_ & _ & ->).
    unfold expected_names. cbn zeta. cbn [source_handlers].
    rewrite some_named_names in Htr.
    rewrite !named_app, Htr. cbn [orb negb]. rewrite andb_false_r, app_nil_r.
    rewrite <- app_assoc. reflexivity.
  - intros Htname Hcname inheritableHandlers localHandlers options
      localHandlers' options' s Hsrc Henv Hs Hl Hl'.
    rewrite some_named_names in Hs, Hl, Hl'.
    destruct (configure_names consoleCallbackHandler tracingCallbackHandler
                inheritableHandlers localHandlers options s Hsrc)
      as (r & s1 & Hrun & Henv1 & Hnone & Hsome).
    destruct r as [manager|].
    2:{ specialize (Hnone eq_refl). rewrite Henv, orb_true_r in Hnone. discriminate. }
    destruct (Hsome manager eq_refl) as (Hm & Ha & Hnames).
    destruct (configure_names consoleCallbackHandler tracingCallbackHandler
                (Some (inl manager)) localHandlers' options' s1 (conj Hm Ha))
      as (r' & s2 & Hrun' & _ & Hnone' & Hsome').
    rewrite Henv1 in Hnone', Hsome'.
    destruct r' as [manager'|].
    2:{ specialize (Hnone' eq_refl). rewrite Henv, orb_true_r in Hnone'. discriminate. }
    destruct (Hsome' manager' eq_refl) as (_ & _ & Hnames').
    exists manager, s1, manager', s2. split; [exact Hrun|]. split; [exact Hrun'|].
    cbn [source_handlers] in Hnames'. rewrite Hnames in Hnames'.
    assert (Hone : name_count "langchain_tracer"
              (expected_names consoleCallbackHandler tracingCallbackHandler
                 (names (source_handlers s inheritableHandlers))
                 (names (default [] localHandlers)) options (LANGCHAIN_TRACING s)) = 1).
    { unfold expected_names. cbn zeta. rewrite Henv. cbn [andb].
      rewrite !named_app, Hs, Hl, (named_console _ _ _ Hcname). cbn [orb negb].
      rewrite !name_count_app, (name_count_not_named _ _ Hs),
        (name_count_not_named _ _ Hl), (name_count_console _ _ _ Hcname), Htname.
      reflexivity. }
    assert (Hin : named "langchain_tracer"
              (expected_names consoleCallbackHandler tracingCallbackHandler
                 (names (source_handlers s inheritableHandlers))
                 (names (default [] localHandlers)) options (LANGCHAIN_TRACING s)) = true).
    { unfold expected_names. cbn zeta. rewrite Henv. cbn [andb].
      rewrite !named_app, Hs, Hl, (named_console _ _ _ Hcname). cbn [orb negb].
      rewrite Htname. reflexivity. }
    split.
    + rewrite tracer_count_names, Hnames. exact Hone.
    + rewrite tracer_count_names, Hnames'. unfold expected_names at 1. cbn zeta.
      rewrite !named_app, Hin. cbn [orb negb]. rewrite andb_false_r, app_nil_r.
      rewrite !name_count_app, Hone, (name_count_not_named _ _ Hl'),
        (name_count_console _ _ _ Hcname).
      reflexivity.
Qed.

Lemma configure_registers_one_tracer_witness :
  (∃ manager s',
     configure example_console example_tracer
       (Some (inl 2)) (Some [handler_b]) verbose_options store_with_tracer
       = (Normal (Some manager), s') ∧
     names (arrays s' !!! CallbackManager.handlers (managers s' !!! manager)) =
       names (arrays store_with_tracer
                !!! CallbackManager.handlers (managers store_with_tracer !!! 2)) ++
       names (default [] (Some [handler_b])) ++
       (if options_verbose verbose_options &&
           negb (named (name example_console)
                   (names (arrays store_with_tracer
                             !!! CallbackManager.handlers (managers store_with_tracer !!! 2)) ++
                    names (default [] (Some [handler_b]))))
        then [name example_console] else []))
  ∧
  (∃ manager s1 manager' s2,
     configure example_console example_tracer
       (Some (inr [handler_a])) (Some [handler_b]) verbose_options store_traced
       = (Normal (Some manager), s1) ∧
     configure example_console example_tracer
       (Some (inl manager)) None None s1 = (Normal (Some manager'), s2) ∧
     tracer_count (arrays s1 !!! CallbackManager.handlers (managers s1 !!! manager)) = 1 ∧
     tracer_count (arrays s2 !!! CallbackManager.handlers (managers s2 !!! manager')) = 1).
Proof.
  split.
  - apply (proj1 (configure_registers_one_tracer example_console example_tracer)
             2 (Some [handler_b]) verbose_options store_with_tracer).
    + vm_compute. lia.
    + vm_compute. lia.
    + reflexivity.
    + vm_compute. reflexivity.
  - apply (proj2 (configure_registers_one_tracer example_console example_tracer)
             eq_refl ltac:(discriminate)
             (Some (inr [handler_a])) (Some [handler_b]) verbose_options None None
             store_traced).
    + exact I.
    + reflexivity.
    + vm_compute. reflexivity.
    + vm_compute. reflexivity.
    + reflexivity.
Defined.

(** * Further properties of the callback manager *)

(** ** What a dispatch does, exactly *)

Lemma calls_of_notified suppressed ev runId parentRunId hs :
  flat_map (calls_of ev runId parentRunId) (unsuppressed suppressed hs) =
  map (λ h, mkCall h ev runId parentRunId) (notified suppressed ev hs).
Proof.
  unfold unsuppressed, notified, calls_of, has_method.
  induction hs as [|h hs IH]; [reflexivity|].
  cbn [List.filter]. destruct (suppressed h); cbn [negb andb]; [exact IH|].
  cbn [flat_map]. rewrite IH.
  destruct (methods h ev); reflexivity.
Qed.



Example handler_registered_twice_is_called_twice :
  notified ignoreLLM (EvLLMNewToken "tok")
    (arrays store_twice !!! BaseRunManager.handlers run_twice)
  = [handler_b; handler_a; handler_b].
Proof. vm_compute. reflexivity. Qed.

(** ** Suppression on model and tool runs *)



(** ** The start of a run *)



(** ** Removal is by identity *)

Lemma filter_differs_elem handler hs x :
  x ∈ List.filter (differs handler) hs ↔ x ∈ hs ∧ oid x ≠ oid handler.
Proof.
  rewrite !list_elem_of_In, filter_In. unfold differs.
  rewrite negb_true_iff, Nat.eqb_neq. reflexivity.
Qed.

Lemma filter_differs_absent handler hs :
  (∀ x, x ∈ hs → oid x ≠ oid handler) → List.filter (differs handler) hs = hs.
Proof.
  induction hs as [|x xs IH]; intros Hall; [reflexivity|].
  cbn [List.filter]. unfold differs at 1.
  assert (Hx : oid x ≠ oid handler) by (apply Hall; left).
  apply Nat.eqb_neq in Hx. rewrite Hx. cbn [negb]. f_equal.
  apply IH. intros y Hy. apply Hall. right. exact Hy.
Qed.

Lemma removeHandler_contents this handler s :
  owns_two_arrays s this →
  ∃ s',
    removeHandler this handler s = (Normal tt, s') ∧
    owns_two_arrays s' this ∧
    arrays s' !!! CallbackManager.handlers (managers s' !!! this) =
      List.filter (differs handler)
        (arrays s !!! CallbackManager.handlers (managers s !!! this)) ∧
    arrays s' !!! CallbackManager.inheritableHandlers (managers s' !!! this) =
      List.filter (differs handler)
        (arrays s !!! CallbackManager.inheritableHandlers (managers s !!! this)).
Proof.
  intros (Ha & Hb & Hab). rewrite removeHandler_run.
  eexists; split; [reflexivity|].
  unfold owns_two_arrays, after_removeHandler. store_simpl.
  rewrite lookup_total_insert_eq. store_simpl.
  split; [repeat split; lia|].
  rewrite lookup_total_insert_eq.
  rewrite (lookup_total_insert_ne _ (S (next_ref s)) (next_ref s)) by lia.
  rewrite lookup_total_insert_eq.
  rewrite lookup_total_insert_ne by lia.
  split; reflexivity.
Qed.

(** X4: [removeHandler] on a dispatcher that holds two different arrays
    leaves in [handlers] and in [inheritableHandlers] exactly the entries
    whose object is not the handler passed in, in their order: every
    occurrence of that object is gone from both, an equal handler that is
    another object stays, and when the object was not registered the
    contents of both are what they were. *)
Theorem removeHandler_removes_every_occurrence (this : nat)
    (handler : BaseCallbackHandler) (s : Store) :
  owns_two_arrays s this →
  ∃ s',
    removeHandler this handler s = (Normal tt, s') ∧
    let hs := arrays s !!! CallbackManager.handlers (managers s !!! this) in
    let ihs := arrays s !!! CallbackManager.inheritableHandlers (managers s !!! this) in
    let hs' := arrays s' !!! CallbackManager.handlers (managers s' !!! this) in
    let ihs' := arrays s' !!! CallbackManager.inheritableHandlers (managers s' !!! this) in
    hs' = List.filter (differs handler) hs ∧
    ihs' = List.filter (differs handler) ihs ∧
    (∀ x, x ∈ hs' ↔ x ∈ hs ∧ oid x ≠ oid handler) ∧
    (∀ x, x ∈ ihs' ↔ x ∈ ihs ∧ oid x ≠ oid handler) ∧
    ((∀ x, x ∈ hs ++ ihs → oid x ≠ oid handler) → hs' = hs ∧ ihs' = ihs).
Proof.
  intros Hown.
  destruct (removeHandler_contents this handler s Hown) as (s' & Hrun & _ & Hh & Hi).
  exists s'. split; [exact Hrun|]. cbn zeta. rewrite Hh, Hi.
  split; [reflexivity|]. split; [reflexivity|].
  split; [intros x; apply filter_differs_elem|].
  split; [intros x; apply filter_differs_elem|].
  intros Habsent.
  split; apply filter_differs_absent; intros x Hx; apply Habsent;
    rewrite elem_of_app; auto.
Qed.

Lemma removeHandler_removes_every_occurrence_witness :
  ∃ s',
    removeHandler 2 handler_a store_akb = (Normal tt, s') ∧
    let hs := arrays store_akb !!! CallbackManager.handlers (managers store_akb !!! 2) in
    let ihs :=
      arrays store_akb !!! CallbackManager.inheritableHandlers (managers store_akb !!! 2) in
    let hs' := arrays s' !!! CallbackManager.handlers (managers s' !!! 2) in
    let ihs' := arrays s' !!! CallbackManager.inheritableHandlers (managers s' !!! 2) in
    hs' = List.filter (differs handler_a) hs ∧
    ihs' = List.filter (differs handler_a) ihs ∧
    (∀ x, x ∈ hs' ↔ x ∈ hs ∧ oid x ≠ oid handler_a) ∧
    (∀ x, x ∈ ihs' ↔ x ∈ ihs ∧ oid x ≠ oid handler_a) ∧
    ((∀ x, x ∈ hs ++ ihs → oid x ≠ oid handler_a) → hs' = hs ∧ ihs' = ihs).
Proof.
  apply (removeHandler_removes_every_occurrence 2 handler_a store_akb).
  unfold owns_two_arrays. vm_compute. repeat split; lia.
Defined.

Example removeHandler_keeps_a_copy :
  ∃ s1 s2,
    addHandler 2 (with_oid 300 handler_a) true store_akb = (Normal tt, s1) ∧
    removeHandler 2 handler_a s1 = (Normal tt, s2) ∧
    arrays s2 !!! CallbackManager.handlers (managers s2 !!! 2)
      = [handler_k; handler_b; with_oid 300 handler_a].
Proof.
  eexists _, _. split; [vm_compute; reflexivity|].
  split; vm_compute; reflexivity.
Qed.

(** X5: on a dispatcher that holds two different arrays, [addHandler] of an
    object that is not registered followed by [removeHandler] of the same
    object gives back the contents of [handlers] and of
    [inheritableHandlers], whatever the [inherit] argument was. *)
Theorem addHandler_then_removeHandler (this : nat) (handler : BaseCallbackHandler)
    (inherit : bool) (s : Store) :
  owns_two_arrays s this →
  (∀ x, x ∈ arrays s !!! CallbackManager.handlers (managers s !!! this) →
        oid x ≠ oid handler) →
  (∀ x, x ∈ arrays s !!! CallbackManager.inheritableHandlers (managers s !!! this) →
        oid x ≠ oid handler) →
  ∃ s',
    (addHandler this handler inherit ;; removeHandler this handler) s = (Normal tt, s') ∧
    arrays s' !!! CallbackManager.handlers (managers s' !!! this)
      = arrays s !!! CallbackManager.handlers (managers s !!! this) ∧
    arrays s' !!! CallbackManager.inheritableHandlers (managers s' !!! this)
      = arrays s !!! CallbackManager.inheritableHandlers (managers s !!! this).
Proof.
  intros Hown Hh Hi. pose proof Hown as (Ha & Hb & Hab).
  unfold bind. rewrite addHandler_run.
  match goal with |- context [removeHandler this handler ?s1] =>
    destruct (removeHandler_contents this handler s1) as (s' & -> & _ & Hh' & Hi')
  end.
  { unfold owns_two_arrays. store_simpl. unfold set_arrays. store_simpl. auto. }
  exists s'. split; [reflexivity|].
  unfold set_arrays in Hh', Hi'. store_simpl in Hh'. store_simpl in Hi'.
  rewrite Hh', Hi'. rewrite add1_handlers, add1_inheritable by auto.
  assert (Hself : differs handler handler = false).
  { unfold differs. rewrite Nat.eqb_refl. reflexivity. }
  rewrite !List.filter_app.
  rewrite (filter_differs_absent _ _ Hh), (filter_differs_absent _ _ Hi).
  cbn [List.filter]. rewrite Hself.
  destruct inherit; cbn [List.filter]; rewrite ?Hself, !app_nil_r; auto.
Qed.

Lemma addHandler_then_removeHandler_witness :
  ∃ s',
    (addHandler 2 handler_c false ;; removeHandler 2 handler_c) store_akb
      = (Normal tt, s') ∧
    arrays s' !!! CallbackManager.handlers (managers s' !!! 2)
      = arrays store_akb !!! CallbackManager.handlers (managers store_akb !!! 2) ∧
    arrays s' !!! CallbackManager.inheritableHandlers (managers s' !!! 2)
      = arrays store_akb
          !!! CallbackManager.inheritableHandlers (managers store_akb !!! 2).
Proof.
  apply (addHandler_then_removeHandler 2 handler_c false store_akb).
  - unfold owns_two_arrays. vm_compute. repeat split; lia.
  - intros x Hx. vm_compute in Hx.
    repeat (apply elem_of_cons in Hx as [-> | Hx]; [vm_compute; lia|]).
    apply elem_of_nil in Hx. contradiction.
  - intros x Hx. vm_compute in Hx.
    repeat (apply elem_of_cons in Hx as [-> | Hx]; [vm_compute; lia|]).
    apply elem_of_nil in Hx. contradiction.
Defined.

(** ** [setHandlers] starts afresh *)

(** X6: whatever the dispatcher held, after [setHandlers(handlers, inherit)]
    its [handlers] are exactly the handlers passed in and its
    [inheritableHandlers] the same list, or nothing when [inherit] is false;
    its parent run is kept, its two arrays are new ones, and no array that
    was in the store before is written to.  [setHandler(handler)] leaves the
    one handler in both. *)
Theorem setHandlers_replaces_both_collections (this : nat)
    (handlers : list BaseCallbackHandler) (inherit : bool)
    (handler : BaseCallbackHandler) (s : Store) :
  (∃ s',
     setHandlers this handlers inherit s = (Normal tt, s') ∧
     arrays s' !!! CallbackManager.handlers (managers s' !!! this) = handlers ∧
     arrays s' !!! CallbackManager.inheritableHandlers (managers s' !!! this)
       = (if inherit then handlers else []) ∧
     CallbackManager._parentRunId (managers s' !!! this)
       = CallbackManager._parentRunId (managers s !!! this) ∧
     owns_two_arrays s' this ∧
     (next_ref s ≤ CallbackManager.handlers (managers s' !!! this))%nat ∧
     (next_ref s ≤ CallbackManager.inheritableHandlers (managers s' !!! this))%nat ∧
     (∀ l, l < next_ref s → arrays s' !! l = arrays s !! l))
  ∧
  (∃ s',
     setHandler this handler s = (Normal tt, s') ∧
     arrays s' !!! CallbackManager.handlers (managers s' !!! this) = [handler] ∧
     arrays s' !!! CallbackManager.inheritableHandlers (managers s' !!! this) = [handler]).
Proof.
  assert (Hgen : ∀ hs inh, ∃ s',
     setHandlers this hs inh s = (Normal tt, s') ∧
     arrays s' !!! CallbackManager.handlers (managers s' !!! this) = hs ∧
     arrays s' !!! CallbackManager.inheritableHandlers (managers s' !!! this)
       = (if inh then hs else []) ∧
     CallbackManager._parentRunId (managers s' !!! this)
       = CallbackManager._parentRunId (managers s !!! this) ∧
     owns_two_arrays s' this ∧
     (next_ref s ≤ CallbackManager.handlers (managers s' !!! this))%nat ∧
     (next_ref s ≤ CallbackManager.inheritableHandlers (managers s' !!! this))%nat ∧
     (∀ l, l < next_ref s → arrays s' !! l = arrays s !! l)).
  { intros hs inh. rewrite setHandlers_run. eexists; split; [reflexivity|].
    unfold after_setHandlers, owns_two_arrays. store_simpl.
    rewrite !lookup_total_insert_eq. store_simpl.
    rewrite add_all_handlers, add_all_inheritable by lia.
    rewrite (lookup_total_insert_ne _ (S (next_ref s)) (next_ref s)) by lia.
    rewrite !lookup_total_insert_eq.
    repeat split; try lia.
    intros l Hl. rewrite add_all_other by lia.
    rewrite !lookup_insert_ne by lia. reflexivity. }
  split; [apply Hgen|].
  destruct (Hgen [handler] true) as (s' & Hrun & Hh & Hi & _).
  exists s'. auto.
Qed.

(** ** Child dispatchers own their arrays *)

Lemma getChild_spec (getChild : BaseRunManager.t → M nat) (this : BaseRunManager.t)
    (s : Store) :
  is_getChild getChild →
  BaseRunManager.inheritableHandlers this < next_ref s →
  ∃ s',
    getChild this s = (Normal (S (S (next_ref s))), s') ∧
    managers s' !!! S (S (next_ref s)) =
      CallbackManager.mk (3 + next_ref s) (4 + next_ref s)
        (Some (BaseRunManager.runId this)) ∧
    arrays s' !!! (3 + next_ref s) = arrays s !!! BaseRunManager.inheritableHandlers this ∧
    arrays s' !!! (4 + next_ref s) = arrays s !!! BaseRunManager.inheritableHandlers this ∧
    next_ref s' = 5 + next_ref s ∧
    (∀ l, l < next_ref s → arrays s' !! l = arrays s !! l) ∧
    (∀ l, l < next_ref s → managers s' !! l = managers s !! l) ∧
    calls s' = calls s ∧
    uuids_drawn s' = uuids_drawn s.
Proof.
  intros Hget Hlt.
  assert (Hrun : getChild this s =
            (Normal (S (S (next_ref s))),
             after_setHandlers (S (S (next_ref s)))
               (arrays s !!! BaseRunManager.inheritableHandlers this) true
               (mkStore (<[S (next_ref s) := []]> (<[next_ref s := []]> (arrays s)))
                  (<[S (S (next_ref s)) :=
                       CallbackManager.mk (next_ref s) (S (next_ref s))
                         (Some (BaseRunManager.runId this))]> (managers s))
                  (S (S (S (next_ref s)))) (uuids_drawn s) (LANGCHAIN_TRACING s)
                  (calls s) (console_error s)))).
  { destruct Hget as [-> | ->];
      [unfold CallbackManagerForChainRun_getChild
      |unfold CallbackManagerForToolRun_getChild];
      unfold bind at 1; rewrite CallbackManager_new_run;
      unfold bind at 1, read_array at 1, gets at 1;
      unfold bind at 1; rewrite setHandlers_run; unfold ret; store_simpl;
      rewrite !lookup_total_insert_ne by lia; reflexivity. }
  rewrite Hrun. eexists; split; [reflexivity|].
  unfold after_setHandlers. store_simpl.
  rewrite !lookup_total_insert_eq. store_simpl.
  split; [reflexivity|].
  rewrite add_all_handlers, add_all_inheritable by lia.
  rewrite lookup_total_insert_eq.
  rewrite (lookup_total_insert_ne _ (S (S (S (S (next_ref s)))))) by lia.
  rewrite lookup_total_insert_eq.
  split; [reflexivity|]. split; [reflexivity|]. split; [reflexivity|].
  split.
  { intros l Hl. rewrite add_all_other by lia.
    rewrite !lookup_insert_ne by lia. reflexivity. }
  split.
  { intros l Hl. rewrite !lookup_insert_ne by lia. reflexivity. }
  split; reflexivity.
Qed.

(** X7: the dispatcher returned by [getChild] has arrays of its own: any
    sequence of [addHandler], [removeHandler] and [setHandlers] calls on it
    runs to its end and leaves every array that was in the store before
    [getChild], the arrays of the run manager and of its dispatcher among
    them, as it was. *)
Theorem child_registrations_stay_in_the_child (getChild : BaseRunManager.t → M nat)
    (this : BaseRunManager.t) (ops : list Mutation) (s : Store) :
  is_getChild getChild →
  BaseRunManager.inheritableHandlers this < next_ref s →
  ∃ child s1 s2,
    getChild this s = (Normal child, s1) ∧
    for_of ops (mutate child) s1 = (Normal tt, s2) ∧
    ∀ l, l < next_ref s → arrays s2 !! l = arrays s !! l.
Proof.
  intros Hget Hlt.
  destruct (getChild_spec getChild this s Hget Hlt)
    as (s1 & Hrun & Hm & _ & _ & Hnext & Harr & _).
  assert (Hown : owns_two_arrays s1 (S (S (next_ref s)))).
  { unfold owns_two_arrays. rewrite Hm, Hnext. store_simpl. repeat split; lia. }
  destruct (mutations_shared _ ops s1 Hown) as (s2 & Hops & _).
  exists (S (S (next_ref s))), s1, s2. split; [exact Hrun|]. split; [exact Hops|].
  intros l Hl.
  destruct (mutations_detached (S (S (next_ref s))) ops l s1) as (s2' & Hops' & Heq).
  { unfold detached. split; [exact Hown|]. rewrite Hm, Hnext. store_simpl.
    repeat split; lia. }
  rewrite Hops in Hops'. injection Hops' as <-.
  rewrite Heq. apply Harr, Hl.
Qed.

Lemma child_registrations_stay_in_the_child_witness :
  ∃ child s1 s2,
    CallbackManagerForChainRun_getChild run_akb store_akb = (Normal child, s1) ∧
    for_of [AddHandler handler_c true; RemoveHandler handler_a] (mutate child) s1
      = (Normal tt, s2) ∧
    ∀ l, l < next_ref store_akb → arrays s2 !! l = arrays store_akb !! l.
Proof.
  apply (child_registrations_stay_in_the_child CallbackManagerForChainRun_getChild
           run_akb [AddHandler handler_c true; RemoveHandler handler_a] store_akb).
  - left. reflexivity.
  - vm_compute. lia.
Defined.

(** ** Inheritance through nested runs *)

Lemma start_facts uuidv4 this runId op suppressed ev s :
  start_dispatch uuidv4 this runId op suppressed ev →
  ∃ rm s1,
    op s = (Normal rm, s1) ∧
    rm = BaseRunManager.mk (minted uuidv4 runId s)
           (CallbackManager.handlers (managers s !!! this))
           (CallbackManager.inheritableHandlers (managers s !!! this))
           (CallbackManager._parentRunId (managers s !!! this)) ∧
    arrays s1 = arrays s ∧
    managers s1 = managers s ∧
    next_ref s1 = next_ref s.
Proof.
  intros Hop. rewrite (start_dispatch_run _ _ _ _ _ _ Hop s).
  eexists _, _. split; [reflexivity|]. split; [reflexivity|].
  destruct runId; repeat split.
Qed.

(** X8: start a pipeline run on a dispatcher that holds two different
    arrays, start a tool run on the child dispatcher of that run, and take
    the child dispatcher of the tool run.  The tool run has the pipeline run
    as its parent and the grandchild has the tool run as its parent; the tool
    run notifies, and the grandchild holds in both of its arrays, exactly the
    handlers of the first dispatcher's [inheritableHandlers]: handlers that
    were added there with [inherit = false] reach neither. *)
Theorem inheritable_handlers_reach_grandchildren (uuidv4 : nat → RunId) (this : nat)
    (chain : string) (inputs : ChainValues) (tool input : string) (s : Store) :
  owns_two_arrays s this →
  ∃ rm rm2 grandchild s',
    nested_runs uuidv4 this chain inputs tool input s
      = (Normal (rm, rm2, grandchild), s') ∧
    BaseRunManager._parentRunId rm2 = Some (BaseRunManager.runId rm) ∧
    CallbackManager._parentRunId (managers s' !!! grandchild)
      = Some (BaseRunManager.runId rm2) ∧
    arrays s' !!! BaseRunManager.handlers rm2
      = arrays s !!! CallbackManager.inheritableHandlers (managers s !!! this) ∧
    arrays s' !!! CallbackManager.handlers (managers s' !!! grandchild)
      = arrays s !!! CallbackManager.inheritableHandlers (managers s !!! this) ∧
    arrays s' !!! CallbackManager.inheritableHandlers (managers s' !!! grandchild)
      = arrays s !!! CallbackManager.inheritableHandlers (managers s !!! this).
Proof.
  intros (Ha & Hb & Hab). unfold nested_runs.
  destruct (start_facts uuidv4 this None _ _ _ s
              (dispatch_handleChainStart uuidv4 this None chain inputs))
    as (rm & s1 & Hstart & Hrm & Harr1 & Hmgr1 & Hn1).
  unfold bind at 1. rewrite Hstart.
  destruct (getChild_spec CallbackManagerForChainRun_getChild rm s1)
    as (s2 & Hc & Hm2 & Hh2 & Hi2 & Hn2 & Harr2 & _).
  { left; reflexivity. }
  { rewrite Hrm, Hn1. exact Hb. }
  unfold bind at 1. rewrite Hc.
  destruct (start_facts uuidv4 (S (S (next_ref s1))) None _ _ _ s2
              (dispatch_handleToolStart uuidv4 _ None tool input))
    as (rm2 & s3 & Hstart2 & Hrm2 & Harr3 & Hmgr3 & Hn3).
  unfold bind at 1. rewrite Hstart2.
  rewrite Hm2 in Hrm2. store_simpl in Hrm2.
  destruct (getChild_spec CallbackManagerForToolRun_getChild rm2 s3)
    as (s4 & Hg & Hm4 & Hh4 & Hi4 & _ & Harr4 & _).
  { right; reflexivity. }
  { rewrite Hrm2, Hn3, Hn2. cbn. lia. }
  unfold bind at 1. rewrite Hg. unfold ret.
  exists rm, rm2, (S (S (next_ref s3))), s4. split; [reflexivity|].
  rewrite Hm4. store_simpl. rewrite Hh4, Hi4.
  assert (Hsrc : arrays s2 !!! (4 + next_ref s1)
            = arrays s !!! CallbackManager.inheritableHandlers (managers s !!! this)).
  { rewrite Hi2, Harr1, Hrm. reflexivity. }
  assert (Hsrc3 : arrays s2 !!! (3 + next_ref s1)
            = arrays s !!! CallbackManager.inheritableHandlers (managers s !!! this)).
  { rewrite Hh2, Harr1, Hrm. reflexivity. }
  rewrite Harr3, Hrm2.
  cbn [BaseRunManager._parentRunId BaseRunManager.runId BaseRunManager.handlers
       BaseRunManager.inheritableHandlers].
  split; [reflexivity|]. split; [reflexivity|].
  split.
  { apply lookup_total_other with (l := 3 + next_ref s1) in Harr4 as Heq.
    - rewrite Heq, Harr3. exact Hsrc3.
    - rewrite Hn3, Hn2. lia. }
  rewrite Hsrc. auto.
Qed.

Lemma inheritable_handlers_reach_grandchildren_witness :
  ∃ rm rm2 grandchild s',
    nested_runs example_uuidv4 2 "chain" "x" "tool" "y" store_akb
      = (Normal (rm, rm2, grandchild), s') ∧
    BaseRunManager._parentRunId rm2 = Some (BaseRunManager.runId rm) ∧
    CallbackManager._parentRunId (managers s' !!! grandchild)
      = Some (BaseRunManager.runId rm2) ∧
    arrays s' !!! BaseRunManager.handlers rm2
      = arrays store_akb
          !!! CallbackManager.inheritableHandlers (managers store_akb !!! 2) ∧
    arrays s' !!! CallbackManager.handlers (managers s' !!! grandchild)
      = arrays store_akb
          !!! CallbackManager.inheritableHandlers (managers store_akb !!! 2) ∧
    arrays s' !!! CallbackManager.inheritableHandlers (managers s' !!! grandchild)
      = arrays store_akb
          !!! CallbackManager.inheritableHandlers (managers store_akb !!! 2).
Proof.
  apply (inheritable_handlers_reach_grandchildren example_uuidv4 2
           "chain" "x" "tool" "y" store_akb).
  unfold owns_two_arrays. vm_compute. repeat split; lia.
Defined.

(** ** Handlers added after a run has started, and its children *)

Lemma mutations_detached_bound this ops a0 : ∀ s,
  detached s this a0 →
  ∃ s', for_of ops (mutate this) s = (Normal tt, s') ∧
    arrays s' !! a0 = arrays s !! a0 ∧ a0 < next_ref s'.
Proof.
  induction ops as [|op ops IH]; intros s Hd.
  - exists s. split; [reflexivity|]. split; [reflexivity|]. apply Hd.
  - cbn [for_of]. unfold bind.
    destruct (mutate_detached this op s a0 Hd) as (s1 & -> & Hd1 & Heq1).
    destruct (IH s1 Hd1) as (s2 & -> & Heq2 & Hlt).
    exists s2. split; [reflexivity|]. split; [congruence | exact Hlt].
Qed.

Lemma mutations_shared_inheritable this ops : ∀ s,
  owns_two_arrays s this →
  ∃ s', for_of ops (mutate this) s = (Normal tt, s') ∧
    arrays s' !!! CallbackManager.inheritableHandlers (managers s !!! this) =
    (arrays s !!! CallbackManager.inheritableHandlers (managers s !!! this))
      ++ inherited_first ops ∧
    CallbackManager.inheritableHandlers (managers s !!! this) < next_ref s'.
Proof.
  induction ops as [|op ops IH]; intros s Hown.
  - exists s. split; [reflexivity|]. cbn. rewrite app_nil_r.
    split; [reflexivity | apply Hown].
  - cbn [for_of]. unfold bind.
    pose proof Hown as (Ha & Hb & Hab).
    destruct op as [h inherit | h | hs inherit]; cbn [mutate].
    + rewrite addHandler_run.
      match goal with |- context [for_of ops _ ?s1] =>
        destruct (IH s1) as (s2 & -> & Heq2 & Hlt2) end.
      { unfold owns_two_arrays. cbn. auto. }
      exists s2. split; [reflexivity|]. cbn in Heq2, Hlt2. rewrite Heq2.
      rewrite add1_inheritable by auto.
      split; [|exact Hlt2].
      destruct inherit; cbn [inherited_first]; rewrite <- app_assoc; reflexivity.
    + rewrite removeHandler_run.
      destruct (mutations_detached_bound this ops
                  (CallbackManager.inheritableHandlers (managers s !!! this))
                  (after_removeHandler this h s)) as (s2 & -> & Heq2 & Hlt2).
      { unfold detached, owns_two_arrays, after_removeHandler. cbn.
        rewrite lookup_total_insert_eq. cbn. repeat split; lia. }
      exists s2. split; [reflexivity|]. cbn [inherited_first]. rewrite app_nil_r.
      split; [|exact Hlt2].
      apply lookup_total_other. rewrite Heq2.
      unfold after_removeHandler. cbn. rewrite !lookup_insert_ne by lia.
      reflexivity.
    + rewrite setHandlers_run.
      destruct (mutations_detached_bound this ops
                  (CallbackManager.inheritableHandlers (managers s !!! this))
                  (after_setHandlers this hs inherit s)) as (s2 & -> & Heq2 & Hlt2).
      { unfold detached, owns_two_arrays, after_setHandlers. cbn.
        rewrite lookup_total_insert_eq. cbn. repeat split; lia. }
      exists s2. split; [reflexivity|]. cbn [inherited_first]. rewrite app_nil_r.
      split; [|exact Hlt2].
      apply lookup_total_other. rewrite Heq2.
      unfold after_setHandlers. cbn. rewrite add_all_other by lia.
      rewrite !lookup_insert_ne by lia. reflexivity.
Qed.

(** X9: a run manager shares the dispatcher's [inheritableHandlers] array
    too.  Start a run on a dispatcher that holds two different arrays, apply
    any sequence of registration calls to the dispatcher, then call
    [getChild] on the run manager: the child holds the handlers that were
    inheritable when the run started, followed by those that [addHandler]
    added with [inherit = true] before the first [removeHandler] or
    [setHandlers] of the sequence. *)
Theorem children_inherit_handlers_added_later (uuidv4 : nat → RunId) (this : nat)
    (runId : option RunId) (start : M BaseRunManager.t)
    (suppressed : BaseCallbackHandler → bool) (ev : Event)
    (getChild : BaseRunManager.t → M nat) (ops : list Mutation) (s : Store) :
  start_dispatch uuidv4 this runId start suppressed ev →
  is_getChild getChild →
  owns_two_arrays s this →
  ∃ rm s1 s2 child s3,
    start s = (Normal rm, s1) ∧
    for_of ops (mutate this) s1 = (Normal tt, s2) ∧
    getChild rm s2 = (Normal child, s3) ∧
    arrays s3 !!! CallbackManager.handlers (managers s3 !!! child) =
      (arrays s !!! CallbackManager.inheritableHandlers (managers s !!! this))
        ++ inherited_first ops ∧
    arrays s3 !!! CallbackManager.inheritableHandlers (managers s3 !!! child) =
      (arrays s !!! CallbackManager.inheritableHandlers (managers s !!! this))
        ++ inherited_first ops.
Proof.
  intros Hstart Hget Hown.
  destruct (start_facts uuidv4 this runId _ _ _ s Hstart)
    as (rm & s1 & Hrun & Hrm & Harr1 & Hmgr1 & Hn1).
  assert (Hown1 : owns_two_arrays s1 this).
  { unfold owns_two_arrays. rewrite Hmgr1, Hn1. exact Hown. }
  destruct (mutations_shared_inheritable this ops s1 Hown1) as (s2 & Hops & Heq & Hlt).
  rewrite Hmgr1, Harr1 in Heq. rewrite Hmgr1 in Hlt.
  destruct (getChild_spec getChild rm s2 Hget) as (s3 & Hc & Hm3 & Hh3 & Hi3 & _).
  { rewrite Hrm. exact Hlt. }
  exists rm, s1, s2, (S (S (next_ref s2))), s3.
  split; [exact Hrun|]. split; [exact Hops|]. split; [exact Hc|].
  rewrite Hm3. store_simpl. rewrite Hh3, Hi3, Hrm.
  cbn [BaseRunManager.inheritableHandlers]. rewrite Heq. auto.
Qed.

Lemma children_inherit_handlers_added_later_witness :
  ∃ rm s1 s2 child s3,
    handleToolStart example_uuidv4 2 "tool" "y" None store_akb = (Normal rm, s1) ∧
    for_of [AddHandler handler_c true; AddHandler handler_g false;
            SetHandlers [] true; AddHandler handler_l true] (mutate 2) s1
      = (Normal tt, s2) ∧
    CallbackManagerForToolRun_getChild rm s2 = (Normal child, s3) ∧
    arrays s3 !!! CallbackManager.handlers (managers s3 !!! child) =
      (arrays store_akb !!! CallbackManager.inheritableHandlers (managers store_akb !!! 2))
        ++ inherited_first [AddHandler handler_c true; AddHandler handler_g false;
                            SetHandlers [] true; AddHandler handler_l true] ∧
    arrays s3 !!! CallbackManager.inheritableHandlers (managers s3 !!! child) =
      (arrays store_akb !!! CallbackManager.inheritableHandlers (managers store_akb !!! 2))
        ++ inherited_first [AddHandler handler_c true; AddHandler handler_g false;
                            SetHandlers [] true; AddHandler handler_l true].
Proof.
  apply (children_inherit_handlers_added_later example_uuidv4 2 None _ ignoreAgent
           (EvToolStart "tool" "y") CallbackManagerForToolRun_getChild).
  - constructor.
  - right. reflexivity.
  - unfold owns_two_arrays. vm_compute. repeat split; lia.
Defined.

(** ** The copy is made of new objects *)

Lemma oids_copies_from hs : ∀ o, oid <$> copies_from o hs = seq o (length hs).
Proof.
  induction hs as [|h hs IH]; intros o; [reflexivity|].
  cbn [copies_from fmap list_fmap length seq]. f_equal. apply IH.
Qed.

Lemma copies_from_same_fields hs : ∀ o,
  Forall2 (λ h c, c = with_oid (oid c) h) hs (copies_from o hs).
Proof.
  induction hs as [|h hs IH]; intros o; cbn [copies_from]; constructor;
    [reflexivity | apply IH].
Qed.

Lemma oid_copies_from_bounds hs o c :
  c ∈ copies_from o hs → (o ≤ oid c)%nat ∧ oid c < o + length hs.
Proof.
  intros Hc. apply (list_elem_of_fmap_2 oid) in Hc.
  rewrite oids_copies_from, elem_of_seq in Hc. lia.
Qed.



Example removeHandler_of_an_original_on_the_copy :
  (manager <- copy 4 [] true ;;
   removeHandler manager (example_handler 0 "first" false false false false) ;;
   m <- read_manager manager ;;
   hs <- read_array (CallbackManager.handlers m) ;;
   ret (names hs, oid <$> hs)) store_wf
  = (Normal (["first"; "second"], [8; 9]),
     ((manager <- copy 4 [] true ;;
       removeHandler manager (example_handler 0 "first" false false false false))
        store_wf).2).
Proof. vm_compute. reflexivity. Qed.

(** ** Which handlers [configure] makes inheritable *)

Lemma after_ambient_inheritable consoleCallbackHandler tracingCallbackHandler
    manager options s a b p :
  managers s !!! manager = CallbackManager.mk a b p →
  a ≠ b →
  arrays (after_ambient consoleCallbackHandler tracingCallbackHandler manager options s) !!! b
  = (arrays s !!! b) ++
    tracer_part tracingCallbackHandler (LANGCHAIN_TRACING s) (S (next_ref s))
      ((arrays s !!! a) ++
       console_part consoleCallbackHandler options (next_ref s) (arrays s !!! a)).
Proof.
  intros Hm Hab. unfold after_ambient. rewrite Hm. store_simpl.
  destruct (options_verbose options) eqn:Hv; cbn [orb].
  - store_simpl. rewrite !add_all_inheritable, add_all_handlers by auto.
    rewrite app_nil_r. reflexivity.
  - destruct (LANGCHAIN_TRACING s) as [v|] eqn:He; cbn [is_given].
    + store_simpl. rewrite !add_all_inheritable, add_all_handlers by auto.
      rewrite app_nil_r. reflexivity.
    + unfold tracer_part. cbn [andb is_given]. rewrite app_nil_r. reflexivity.
Qed.

Lemma copy_then_ambient_inheritable consoleCallbackHandler tracingCallbackHandler
    this localHandlers options s :
  this < next_ref s →
  CallbackManager.handlers (managers s !!! this) < next_ref s →
  ∃ s1 s',
    copy this localHandlers false s = (Normal (S (S (next_ref s))), s1) ∧
    configure_ambient consoleCallbackHandler tracingCallbackHandler
      (Some (S (S (next_ref s)))) options s1 = (Normal (Some (S (S (next_ref s)))), s') ∧
    names (arrays s'
             !!! CallbackManager.inheritableHandlers (managers s' !!! S (S (next_ref s)))) =
      expected_inheritable_names consoleCallbackHandler tracingCallbackHandler
        (names (arrays s !!! CallbackManager.handlers (managers s !!! this)))
        (names localHandlers) options (LANGCHAIN_TRACING s).
Proof.
  intros Hthis Ha.
  destruct (copy_spec this localHandlers false s Hthis Ha)
    as (s1 & Hcopy & Hm & Harr & Hinh & _ & _ & Hnext & Henv).
  exists s1. eexists. split; [exact Hcopy|].
  rewrite configure_ambient_run. split; [reflexivity|].
  rewrite after_ambient_managers, Hm. store_simpl.
  rewrite (after_ambient_inheritable _ _ _ _ _ _ _ _ Hm) by lia.
  rewrite Harr, Hinh, Henv, app_nil_r.
  rewrite !names_app, names_tracer_part, !names_app, names_console_part, !names_app,
    !names_copies_from.
  reflexivity.
Qed.

Lemma configure_inheritable_names consoleCallbackHandler tracingCallbackHandler
    inheritableHandlers localHandlers options s :
  source_in_store s inheritableHandlers →
  ∃ r s',
    configure consoleCallbackHandler tracingCallbackHandler
      inheritableHandlers localHandlers options s = (Normal r, s') ∧
    ∀ manager, r = Some manager →
      names (arrays s' !!! CallbackManager.inheritableHandlers (managers s' !!! manager)) =
        expected_inheritable_names consoleCallbackHandler tracingCallbackHandler
          (names (source_handlers s inheritableHandlers))
          (names (default [] localHandlers)) options (LANGCHAIN_TRACING s).
Proof.
  intros Hsrc. rewrite configure_split. unfold bind at 1, configure_base.
  destruct inheritableHandlers as [[d | hs] |]; cbn [is_given orb source_handlers].
  - destruct Hsrc as [Hd Ha]. unfold bind at 1, ret at 1. unfold bind at 1.
    destruct (copy_then_ambient_inheritable consoleCallbackHandler tracingCallbackHandler
                d (default [] localHandlers) options s Hd Ha)
      as (s1 & s' & -> & Hamb & Hnames).
    unfold ret at 1. rewrite Hamb. eexists _, s'. split; [reflexivity|].
    intros manager [= <-]. exact Hnames.
  - unfold bind at 1.
    destruct (seeded_manager hs s) as (s0 & -> & Hd & Ha & Hhs & Henv0).
    unfold bind at 1.
    destruct (copy_then_ambient_inheritable consoleCallbackHandler tracingCallbackHandler
                _ (default [] localHandlers) options s0 Hd Ha)
      as (s1 & s' & -> & Hamb & Hnames).
    unfold ret at 1. rewrite Hamb. eexists _, s'. split; [reflexivity|].
    intros manager [= <-]. rewrite Hhs, Henv0 in Hnames. exact Hnames.
  - destruct localHandlers as [ls|]; cbn [is_given].
    + unfold bind at 1.
      destruct (seeded_manager [] s) as (s0 & -> & Hd & Ha & Hhs & Henv0).
      unfold bind at 1.
      destruct (copy_then_ambient_inheritable consoleCallbackHandler tracingCallbackHandler
                  _ (default [] (Some ls)) options s0 Hd Ha)
        as (s1 & s' & -> & Hamb & Hnames).
      unfold ret at 1. rewrite Hamb. eexists _, s'. split; [reflexivity|].
      intros manager [= <-]. rewrite Hhs, Henv0 in Hnames. exact Hnames.
    + unfold ret at 1. rewrite configure_ambient_none_run.
      destruct (options_verbose options || is_given (LANGCHAIN_TRACING s)) eqn:Hgo.
      * eexists _, _. split; [reflexivity|]. intros manager [= <-].
        match goal with |- context [after_ambient ?c ?t ?m ?o ?s0] =>
          assert (Hm : managers s0 !!! m =
                       CallbackManager.mk (next_ref s) (S (next_ref s)) None)
            by apply lookup_total_insert_eq;
          rewrite after_ambient_managers, Hm; store_simpl;
          rewrite (after_ambient_inheritable c t m o s0 _ _ _ Hm) by lia
        end.
        store_simpl.
        rewrite lookup_total_insert_eq.
        rewrite lookup_total_insert_ne by lia. rewrite lookup_total_insert_eq.
        rewrite !names_app, names_tracer_part, !names_app, names_console_part.
        reflexivity.
      * eexists _, s. split; [reflexivity|]. intros manager [=].
Qed.

(** X11: when [configure] returns a dispatcher, its handlers are, by name,
    the handlers of the inheritable source, the local handlers, the console
    handler if it was added and the tracer if it was added, in this order;
    its inheritable handlers are the handlers of the source and the tracer.
    So local handlers and the console handler are never inheritable, and
    every handler of a dispatcher passed as the source is, also one that was
    local there. *)
Theorem configure_inheritable_handlers
    (consoleCallbackHandler tracingCallbackHandler : BaseCallbackHandler)
    (inheritableHandlers : option (nat + list BaseCallbackHandler))
    (localHandlers : option (list BaseCallbackHandler))
    (options : option CallbackManagerOptions) (s : Store) :
  source_in_store s inheritableHandlers →
  ∃ r s',
    configure consoleCallbackHandler tracingCallbackHandler
      inheritableHandlers localHandlers options s = (Normal r, s') ∧
    ∀ manager, r = Some manager →
      ∃ console tracer,
        (console = [] ∨ console = [name consoleCallbackHandler]) ∧
        (tracer = [] ∨ tracer = [name tracingCallbackHandler]) ∧
        names (arrays s' !!! CallbackManager.handlers (managers s' !!! manager)) =
          names (source_handlers s inheritableHandlers) ++
          names (default [] localHandlers) ++ console ++ tracer ∧
        names (arrays s' !!! CallbackManager.inheritableHandlers (managers s' !!! manager)) =
          names (source_handlers s inheritableHandlers) ++ tracer.
Proof.
  intros Hsrc.
  destruct (configure_names consoleCallbackHandler tracingCallbackHandler
              inheritableHandlers localHandlers options s Hsrc)
    as (r & s' & Hrun & _ & _ & Hh).
  destruct (configure_inheritable_names consoleCallbackHandler tracingCallbackHandler
              inheritableHandlers localHandlers options s Hsrc)
    as (r' & s'' & Hrun' & Hi).
  rewrite Hrun in Hrun'. injection Hrun' as <- <-.
  exists r, s'. split; [exact Hrun|]. intros manager Hr.
  destruct (Hh manager Hr) as (_ & _ & Hnames). specialize (Hi manager Hr).
  rewrite Hnames, Hi. unfold expected_names, expected_inheritable_names. cbn zeta.
  eexists _, _. split; [|split; [|split; [rewrite <- app_assoc; reflexivity | reflexivity]]].
  - destruct (options_verbose options && _); auto.
  - destruct (is_given (LANGCHAIN_TRACING s) && _); auto.
Qed.

Lemma configure_inheritable_handlers_witness :
  ∃ r s',
    configure example_console example_tracer
      (Some (inl 4)) (Some [handler_b]) verbose_options store_wf = (Normal r, s') ∧
    ∀ manager, r = Some manager →
      ∃ console tracer,
        (console = [] ∨ console = [name example_console]) ∧
        (tracer = [] ∨ tracer = [name example_tracer]) ∧
        names (arrays s' !!! CallbackManager.handlers (managers s' !!! manager)) =
          names (source_handlers store_wf (Some (inl 4))) ++
          names (default [] (Some [handler_b])) ++ console ++ tracer ∧
        names (arrays s' !!! CallbackManager.inheritableHandlers (managers s' !!! manager)) =
          names (source_handlers store_wf (Some (inl 4))) ++ tracer.
Proof.
  apply (configure_inheritable_handlers example_console example_tracer
           (Some (inl 4)) (Some [handler_b]) verbose_options store_wf).
  split; vm_compute; lia.
Defined.

Example configure_makes_local_handlers_of_the_source_inheritable :
  (r <- configure example_console example_tracer
          (Some (inl 4)) (Some [handler_b]) verbose_options ;;
   match r with
   | Some d =>
       m <- read_manager d ;;
       hs <- read_array (CallbackManager.handlers m) ;;
       ihs <- read_array (CallbackManager.inheritableHandlers m) ;;
       ret (names hs, names ihs)
   | None => ret ([], [])
   end) store_wf
  = (Normal (["first"; "second"; "b"; "console_callback_handler"], ["first"; "second"]),
     (configure example_console example_tracer
        (Some (inl 4)) (Some [handler_b]) verbose_options store_wf).2).
Proof. vm_compute. reflexivity. Qed.

(** ** One console handler *)

(** X12: when the tracing handler does not have the console handler's name
    and no handler passed in has it, [configure] with [verbose] requested
    ends with exactly one handler of that name, and a second [configure] on
    its result, with [verbose] or without, still ends with exactly one. *)
Theorem configure_registers_one_console_handler
    (consoleCallbackHandler tracingCallbackHandler : BaseCallbackHandler)
    (inheritableHandlers : option (nat + list BaseCallbackHandler))
    (localHandlers localHandlers' : option (list BaseCallbackHandler))
    (options options' : option CallbackManagerOptions) (s : Store) :
  name tracingCallbackHandler ≠ name consoleCallbackHandler →
  source_in_store s inheritableHandlers →
  options_verbose options = true →
  some_named (name consoleCallbackHandler) (source_handlers s inheritableHandlers) = false →
  some_named (name consoleCallbackHandler) (default [] localHandlers) = false →
  some_named (name consoleCallbackHandler) (default [] localHandlers') = false →
  ∃ manager s1 manager' s2,
    configure consoleCallbackHandler tracingCallbackHandler
      inheritableHandlers localHandlers options s = (Normal (Some manager), s1) ∧
    configure consoleCallbackHandler tracingCallbackHandler
      (Some (inl manager)) localHandlers' options' s1 = (Normal (Some manager'), s2) ∧
    name_count (name consoleCallbackHandler)
      (names (arrays s1 !!! CallbackManager.handlers (managers s1 !!! manager))) = 1 ∧
    name_count (name consoleCallbackHandler)
      (names (arrays s2 !!! CallbackManager.handlers (managers s2 !!! manager'))) = 1.
Proof.
  intros Htc Hsrc Hv Hs Hl Hl'.
  rewrite some_named_names in Hs, Hl, Hl'.
  destruct (configure_names consoleCallbackHandler tracingCallbackHandler
              inheritableHandlers localHandlers options s Hsrc)
    as (r & s1 & Hrun & Henv1 & Hnone & Hsome).
  destruct r as [manager|].
  2:{ specialize (Hnone eq_refl). rewrite Hv in Hnone. discriminate. }
  destruct (Hsome manager eq_refl) as (Hm & Ha & Hnames).
  destruct (configure_names consoleCallbackHandler tracingCallbackHandler
              (Some (inl manager)) localHandlers' options' s1 (conj Hm Ha))
    as (r' & s2 & Hrun' & _ & Hnone' & Hsome').
  assert (Hone : name_count (name consoleCallbackHandler)
            (expected_names consoleCallbackHandler tracingCallbackHandler
               (names (source_handlers s inheritableHandlers))
               (names (default [] localHandlers)) options (LANGCHAIN_TRACING s)) = 1).
  { unfold expected_names. cbn zeta. rewrite Hv. cbn [andb].
    rewrite !named_app, Hs, Hl. cbn [orb negb].
    rewrite !name_count_app, (name_count_not_named _ _ Hs),
      (name_count_not_named _ _ Hl), (name_count_console _ _ _ Htc).
    unfold name_count. cbn [List.filter].
    rewrite bool_decide_eq_true_2 by reflexivity. reflexivity. }
  assert (Hin : named (name consoleCallbackHandler)
            (expected_names consoleCallbackHandler tracingCallbackHandler
               (names (source_handlers s inheritableHandlers))
               (names (default [] localHandlers)) options (LANGCHAIN_TRACING s)) = true).
  { unfold expected_names. cbn zeta. rewrite Hv. cbn [andb].
    rewrite !named_app, Hs, Hl. cbn [orb negb].
    unfold named at 1. cbn [existsb].
    rewrite bool_decide_eq_true_2 by reflexivity. reflexivity. }
  destruct r' as [manager'|].
  2:{ exfalso.
      destruct (configure_base_total (Some (inl manager)) localHandlers' s1)
        as (r0 & s0 & Hb & _ & Hr0).
      rewrite configure_split in Hrun'. unfold bind at 1 in Hrun'.
      rewrite Hb in Hrun'. destruct r0 as [m0|].
      - rewrite configure_ambient_run in Hrun'. discriminate.
      - destruct Hr0 as [Hr0 _]. destruct (Hr0 eq_refl). discriminate. }
  destruct (Hsome' manager' eq_refl) as (_ & _ & Hnames').
  exists manager, s1, manager', s2. split; [exact Hrun|]. split; [exact Hrun'|].
  cbn [source_handlers] in Hnames'. rewrite Hnames in Hnames'.
  split; [rewrite Hnames; exact Hone|].
  rewrite Hnames'. unfold expected_names at 1. cbn zeta.
  rewrite !named_app, Hin. cbn [orb negb]. rewrite andb_false_r.
  rewrite !name_count_app, Hone, (name_count_not_named _ _ Hl'),
    (name_count_console _ _ _ Htc).
  reflexivity.
Qed.

Lemma configure_registers_one_console_handler_witness :
  ∃ manager s1 manager' s2,
    configure example_console example_tracer
      (Some (inl 4)) (Some [handler_b]) verbose_options store_wf
      = (Normal (Some manager), s1) ∧
    configure example_console example_tracer
      (Some (inl manager)) None verbose_options s1 = (Normal (Some manager'), s2) ∧
    name_count (name example_console)
      (names (arrays s1 !!! CallbackManager.handlers (managers s1 !!! manager))) = 1 ∧
    name_count (name example_console)
      (names (arrays s2 !!! CallbackManager.handlers (managers s2 !!! manager'))) = 1.
Proof.
  apply (configure_registers_one_console_handler example_console example_tracer
           (Some (inl 4)) (Some [handler_b]) None verbose_options verbose_options
           store_wf).
  - discriminate.
  - split; vm_compute; lia.
  - reflexivity.
  - vm_compute. reflexivity.
  - vm_compute. reflexivity.
  - reflexivity.
Defined.

(** ** [fromHandlers] *)

(** X13: [fromHandlers] returns a new dispatcher without a parent run whose
    only handler is one new object, registered as inheritable: its name is
    the next identifier of [uuidv4], its methods are those of the argument
    (and, where the argument has none, what the base class provides), and
    its flags are those of the base class.  Nothing is called, and the
    arrays and dispatchers that were there are left as they are. *)
Theorem fromHandlers_registers_one_handler (uuidv4 : nat → RunId)
    (base : BaseCallbackHandler) (handlers : Event → Behaviour) (s : Store) :
  ∃ manager handler s',
    fromHandlers uuidv4 base handlers s = (Normal manager, s') ∧
    (next_ref s ≤ manager)%nat ∧ (next_ref s ≤ oid handler)%nat ∧
    CallbackManager._parentRunId (managers s' !!! manager) = None ∧
    arrays s' !!! CallbackManager.handlers (managers s' !!! manager) = [handler] ∧
    arrays s' !!! CallbackManager.inheritableHandlers (managers s' !!! manager)
      = [handler] ∧
    name handler = uuidv4 (uuids_drawn s) ∧
    uuids_drawn s' = S (uuids_drawn s) ∧
    (∀ ev, handlers ev ≠ Undefined → methods handler ev = handlers ev) ∧
    (∀ ev, handlers ev = Undefined → methods handler ev = methods base ev) ∧
    (ignoreLLM handler, ignoreChain handler, ignoreAgent handler)
      = (ignoreLLM base, ignoreChain base, ignoreAgent base) ∧
    calls s' = calls s ∧
    (∀ l, (l < next_ref s)%nat →
       arrays s' !! l = arrays s !! l ∧ managers s' !! l = managers s !! l).
Proof.
  unfold fromHandlers. unfold bind at 1. rewrite CallbackManager_new_run.
  unfold Handler_new, new_oid, bind at 1 2 3, ret at 1. store_simpl.
  unfold bind at 1. rewrite addHandler_run. unfold ret.
  destruct s as [A Ms n u e cs ce]. store_cbv.
  rewrite lookup_total_insert_eq. store_simpl.
  eexists _, _, _. split; [reflexivity|]. store_simpl.
  rewrite lookup_total_insert_eq. store_simpl.
  rewrite add1_handlers, add1_inheritable by lia.
  rewrite lookup_total_insert_eq.
  rewrite lookup_total_insert_ne, lookup_total_insert_eq by lia.
  cbn [oid name methods ignoreLLM ignoreChain ignoreAgent app].
  repeat split; cbn [oid methods]; try lia.
  - intros ev Hev. now destruct (handlers ev).
  - intros ev ->. reflexivity.
  - rewrite add1_other, !lookup_insert_ne by lia. reflexivity.
  - rewrite lookup_insert_ne by lia. reflexivity.
Qed.

Example fromHandlers_then_start :
  ∃ manager s1 rm s2,
    fromHandlers example_uuidv4 bare_handler only_handleLLMStart empty_store
      = (Normal manager, s1) ∧
    handleLLMStart example_uuidv4 manager "llm" ["p"] None s1 = (Normal rm, s2) ∧
    map event (calls s2) = [EvLLMStart "llm" ["p"]] ∧
    map (λ c, name (callee c)) (calls s2) = [example_uuidv4 0] ∧
    BaseRunManager.runId rm = example_uuidv4 1.
Proof. eexists _, _, _, _. repeat split; vm_compute; reflexivity. Qed.

(** * Properties of the chat model *)

(** ** Roles and message types *)

Lemma messageTypeToOpenAIRole_Normal type r :
  OpenAI.messageTypeToOpenAIRole type = Normal r →
  (type = "system" ∧ r = "system") ∨ (type = "ai" ∧ r = "assistant") ∨
  (type = "human" ∧ r = "user").
Proof.
  unfold OpenAI.messageTypeToOpenAIRole.
  destruct (String.eqb_spec type "system") as [->|_]; [intros [= <-]; auto|].
  destruct (String.eqb_spec type "ai") as [->|_]; [intros [= <-]; auto|].
  destruct (String.eqb_spec type "human") as [->|_]; [intros [= <-]; auto|].
  discriminate.
Qed.

Lemma messageTypeToOpenAIRole_getType m :
  OpenAI.messageTypeToOpenAIRole (OpenAI._getType m) =
  if is_generic m then Throw "Unknown message type: generic"
  else Normal (match OpenAI.class m with
               | OpenAI.HumanChatMessage => "user"
               | OpenAI.AIChatMessage => "assistant"
               | _ => "system"
               end).
Proof. unfold OpenAI._getType, is_generic. destruct (OpenAI.class m); reflexivity. Qed.

(** X14: the two conversions between message types and roles are inverse
    to each other on the three roles the endpoint knows: a role that
    [messageTypeToOpenAIRole] returns for a type is turned back by
    [openAIResponseToChatMessage] into a message of that type, with the text
    given.  Every other role, and a missing one, gives a message whose type
    [messageTypeToOpenAIRole] rejects. *)
Theorem roles_and_types_round_trip (type r : string) (role : option string)
    (text : string) :
  (OpenAI.messageTypeToOpenAIRole type = Normal r →
   OpenAI._getType (OpenAI.openAIResponseToChatMessage (Some r) text) = type ∧
   OpenAI.text (OpenAI.openAIResponseToChatMessage (Some r) text) = text) ∧
  OpenAI.messageTypeToOpenAIRole
    (OpenAI._getType (OpenAI.openAIResponseToChatMessage role text)) =
  match role with
  | Some r' =>
      if bool_decide (r' ∈ openai_roles) then Normal r'
      else Throw "Unknown message type: generic"
  | None => Throw "Unknown message type: generic"
  end.
Proof.
  split.
  - intros H. apply messageTypeToOpenAIRole_Normal in H.
    destruct H as [[-> ->]|[[-> ->]|[-> ->]]]; split; reflexivity.
  - destruct role as [r'|]; [|reflexivity].
    unfold OpenAI.openAIResponseToChatMessage, openai_roles.
    destruct (String.eqb_spec r' "user") as [->|Hu]; [reflexivity|].
    destruct (String.eqb_spec r' "assistant") as [->|Ha]; [reflexivity|].
    destruct (String.eqb_spec r' "system") as [->|Hs]; [reflexivity|].
    rewrite bool_decide_eq_false_2; [reflexivity|].
    rewrite !elem_of_cons, elem_of_nil. tauto.
Qed.

Lemma roles_and_types_round_trip_witness :
  (OpenAI._getType (OpenAI.openAIResponseToChatMessage (Some "assistant") "hello") = "ai" ∧
   OpenAI.text (OpenAI.openAIResponseToChatMessage (Some "assistant") "hello") = "hello").
Proof.
  apply (proj1 (roles_and_types_round_trip "ai" "assistant" None "hello")).
  reflexivity.
Defined.

(** ** The request of [_generate] *)

Lemma cmap_Normal {A B} (f : A → Completion B) (g : A → B) xs :
  (∀ x, x ∈ xs → f x = Normal (g x)) → OpenAI.cmap f xs = Normal (map g xs).
Proof.
  induction xs as [|x xs IH]; intros H; [reflexivity|].
  cbn [OpenAI.cmap map]. rewrite (H x) by left. cbn [OpenAI.cbind].
  rewrite IH; [reflexivity|]. intros y Hy. apply H. now right.
Qed.

Lemma cmap_Throw {A B} (f : A → Completion B) e xs :
  (∀ x, x ∈ xs → f x = Throw e ∨ ∃ y, f x = Normal y) →
  (∃ x, x ∈ xs ∧ f x = Throw e) →
  OpenAI.cmap f xs = Throw e.
Proof.
  induction xs as [|x xs IH]; intros Hall [x0 [Hin Hx0]].
  - inversion Hin.
  - cbn [OpenAI.cmap].
    assert (f x = Throw e ∨ ∃ y, f x = Normal y) as [Hx|[y Hx]] by (apply Hall; left);
      rewrite Hx; [reflexivity|].
    cbn [OpenAI.cbind]. rewrite IH; [reflexivity| |].
    + intros z Hz. apply Hall. now right.
    + apply elem_of_cons in Hin as [->|Hin]; [congruence|eauto].
Qed.

Lemma existsb_is_generic messages :
  existsb is_generic messages = true ↔ ∃ m, m ∈ messages ∧ is_generic m = true.
Proof.
  rewrite existsb_exists. split; intros [m [H1 H2]]; exists m; split; auto;
    now apply list_elem_of_In.
Qed.

Lemma request_messages messages :
  OpenAI.cmap (λ message,
    OpenAI.cbind (OpenAI.messageTypeToOpenAIRole (OpenAI._getType message)) (λ r,
      Normal (OpenAI.mkRequestMessage r (OpenAI.text message) (OpenAI.name message))))
    messages =
  if existsb is_generic messages then Throw "Unknown message type: generic"
  else Normal (map request_message messages).
Proof.
  destruct (existsb is_generic messages) eqn:Hg.
  - apply cmap_Throw.
    + intros m _. rewrite messageTypeToOpenAIRole_getType.
      destruct (is_generic m); cbn [OpenAI.cbind]; eauto.
    + apply existsb_is_generic in Hg as [m [Hin Hm]]. exists m. split; [exact Hin|].
      rewrite messageTypeToOpenAIRole_getType, Hm. reflexivity.
  - apply cmap_Normal. intros m Hin.
    rewrite messageTypeToOpenAIRole_getType.
    destruct (is_generic m) eqn:Hm.
    + assert (existsb is_generic messages = true) as Hex
        by (apply existsb_is_generic; eauto).
      congruence.
    + reflexivity.
Qed.

(** X15: [_generate] rejects before it makes a request when the model and
    the call both give a stop list, and otherwise when one of the messages is
    a [ChatMessage]: whatever the endpoint would answer, the result is the
    same error. *)
Theorem generate_rejects_before_the_request (this : OpenAI.ChatOpenAI)
    (messages : list OpenAI.BaseChatMessage) (options : option OpenAI.CallOptions.t)
    (await_data : gmap string OpenAI.JSValue →
                  list OpenAI.ChatCompletionRequestMessage →
                  option OpenAI.CallOptions.t →
                  Completion (option OpenAI.CreateChatCompletionResponse)) :
  (stop_conflict this options = true →
   OpenAI._generate this messages options await_data =
   Throw "Stop found in input and default params") ∧
  (stop_conflict this options = false →
   existsb is_generic messages = true →
   OpenAI._generate this messages options await_data =
   Throw "Unknown message type: generic").
Proof.
  unfold stop_conflict, OpenAI._generate. split.
  - intros ->. reflexivity.
  - intros -> Hg. rewrite request_messages, Hg. reflexivity.
Qed.

Lemma generate_rejects_before_the_request_witness :
  OpenAI._generate example_model [human "hi"; generic "critic" "no"] None
    (answers (example_response "hello" 2 5)) =
  Throw "Unknown message type: generic".
Proof.
  apply (proj2 (generate_rejects_before_the_request example_model
                  [human "hi"; generic "critic" "no"] None
                  (answers (example_response "hello" 2 5)))); reflexivity.
Defined.

Lemma invocationParams_lookup (this : OpenAI.ChatOpenAI) (k : string) :
  OpenAI.invocationParams this !! k =
  match OpenAI.modelKwargs this !! k with
  | Some v => Some v
  | None => OpenAI.invocationParams (OpenAI.mkChatOpenAI
              (OpenAI.temperature this) (OpenAI.topP this) (OpenAI.frequencyPenalty this)
              (OpenAI.presencePenalty this) (OpenAI.n this) (OpenAI.logitBias this)
              (OpenAI.modelName this) ∅ (OpenAI.stop this) (OpenAI.timeout this)
              (OpenAI.streaming this) (OpenAI.maxTokens this)
              (OpenAI.azureOpenAIApiVersion this) (OpenAI.azureOpenAIApiKey this)
              (OpenAI.azureOpenAIApiInstanceName this)
              (OpenAI.azureOpenAIApiDeploymentName this) (OpenAI.clientConfig this)) !! k
  end.
Proof.
  unfold OpenAI.invocationParams, OpenAI.spread. cbn [OpenAI.modelKwargs
    OpenAI.temperature OpenAI.topP OpenAI.frequencyPenalty OpenAI.presencePenalty
    OpenAI.n OpenAI.logitBias OpenAI.modelName OpenAI.stop OpenAI.streaming
    OpenAI.maxTokens].
  rewrite (left_id_L ∅ (∪)).
  destruct (OpenAI.modelKwargs this !! k) eqn:Hk.
  - now apply lookup_union_Some_l.
  - now apply lookup_union_r.
Qed.

Ltac open_params :=
  unfold OpenAI.invocationParams, OpenAI.spread;
  cbn [OpenAI.modelKwargs OpenAI.temperature OpenAI.topP OpenAI.frequencyPenalty
       OpenAI.presencePenalty OpenAI.n OpenAI.logitBias OpenAI.modelName OpenAI.stop
       OpenAI.streaming OpenAI.maxTokens];
  rewrite (left_id_L ∅ (∪)).

Ltac lookup_literal :=
  unfold OpenAI.object_literal; cbn [foldl fst snd];
  repeat (rewrite lookup_insert_ne by discriminate);
  try rewrite lookup_insert_eq; try rewrite lookup_empty.

Lemma invocationParams_named (this : OpenAI.ChatOpenAI) (k : string) :
  k ∈ named_params → is_Some (OpenAI.invocationParams this !! k).
Proof.
  intros Hk. rewrite invocationParams_lookup.
  destruct (OpenAI.modelKwargs this !! k); [eauto|].
  open_params. unfold named_params in Hk. rewrite !elem_of_cons, elem_of_nil in Hk.
  repeat (destruct Hk as [->|Hk]; [lookup_literal; eauto|]). destruct Hk.
Qed.

Lemma invocationParams_stop (this : OpenAI.ChatOpenAI) :
  OpenAI.invocationParams this !! "stop" =
  Some (default (OpenAI.of_strings (OpenAI.stop this)) (OpenAI.modelKwargs this !! "stop")).
Proof.
  rewrite invocationParams_lookup.
  destruct (OpenAI.modelKwargs this !! "stop"); [reflexivity|].
  open_params. lookup_literal. reflexivity.
Qed.

(** X16: when the stop lists do not conflict and no message is a
    [ChatMessage], [_generate] makes one request:
    its result is decided by what the endpoint answers to the parameters of
    [invocationParams] with [stop] replaced by the stop list of the call, if
    there is one (else [stop] stays what [modelKwargs] or the model give),
    and to the messages with their roles; if the request rejects, [_generate]
    rejects with the same error. *)
Theorem generate_makes_one_request (this : OpenAI.ChatOpenAI)
    (messages : list OpenAI.BaseChatMessage) (options : option OpenAI.CallOptions.t) :
  stop_conflict this options = false →
  existsb is_generic messages = false →
  ∃ params continue,
    params !! "stop" =
      Some (match OpenAI.call_option options OpenAI.CallOptions.stop with
            | Some l => OpenAI.VStrings l
            | None => default (OpenAI.of_strings (OpenAI.stop this))
                        (OpenAI.modelKwargs this !! "stop")
            end) ∧
    (∀ k, k ≠ "stop" → params !! k = OpenAI.invocationParams this !! k) ∧
    (∀ await_data,
       OpenAI._generate this messages options await_data =
       OpenAI.cbind (await_data params (map request_message messages) options) continue) ∧
    (∀ await_data e,
       await_data params (map request_message messages) options = Throw e →
       OpenAI._generate this messages options await_data = Throw e).
Proof.
  intros Hstop Hgen. unfold stop_conflict in Hstop.
  unfold OpenAI._generate. rewrite Hstop, request_messages, Hgen.
  cbn [OpenAI.cbind].
  exists (<["stop" := match OpenAI.call_option options OpenAI.CallOptions.stop with
                      | Some l => OpenAI.VStrings l
                      | None => default OpenAI.VUndefined
                                  (OpenAI.invocationParams this !! "stop")
                      end]> (OpenAI.invocationParams this)).
  eexists. split; [|split; [|split]].
  - rewrite lookup_insert_eq, invocationParams_stop. reflexivity.
  - intros k Hk. now rewrite lookup_insert_ne.
  - intros await_data. reflexivity.
  - intros await_data e ->. reflexivity.
Qed.

Lemma generate_makes_one_request_witness :
  ∃ params continue,
    params !! "stop" = Some (OpenAI.VStrings ["END"]) ∧
    (∀ k, k ≠ "stop" → params !! k = OpenAI.invocationParams example_model !! k) ∧
    (∀ await_data,
       OpenAI._generate example_model [human "hi"]
         (Some (OpenAI.CallOptions.mk (Some ["END"]) None None None)) await_data =
       OpenAI.cbind
         (await_data params (map request_message [human "hi"])
            (Some (OpenAI.CallOptions.mk (Some ["END"]) None None None))) continue) ∧
    (∀ await_data e,
       await_data params (map request_message [human "hi"])
         (Some (OpenAI.CallOptions.mk (Some ["END"]) None None None)) = Throw e →
       OpenAI._generate example_model [human "hi"]
         (Some (OpenAI.CallOptions.mk (Some ["END"]) None None None)) await_data = Throw e).
Proof.
  apply (generate_makes_one_request example_model [human "hi"]
           (Some (OpenAI.CallOptions.mk (Some ["END"]) None None None)));
    reflexivity.
Defined.

(** ** The result of [_generate] and the usage *)

Lemma cmap_generation_of choices gens :
  OpenAI.cmap OpenAI.generation_of choices = Normal gens →
  ∃ cs, choices = map Some cs ∧ gens = map generation_of_choice cs.
Proof.
  revert gens. induction choices as [|c choices IH]; intros gens H.
  - injection H as <-. now exists [].
  - cbn [OpenAI.cmap] in H. destruct c as [c|]; [|discriminate].
    cbn [OpenAI.generation_of OpenAI.cbind] in H.
    destruct (OpenAI.cmap OpenAI.generation_of choices) as [gs|] eqn:Hgs; [|discriminate].
    destruct (IH gs eq_refl) as [cs [-> ->]].
    injection H as <-. now exists (c :: cs).
Qed.

Lemma cmap_generation_of_present cs :
  OpenAI.cmap OpenAI.generation_of (map Some cs) = Normal (map generation_of_choice cs).
Proof.
  induction cs as [|c cs IH]; [reflexivity|].
  cbn [map OpenAI.cmap OpenAI.generation_of OpenAI.cbind]. now rewrite IH.
Qed.

Lemma cmap_generation_of_missing choices :
  None ∈ choices →
  OpenAI.cmap OpenAI.generation_of choices =
  Throw "TypeError: Cannot read properties of undefined (reading 'message')".
Proof.
  intros H. apply cmap_Throw.
  - intros [c|] _; [right; eexists; reflexivity|now left].
  - exists None. now split.
Qed.

Lemma add_usage_count get set x u :
  (∀ v u, get (set v u) = v) →
  get u = None →
  default 0%Z (get (OpenAI.add_usage get set x u)) = default 0%Z x.
Proof.
  intros Hgs Hu. unfold OpenAI.add_usage. destruct x as [v|]; [|now rewrite Hu].
  destruct (Z.eqb_spec v 0) as [->|Hv]; cbn [negb].
  - now rewrite Hu.
  - rewrite Hgs, Hu. reflexivity.
Qed.

Lemma generate_answers this messages options data r :
  OpenAI._generate this messages options (answers data) = Normal r →
  (∃ cs, OpenAI.choices data = map Some cs ∧
         OpenAI.generations r = map generation_of_choice cs) ∧
  entry_count OpenAI.completionTokens (output_of r)
    = reported OpenAI.completion_tokens data ∧
  entry_count OpenAI.promptTokens (output_of r) = reported OpenAI.prompt_tokens data ∧
  entry_count OpenAI.totalTokens (output_of r) = reported OpenAI.total_tokens data.
Proof.
  unfold OpenAI._generate, answers.
  destruct (_ && _); [discriminate|].
  destruct (OpenAI.cmap _ messages); [|discriminate]. cbn [OpenAI.cbind].
  destruct (OpenAI.cmap OpenAI.generation_of (OpenAI.choices data)) as [gs|] eqn:Hgs;
    [|discriminate].
  cbn [OpenAI.cbind]. intros [= <-]. split.
  - destruct (cmap_generation_of _ _ Hgs) as [cs [H1 H2]]. eauto.
  - unfold entry_count, output_of, reported. cbn [OpenAI.llmOutput].
    destruct (OpenAI.usage data) as [[c p t]|]; cbn [default OpenAI.completion_tokens
      OpenAI.prompt_tokens OpenAI.total_tokens].
    + unfold OpenAI.add_usage.
      destruct c as [c|], p as [p|], t as [t|]; cbn;
        repeat match goal with
               | |- context [Z.eqb ?v 0] =>
                   let H := fresh in
                   destruct (Z.eqb v 0) eqn:H; [apply Z.eqb_eq in H; subst v|clear H]
               end; cbn; repeat split; reflexivity.
    + cbn. auto.
Qed.

Lemma combineLLMOutput_from acc llmOutputs :
  foldl (λ acc llmOutput,
           match llmOutput with
           | Some (Some tokenUsage) =>
               OpenAI.mkCombined
                 (OpenAI.sum_completionTokens acc
                  + default 0 (OpenAI.completionTokens tokenUsage))%Z
                 (OpenAI.sum_promptTokens acc
                  + default 0 (OpenAI.promptTokens tokenUsage))%Z
                 (OpenAI.sum_totalTokens acc
                  + default 0 (OpenAI.totalTokens tokenUsage))%Z
           | _ => acc
           end) acc llmOutputs =
  OpenAI.mkCombined
    (OpenAI.sum_completionTokens acc
     + total (entry_count OpenAI.completionTokens) llmOutputs)%Z
    (OpenAI.sum_promptTokens acc + total (entry_count OpenAI.promptTokens) llmOutputs)%Z
    (OpenAI.sum_totalTokens acc + total (entry_count OpenAI.totalTokens) llmOutputs)%Z.
Proof.
  revert acc. induction llmOutputs as [|o l IH]; intros acc.
  - destruct acc; cbn. f_equal; lia.
  - cbn [foldl]. rewrite IH. unfold total; cbn [foldr]. fold (@total (option (option OpenAI.TokenUsage))).
    destruct o as [[u|]|]; cbn [entry_count OpenAI.sum_completionTokens
      OpenAI.sum_promptTokens OpenAI.sum_totalTokens]; f_equal; lia.
Qed.

Lemma combineLLMOutput_sums llmOutputs :
  OpenAI._combineLLMOutput llmOutputs =
  OpenAI.mkCombined (total (entry_count OpenAI.completionTokens) llmOutputs)
    (total (entry_count OpenAI.promptTokens) llmOutputs)
    (total (entry_count OpenAI.totalTokens) llmOutputs).
Proof. unfold OpenAI._combineLLMOutput. now rewrite combineLLMOutput_from. Qed.



(** X18: the answer decides the result.  When the stop lists do not
    conflict, no message is a [ChatMessage] and the endpoint answers with a response all of whose choices are there,
    [_generate] returns one generation per choice, in order, whose text is
    the content of the choice's message ("" when there is none) and whose
    message has the type of the role; a response with a missing choice, and
    an answer that is [undefined], make it reject with a [TypeError]. *)
Theorem generate_result (this : OpenAI.ChatOpenAI)
    (messages : list OpenAI.BaseChatMessage) (options : option OpenAI.CallOptions.t)
    (data : OpenAI.CreateChatCompletionResponse) :
  stop_conflict this options = false →
  existsb is_generic messages = false →
  (∀ cs, OpenAI.choices data = map Some cs →
     ∃ r, OpenAI._generate this messages options (answers data) = Normal r ∧
          OpenAI.generations r = map generation_of_choice cs) ∧
  (None ∈ OpenAI.choices data →
     OpenAI._generate this messages options (answers data) =
     Throw "TypeError: Cannot read properties of undefined (reading 'message')") ∧
  OpenAI._generate this messages options answers_undefined =
  Throw "TypeError: Cannot read properties of undefined (reading 'usage')".
Proof.
  intros Hstop Hgen. unfold stop_conflict in Hstop.
  unfold OpenAI._generate, answers, answers_undefined.
  rewrite Hstop, request_messages, Hgen. cbn [OpenAI.cbind].
  split; [|split]; [| |reflexivity].
  - intros cs ->. rewrite cmap_generation_of_present. cbn [OpenAI.cbind].
    eexists; split; reflexivity.
  - intros H. now rewrite cmap_generation_of_missing.
Qed.

Lemma generate_result_witness :
  (∀ cs, OpenAI.choices (example_response "hello" 2 5) = map Some cs →
     ∃ r, OpenAI._generate example_model [human "hi"] None
            (answers (example_response "hello" 2 5)) = Normal r ∧
          OpenAI.generations r = map generation_of_choice cs) ∧
  (None ∈ OpenAI.choices (example_response "hello" 2 5) →
     OpenAI._generate example_model [human "hi"] None
       (answers (example_response "hello" 2 5)) =
     Throw "TypeError: Cannot read properties of undefined (reading 'message')") ∧
  OpenAI._generate example_model [human "hi"] None answers_undefined =
  Throw "TypeError: Cannot read properties of undefined (reading 'usage')".
Proof.
  apply (generate_result example_model [human "hi"] None (example_response "hello" 2 5));
    reflexivity.
Defined.

(** ** [PromptLayerChatOpenAI._generate] *)

Lemma createMessageDicts_stop this messages o :
  is_given (OpenAI.CallOptions.stop o) = true →
  OpenAI._createMessageDicts this messages (Some o) =
  Throw "`stop` found in both the input and default params.".
Proof.
  intros Hstop. unfold OpenAI._createMessageDicts, OpenAI.call_option, OpenAI.includes_key.
  rewrite Hstop. rewrite lookup_insert_ne by discriminate.
  rewrite invocationParams_stop. rewrite bool_decide_eq_true_2 by eauto. reflexivity.
Qed.

Lemma convertMessageToDict_run m :
  OpenAI._convertMessageToDict m = Normal (message_dict m).
Proof.
  unfold OpenAI._convertMessageToDict, OpenAI._getType, OpenAI.role_of, message_dict.
  destruct (OpenAI.class m); reflexivity.
Qed.

Lemma createMessageDicts_no_stop this messages o :
  OpenAI.CallOptions.stop o = None →
  OpenAI._createMessageDicts this messages (Some o) = Normal (map message_dict messages).
Proof.
  intros Hstop. unfold OpenAI._createMessageDicts, OpenAI.call_option.
  rewrite Hstop. cbn [is_given andb].
  apply cmap_Normal. intros m _. apply convertMessageToDict_run.
Qed.

Lemma cmap_all_Throw {A B} (f : A → Completion B) e x xs :
  f x = Throw e → OpenAI.cmap f (x :: xs) = Throw e.
Proof. intros H. cbn [OpenAI.cmap]. now rewrite H. Qed.

(** X19: [PromptLayerChatOpenAI._generate] cannot be used with a stop list.
    Given one (an array as options always is one), it first lets
    [ChatOpenAI._generate] make the request; if that returns a generation, it
    then rejects with "`stop` found in both the input and default params.",
    whatever the model's own parameters are, because [stop] is always a key
    of [invocationParams]; nothing is tracked. *)
Theorem promptlayer_rejects_a_stop_list (this : OpenAI.PromptLayerChatOpenAI)
    (messages : list OpenAI.BaseChatMessage)
    (options : option (list string + OpenAI.CallOptions.t))
    (await_data : gmap string OpenAI.JSValue →
                  list OpenAI.ChatCompletionRequestMessage →
                  option OpenAI.CallOptions.t →
                  Completion (option OpenAI.CreateChatCompletionResponse))
    (track : Tracker) :
  is_given (OpenAI.CallOptions.stop (OpenAI.parse_options options)) = true →
  OpenAI.PromptLayerChatOpenAI_generate this messages options await_data track =
  match OpenAI._generate (OpenAI.base this) messages
          (Some (OpenAI.parse_options options)) await_data with
  | Throw e => Throw e
  | Normal generatedResponses =>
      match OpenAI.generations generatedResponses with
      | [] => Normal generatedResponses
      | _ :: _ => Throw "`stop` found in both the input and default params."
      end
  end.
Proof.
  intros Hstop. unfold OpenAI.PromptLayerChatOpenAI_generate.
  destruct (OpenAI._generate _ _ _ _) as [[gens out]|e]; [|reflexivity].
  cbn [OpenAI.cbind OpenAI.generations OpenAI.llmOutput].
  destruct gens as [|g gens]; [reflexivity|].
  rewrite (cmap_all_Throw _ "`stop` found in both the input and default params.");
    [reflexivity|].
  unfold OpenAI.track_generation. now rewrite createMessageDicts_stop.
Qed.

Lemma promptlayer_rejects_a_stop_list_witness :
  OpenAI.PromptLayerChatOpenAI_generate (example_promptlayer false) [human "hi"]
    (Some (inl ["END"])) (answers (example_response "hello" 2 5))
    (example_tracker "req-1") =
  Throw "`stop` found in both the input and default params.".
Proof.
  rewrite (promptlayer_rejects_a_stop_list (example_promptlayer false) [human "hi"]
             (Some (inl ["END"])) (answers (example_response "hello" 2 5))
             (example_tracker "req-1")); reflexivity.
Defined.

Lemma known_role_generic c :
  is_generic (OpenAI.g_message (generation_of_choice c)) = negb (known_role (role_of_choice c)).
Proof.
  unfold generation_of_choice, role_of_choice, known_role. cbn [OpenAI.g_message].
  destruct (match OpenAI.message c with Some m => OpenAI.role m | None => None end)
    as [r|]; [|reflexivity].
  unfold OpenAI.openAIResponseToChatMessage, openai_roles.
  destruct (String.eqb_spec r "user") as [->|Hu]; [reflexivity|].
  destruct (String.eqb_spec r "assistant") as [->|Ha]; [reflexivity|].
  destruct (String.eqb_spec r "system") as [->|Hs]; [reflexivity|].
  rewrite bool_decide_eq_false_2; [reflexivity|].
  rewrite !elem_of_cons, elem_of_nil. tauto.
Qed.

Lemma no_stop_no_conflict this o :
  OpenAI.CallOptions.stop o = None → stop_conflict this (Some o) = false.
Proof.
  intros H. unfold stop_conflict, OpenAI.call_option. rewrite H.
  now destruct (is_given (OpenAI.stop this)).
Qed.

Lemma generate_answers_run this messages o data cs :
  OpenAI.CallOptions.stop o = None →
  existsb is_generic messages = false →
  OpenAI.choices data = map Some cs →
  ∃ out, OpenAI._generate this messages (Some o) (answers data) =
         Normal (OpenAI.mkChatResult (map generation_of_choice cs) out).
Proof.
  intros Hstop Hgen Hcs. pose proof (no_stop_no_conflict this o Hstop) as Hc.
  unfold stop_conflict in Hc. unfold OpenAI._generate, answers.
  rewrite Hc, request_messages, Hgen. cbn [OpenAI.cbind].
  rewrite Hcs, cmap_generation_of_present. cbn [OpenAI.cbind]. eauto.
Qed.

(** X20: [PromptLayerChatOpenAI._generate] rejects an answer that
    [ChatOpenAI._generate] accepts: when the first choice of the response has
    a role other than "system", "assistant" and "user", or none, the result
    is the error "Unknown message type: generic", after the request has been
    answered and before anything is tracked. *)
Theorem promptlayer_rejects_other_roles (this : OpenAI.PromptLayerChatOpenAI)
    (messages : list OpenAI.BaseChatMessage)
    (options : option (list string + OpenAI.CallOptions.t))
    (data : OpenAI.CreateChatCompletionResponse)
    (c : OpenAI.Choice) (cs : list OpenAI.Choice) (track : Tracker) :
  OpenAI.CallOptions.stop (OpenAI.parse_options options) = None →
  existsb is_generic messages = false →
  OpenAI.choices data = map Some (c :: cs) →
  known_role (role_of_choice c) = false →
  (∃ r, OpenAI._generate (OpenAI.base this) messages
          (Some (OpenAI.parse_options options)) (answers data) = Normal r) ∧
  OpenAI.PromptLayerChatOpenAI_generate this messages options (answers data) track =
  Throw "Unknown message type: generic".
Proof.
  intros Hstop Hgen Hcs Hrole.
  destruct (generate_answers_run (OpenAI.base this) messages _ data _ Hstop Hgen Hcs)
    as [out Hr].
  split; [eauto|].
  unfold OpenAI.PromptLayerChatOpenAI_generate. rewrite Hr.
  cbn [OpenAI.cbind OpenAI.generations map].
  rewrite (cmap_all_Throw _ "Unknown message type: generic"); [reflexivity|].
  unfold OpenAI.track_generation.
  rewrite createMessageDicts_no_stop by exact Hstop. cbn [OpenAI.cbind].
  rewrite messageTypeToOpenAIRole_getType, known_role_generic, Hrole. reflexivity.
Qed.

Lemma promptlayer_rejects_other_roles_witness :
  (∃ r, OpenAI._generate (OpenAI.base (example_promptlayer true)) [human "hi"]
          (Some (OpenAI.parse_options None))
          (answers (response_with_role (Some "function") "f()")) = Normal r) ∧
  OpenAI.PromptLayerChatOpenAI_generate (example_promptlayer true) [human "hi"] None
    (answers (response_with_role (Some "function") "f()")) (example_tracker "req-1") =
  Throw "Unknown message type: generic".
Proof.
  apply (promptlayer_rejects_other_roles (example_promptlayer true) [human "hi"] None
           (response_with_role (Some "function") "f()")
           (OpenAI.mkChoice 0
              (Some (OpenAI.mkResponseMessage (Some "function") (Some "f()")))
              (Some "stop")) []); reflexivity.
Defined.

Lemma cmap_Forall2 {A B} (f : A → Completion B) (R : A → B → Prop) xs :
  (∀ x, x ∈ xs → ∃ y, f x = Normal y ∧ R x y) →
  ∃ ys, OpenAI.cmap f xs = Normal ys ∧ Forall2 R xs ys.
Proof.
  induction xs as [|x xs IH]; intros H.
  - exists []. split; [reflexivity|constructor].
  - destruct (H x) as [y [Hy HR]]; [left|].
    destruct IH as [ys [Hys HF]]; [intros z Hz; apply H; now right|].
    exists (y :: ys). split; [|now constructor].
    cbn [OpenAI.cmap]. rewrite Hy. cbn [OpenAI.cbind]. now rewrite Hys.
Qed.

Lemma cmap_ext {A B} (f g : A → Completion B) xs :
  (∀ x, f x = g x) → OpenAI.cmap f xs = OpenAI.cmap g xs.
Proof.
  intros H. induction xs as [|x xs IH]; [reflexivity|].
  cbn [OpenAI.cmap]. now rewrite H, IH.
Qed.

Lemma track_generation_run this (track : Tracker) messages o c :
  OpenAI.CallOptions.stop o = None →
  known_role (role_of_choice c) = true →
  (∀ d p t r k, resolves (track d p t r k)) →
  ∃ g, OpenAI.track_generation this track messages o (generation_of_choice c) = Normal g ∧
       tracked_as this (generation_of_choice c) g.
Proof.
  intros Hstop Hrole Htrack. unfold OpenAI.track_generation.
  rewrite createMessageDicts_no_stop by exact Hstop. cbn [OpenAI.cbind].
  rewrite messageTypeToOpenAIRole_getType, known_role_generic, Hrole.
  cbn [negb OpenAI.cbind].
  match goal with
  | |- context [track ?d ?p ?t ?r ?k] => destruct (Htrack d p t r k) as [response ->]
  end.
  cbn [OpenAI.cbind]. unfold tracked_as.
  destruct (OpenAI.returnPromptLayerId this); eexists; (split; [reflexivity|]);
    cbn [OpenAI.g_text OpenAI.g_message OpenAI.generationInfo]; eauto.
Qed.

(** X21: with no stop list, an answer whose choices all have one of the
    three known roles and a tracker that resolves,
    [PromptLayerChatOpenAI._generate] returns what [ChatOpenAI._generate]
    returns for the parsed options (options that have a timeout and no
    signal get a signal), with the same usage and, generation by generation,
    the same text and message; only [generationInfo] may differ, and only
    when [returnPromptLayerId] is set. *)
Theorem promptlayer_keeps_the_generations (this : OpenAI.PromptLayerChatOpenAI)
    (messages : list OpenAI.BaseChatMessage)
    (options : option (list string + OpenAI.CallOptions.t))
    (data : OpenAI.CreateChatCompletionResponse) (cs : list OpenAI.Choice)
    (track : Tracker) :
  OpenAI.CallOptions.stop (OpenAI.parse_options options) = None →
  existsb is_generic messages = false →
  OpenAI.choices data = map Some cs →
  forallb (λ c, known_role (role_of_choice c)) cs = true →
  (∀ d p t r k, resolves (track d p t r k)) →
  ∃ generatedResponses result,
    OpenAI._generate (OpenAI.base this) messages
      (Some (OpenAI.parse_options options)) (answers data) = Normal generatedResponses ∧
    OpenAI.PromptLayerChatOpenAI_generate this messages options (answers data) track
      = Normal result ∧
    OpenAI.llmOutput result = OpenAI.llmOutput generatedResponses ∧
    Forall2 (tracked_as this) (OpenAI.generations generatedResponses)
      (OpenAI.generations result) ∧
    (OpenAI.returnPromptLayerId this = false → result = generatedResponses).
Proof.
  intros Hstop Hgen Hcs Hroles Htrack.
  destruct (generate_answers_run (OpenAI.base this) messages _ data _ Hstop Hgen Hcs)
    as [out Hr].
  destruct (cmap_Forall2
              (OpenAI.track_generation this track messages (OpenAI.parse_options options))
              (tracked_as this) (map generation_of_choice cs)) as [gs [Hgs HF]].
  { intros g Hg. apply list_elem_of_fmap in Hg as [c [-> Hc]].
    apply track_generation_run; auto.
    rewrite forallb_forall in Hroles. apply Hroles. now apply list_elem_of_In. }
  eexists _, _. split; [exact Hr|].
  unfold OpenAI.PromptLayerChatOpenAI_generate. rewrite Hr.
  cbn [OpenAI.cbind OpenAI.generations OpenAI.llmOutput]. rewrite Hgs.
  cbn [OpenAI.cbind]. split; [reflexivity|]. split; [reflexivity|].
  split; [exact HF|].
  intros Hret. f_equal. clear -HF Hret.
  induction HF as [|g0 g l0 l Hg _ IH]; [reflexivity|].
  rewrite IH. f_equal. destruct Hg as (H1 & H2 & H3). rewrite Hret in H3.
  destruct g0, g; cbn in *; congruence.
Qed.

Lemma promptlayer_keeps_the_generations_witness :
  ∃ generatedResponses result,
    OpenAI._generate (OpenAI.base (example_promptlayer true)) [human "hi"]
      (Some (OpenAI.parse_options None)) (answers (example_response "hello" 2 5))
      = Normal generatedResponses ∧
    OpenAI.PromptLayerChatOpenAI_generate (example_promptlayer true) [human "hi"] None
      (answers (example_response "hello" 2 5)) (example_tracker "req-1")
      = Normal result ∧
    OpenAI.llmOutput result = OpenAI.llmOutput generatedResponses ∧
    Forall2 (tracked_as (example_promptlayer true))
      (OpenAI.generations generatedResponses) (OpenAI.generations result) ∧
    (OpenAI.returnPromptLayerId (example_promptlayer true) = false →
     result = generatedResponses).
Proof.
  apply (promptlayer_keeps_the_generations (example_promptlayer true) [human "hi"] None
           (example_response "hello" 2 5)
           [OpenAI.mkChoice 0
              (Some (OpenAI.mkResponseMessage (Some "assistant") (Some "hello")))
              (Some "stop")]
           (example_tracker "req-1")); try reflexivity.
  intros d p t r k. exists (OpenAI.mkTrackResponse true (Some "req-1")). reflexivity.
Defined.

Example promptlayer_request_id :
  OpenAI.PromptLayerChatOpenAI_generate (example_promptlayer true) [human "hi"] None
    (answers (example_response "hello" 2 5)) (example_tracker "req-1") =
  Normal (OpenAI.mkChatResult
            [OpenAI.mkGeneration "hello" (OpenAI.mkMessage OpenAI.AIChatMessage "hello" None)
               (Some (<["promptLayerRequestId" := OpenAI.VString "req-1"]> ∅))]
            (OpenAI.mkTokenUsage (Some 2%Z) (Some 5%Z) (Some 7%Z))).
Proof. reflexivity. Qed.

(** ** The key in the identifying parameters *)

Lemma ChatOpenAI_new_clientConfig env fields configuration this :
  OpenAI.ChatOpenAI_new env fields configuration = Normal this →
  OpenAI.clientConfig this =
  OpenAI.spread_optional (OpenAI.field fields OpenAI.Fields.configuration)
    (OpenAI.spread_optional configuration
       (OpenAI.object_literal [("apiKey", OpenAI.of_string (api_key env fields))])).
Proof.
  unfold OpenAI.ChatOpenAI_new. cbv zeta.
  repeat match goal with
         | |- context [if ?b then Throw _ else _] => destruct b; [discriminate|]
         end.
  intros [= <-]. reflexivity.
Qed.

Lemma track_generation_ext this (track track' : Tracker) messages o g :
  (∀ d r, track d (OpenAI._identifyingParams (OpenAI.base this)) (OpenAI.plTags this) r
            (OpenAI.promptLayerApiKey this) =
          track' d (OpenAI._identifyingParams (OpenAI.base this)) (OpenAI.plTags this) r
            (OpenAI.promptLayerApiKey this)) →
  OpenAI.track_generation this track messages o g =
  OpenAI.track_generation this track' messages o g.
Proof.
  intros H. unfold OpenAI.track_generation.
  destruct (OpenAI._createMessageDicts _ _ _); [|reflexivity]. cbn [OpenAI.cbind].
  destruct (OpenAI.messageTypeToOpenAIRole _); [|reflexivity]. cbn [OpenAI.cbind].
  now rewrite H.
Qed.



(** ** The constructor *)

(** X23: what the constructor guarantees, and what it does not.  A model it
    returns has a non-empty OpenAI or Azure key; it does not have
    [streaming] set together with an [n] above 1; with an Azure key it has a
    non-empty instance name, deployment name and version.  But the
    parameters of a request follow [modelKwargs] of the fields wherever it
    has an entry, [n] and [stream] included, which the constructor does not
    look at. *)
Theorem constructor_guarantees (env : string → option string)
    (fields : option OpenAI.Fields.t) (configuration : option (gmap string OpenAI.JSValue))
    (this : OpenAI.ChatOpenAI) :
  OpenAI.ChatOpenAI_new env fields configuration = Normal this →
  (OpenAI.string_truthy (api_key env fields) = true ∨
   OpenAI.string_truthy (OpenAI.azureOpenAIApiKey this) = true) ∧
  OpenAI.azureOpenAIApiKey this = azure_api_key env fields ∧
  (OpenAI.streaming this = true → OpenAI.number_gt (OpenAI.n this) 1 = false) ∧
  (OpenAI.string_truthy (OpenAI.azureOpenAIApiKey this) = true →
   OpenAI.string_truthy (OpenAI.azureOpenAIApiInstanceName this) = true ∧
   OpenAI.string_truthy (OpenAI.azureOpenAIApiDeploymentName this) = true ∧
   OpenAI.string_truthy (OpenAI.azureOpenAIApiVersion this) = true) ∧
  (∀ kwargs k v,
     OpenAI.field fields OpenAI.Fields.modelKwargs = Some kwargs →
     kwargs !! k = Some v →
     OpenAI.invocationParams this !! k = Some v).
Proof.
  unfold OpenAI.ChatOpenAI_new, api_key, azure_api_key. cbv zeta.
  destruct (negb (OpenAI.string_truthy _) && negb (OpenAI.string_truthy _)) eqn:Hkey;
    [discriminate|].
  destruct (default false _ && OpenAI.number_gt _ 1) eqn:Hstream; [discriminate|].
  destruct (OpenAI.string_truthy
              (OpenAI.nullish (OpenAI.field fields OpenAI.Fields.azureOpenAIApiKey) _))
    eqn:Hazure; cbn [andb negb] in *.
  - destruct (OpenAI.string_truthy
                (OpenAI.nullish (OpenAI.field fields OpenAI.Fields.azureOpenAIApiInstanceName) _))
      eqn:Hi; cbn [negb]; [|discriminate].
    destruct (OpenAI.string_truthy
                (OpenAI.nullish
                   (OpenAI.field fields OpenAI.Fields.azureOpenAIApiDeploymentName) _))
      eqn:Hd; cbn [negb]; [|discriminate].
    destruct (OpenAI.string_truthy
                (OpenAI.nullish (OpenAI.field fields OpenAI.Fields.azureOpenAIApiVersion) _))
      eqn:Hv; cbn [negb]; [|discriminate].
    intros [= <-].
    cbn [OpenAI.azureOpenAIApiKey OpenAI.streaming OpenAI.n
         OpenAI.azureOpenAIApiInstanceName OpenAI.azureOpenAIApiDeploymentName
         OpenAI.azureOpenAIApiVersion].
    repeat split; auto.
    + intros Hs. rewrite Hs in Hstream. exact Hstream.
    + intros kwargs k v Hf Hk. rewrite invocationParams_lookup.
      cbn [OpenAI.modelKwargs]. rewrite Hf. cbn [from_option id]. now rewrite Hk.
  - intros [= <-].
    cbn [OpenAI.azureOpenAIApiKey OpenAI.streaming OpenAI.n
         OpenAI.azureOpenAIApiInstanceName OpenAI.azureOpenAIApiDeploymentName
         OpenAI.azureOpenAIApiVersion].
    rewrite Hazure. repeat split; try discriminate.
    + left. now apply negb_false_iff in Hkey.
    + intros Hs. rewrite Hs in Hstream. exact Hstream.
    + intros kwargs k v Hf Hk. rewrite invocationParams_lookup.
      cbn [OpenAI.modelKwargs]. rewrite Hf. cbn [from_option id]. now rewrite Hk.
Qed.

Lemma constructor_guarantees_witness :
  (OpenAI.string_truthy (api_key (example_env "sk-1") (Some streaming_fields)) = true ∨
   OpenAI.string_truthy (OpenAI.azureOpenAIApiKey streaming_model) = true) ∧
  OpenAI.azureOpenAIApiKey streaming_model
    = azure_api_key (example_env "sk-1") (Some streaming_fields) ∧
  (OpenAI.streaming streaming_model = true →
   OpenAI.number_gt (OpenAI.n streaming_model) 1 = false) ∧
  (OpenAI.string_truthy (OpenAI.azureOpenAIApiKey streaming_model) = true →
   OpenAI.string_truthy (OpenAI.azureOpenAIApiInstanceName streaming_model) = true ∧
   OpenAI.string_truthy (OpenAI.azureOpenAIApiDeploymentName streaming_model) = true ∧
   OpenAI.string_truthy (OpenAI.azureOpenAIApiVersion streaming_model) = true) ∧
  (∀ kwargs k v,
     OpenAI.field (Some streaming_fields) OpenAI.Fields.modelKwargs = Some kwargs →
     kwargs !! k = Some v →
     OpenAI.invocationParams streaming_model !! k = Some v).
Proof.
  apply (constructor_guarantees (example_env "sk-1") (Some streaming_fields) None
           streaming_model).
  reflexivity.
Defined.

Example streaming_two_choices_is_not_refused :
  OpenAI.ChatOpenAI_new (example_env "sk-1") (Some streaming_fields) None
    = Normal streaming_model ∧
  OpenAI.invocationParams streaming_model !! "stream" = Some (OpenAI.VBoolean true) ∧
  OpenAI.invocationParams streaming_model !! "n"
    = Some (OpenAI.VNumber (OpenAI.Finite (Qc_of_Z 2))).
Proof. repeat split; reflexivity. Qed.

(** X24: an empty key in the fields hides the key of the environment.  The
    key is taken from the environment only when the fields have none ([??]),
    but it is tested for being non-empty: with the empty string as
    [openAIApiKey] and no Azure key, the constructor throws "(Azure) OpenAI
    API key not found" whatever [OPENAI_API_KEY] is. *)
Theorem empty_key_hides_the_environment (env : string → option string)
    (fields : OpenAI.Fields.t) (configuration : option (gmap string OpenAI.JSValue)) :
  OpenAI.Fields.openAIApiKey fields = Some "" →
  OpenAI.string_truthy (azure_api_key env (Some fields)) = false →
  OpenAI.ChatOpenAI_new env (Some fields) configuration =
  Throw "(Azure) OpenAI API key not found".
Proof.
  intros Hkey Hazure. unfold azure_api_key in Hazure.
  unfold OpenAI.ChatOpenAI_new. cbv zeta.
  rewrite Hazure. cbn [OpenAI.field]. rewrite Hkey. reflexivity.
Qed.

Lemma empty_key_hides_the_environment_witness :
  OpenAI.ChatOpenAI_new (example_env "sk-1") (Some empty_key_fields) None =
  Throw "(Azure) OpenAI API key not found".
Proof.
  apply (empty_key_hides_the_environment (example_env "sk-1") empty_key_fields None);
    reflexivity.
Defined.

(** ** Counting tokens *)

Lemma count_messages_from getNumTokens (tokensPerMessage tokensPerName : Z) messages :
  ∀ totalCount counts,
  foldl (λ (acc : Completion (Z * list Z)) (message : OpenAI.BaseChatMessage),
    OpenAI.cbind acc (λ '(totalCount, counts),
      let textCount := getNumTokens (OpenAI.text message) in
      OpenAI.cbind (OpenAI.messageTypeToOpenAIRole (OpenAI._getType message)) (λ r,
        let roleCount := getNumTokens r in
        let nameCount :=
          match OpenAI.name message with
          | Some nm => (tokensPerName + getNumTokens nm)%Z
          | None => 0%Z
          end in
        let count := (textCount + tokensPerMessage + roleCount + nameCount)%Z in
        Normal ((totalCount + count)%Z, counts ++ [count]))))
    (Normal (totalCount, counts)) messages =
  if existsb is_generic messages then Throw "Unknown message type: generic"
  else Normal ((totalCount
                + total id (map (message_count getNumTokens tokensPerMessage tokensPerName)
                              messages))%Z,
               counts ++ map (message_count getNumTokens tokensPerMessage tokensPerName)
                           messages).
Proof.
  induction messages as [|m messages IH]; intros totalCount counts.
  - cbn. rewrite app_nil_r. do 2 f_equal. lia.
  - cbn [foldl existsb map OpenAI.cbind]. rewrite messageTypeToOpenAIRole_getType.
    destruct (is_generic m) eqn:Hm; cbn [orb OpenAI.cbind].
    + clear. induction messages as [|m' ms IH']; [reflexivity|exact IH'].
    + cbv zeta. rewrite IH. destruct (existsb is_generic messages); [reflexivity|].
      rewrite <- app_assoc. unfold total. cbn [foldr app].
      f_equal. f_equal. symmetry. apply Z.add_assoc.
Qed.

(** X25: [getNumTokensFromMessages] counts every message or none.  If one
    of the messages is a [ChatMessage] it rejects with "Unknown message type:
    generic".  Otherwise it returns one count per message, in order: the
    tokens of the text, of the role and, for a message with a name, of the
    name, plus two constants that depend on the model only ((4, -1), (3, 1)
    or (0, 0)); and the total is the sum of these counts plus 3. *)
Theorem token_counts_add_up (getNumTokens : string → Z)
    (getModelNameForTiktoken : string → string)
    (this : OpenAI.ChatOpenAI) (messages : list OpenAI.BaseChatMessage) :
  (existsb is_generic messages = true →
   OpenAI.getNumTokensFromMessages getNumTokens getModelNameForTiktoken this messages =
   Throw "Unknown message type: generic") ∧
  (existsb is_generic messages = false →
   ∃ tokensPerMessage tokensPerName countPerMessage,
     (tokensPerMessage, tokensPerName) ∈ [(4, -1); (3, 1); (0, 0)]%Z ∧
     countPerMessage
       = map (message_count getNumTokens tokensPerMessage tokensPerName) messages ∧
     OpenAI.getNumTokensFromMessages getNumTokens getModelNameForTiktoken this messages =
     Normal ((total id countPerMessage + 3)%Z, countPerMessage)).
Proof.
  unfold OpenAI.getNumTokensFromMessages.
  destruct (if String.eqb _ "gpt-3.5-turbo" then _ else _) as [tpm tpn] eqn:Hmodel.
  rewrite count_messages_from. split; intros ->; [reflexivity|].
  exists tpm, tpn. eexists. split; [|split; [reflexivity|]].
  - destruct (String.eqb _ "gpt-3.5-turbo"); [injection Hmodel as <- <-; set_solver|].
    destruct (String.prefix "gpt-4" _); injection Hmodel as <- <-; set_solver.
  - cbn [OpenAI.cbind app]. reflexivity.
Qed.

Lemma token_counts_add_up_witness :
  ∃ tokensPerMessage tokensPerName countPerMessage,
    (tokensPerMessage, tokensPerName) ∈ [(4, -1); (3, 1); (0, 0)]%Z ∧
    countPerMessage
      = map (message_count example_getNumTokens tokensPerMessage tokensPerName)
          [human "hi"; OpenAI.mkMessage OpenAI.AIChatMessage "hello" (Some "bot")] ∧
    OpenAI.getNumTokensFromMessages example_getNumTokens id example_model
      [human "hi"; OpenAI.mkMessage OpenAI.AIChatMessage "hello" (Some "bot")] =
    Normal ((total id countPerMessage + 3)%Z, countPerMessage).
Proof.
  apply (proj2 (token_counts_add_up example_getNumTokens id example_model
                  [human "hi"; OpenAI.mkMessage OpenAI.AIChatMessage "hello" (Some "bot")])).
  reflexivity.
Defined.

Example token_counts_of_two_messages :
  OpenAI.getNumTokensFromMessages example_getNumTokens id example_model
    [human "hi"; OpenAI.mkMessage OpenAI.AIChatMessage "hello" (Some "bot")] =
  Normal (33%Z, [10; 20]%Z).
Proof. reflexivity. Qed.

(** ** Streaming *)

Lemma string_append_assoc (s1 s2 s3 : string) : (s1 +:+ s2) +:+ s3 = s1 +:+ (s2 +:+ s3).
Proof. induction s1 as [|a s1 IH]; [reflexivity|]. exact (f_equal (String a) IH). Qed.

Lemma string_append_empty_r (s : string) : s +:+ "" = s.
Proof. induction s as [|a s IH]; [reflexivity|]. exact (f_equal (String a) IH). Qed.

Lemma joined_snoc l x : joined (l ++ [x]) = joined l +:+ x.
Proof.
  unfold joined. induction l as [|y l IH]; cbn [app foldr].
  - apply string_append_empty_r.
  - now rewrite IH, string_append_assoc.
Qed.

Lemma update_choice_single (p : OpenAI.Part) (seen : list OpenAI.Part) :
  OpenAI.p_index p = 0 →
  OpenAI.update_choice p (streamed_choices seen) = Normal (streamed_choices (seen ++ [p])).
Proof.
  intros Hi. unfold OpenAI.update_choice. rewrite Hi.
  destruct seen as [|q seen]; cbn.
  - now rewrite string_append_empty_r.
  - fold (joined (map OpenAI.delta_content seen)).
    fold (joined (map OpenAI.delta_content (seen ++ [p]))).
    rewrite map_app. cbn [map]. now rewrite joined_snoc, !string_append_assoc.
Qed.

Lemma handleLLMNewToken_run rm token s :
  handleLLMNewToken rm token s = (Normal tt, after_tokens rm [token] s).
Proof. exact (run_dispatch_run _ _ _ _ (dispatch_handleLLMNewToken rm token) s). Qed.

Lemma after_tokens_app rm l1 l2 s :
  after_tokens rm (l1 ++ l2) s = after_tokens rm l2 (after_tokens rm l1 s).
Proof. apply foldl_app. Qed.

Lemma consume_parts_single rm p r seen s :
  OpenAI.p_index p = 0 →
  OpenAI.choices r = streamed_choices seen →
  OpenAI.consume_parts (Some rm) [Some p] r s =
  (Normal (OpenAI.mkResponse (OpenAI.id r) (OpenAI.object r) (OpenAI.created r)
             (OpenAI.model r) (streamed_choices (seen ++ [p])) (OpenAI.usage r)),
   after_tokens rm [OpenAI.delta_content p] s).
Proof.
  intros Hi Hr. cbn [OpenAI.consume_parts]. rewrite Hr, update_choice_single by exact Hi.
  unfold OpenAI.lift, bind, ret. rewrite handleLLMNewToken_run. reflexivity.
Qed.

Lemma onmessage_chunk rm st m p first seen s :
  OpenAI.m_choices m = [Some p] →
  OpenAI.p_index p = 0 →
  match seen with
  | [] => OpenAI.response st = None ∧ first = m
  | _ :: _ => OpenAI.response st = Some (streamed_response first seen)
  end →
  OpenAI.onmessage (Some rm) st (OpenAI.Chunk m) s =
  (Normal (OpenAI.mkStream (Some (streamed_response first (seen ++ [p])))
             (OpenAI.resolved st || finished p)
             (if OpenAI.resolved st then OpenAI.resolved_with st
              else if finished p then Some (Some (streamed_response first (seen ++ [p])))
              else OpenAI.resolved_with st)),
   after_tokens rm [OpenAI.delta_content p] s).
Proof.
  intros Hm Hi Hst. unfold OpenAI.onmessage. rewrite Hm.
  assert (∃ r, match OpenAI.response st with
               | Some r => r
               | None => OpenAI.mkResponse (OpenAI.m_id m) (OpenAI.m_object m)
                           (OpenAI.m_created m) (OpenAI.m_model m) [] None
               end = r ∧
               OpenAI.choices r = streamed_choices seen ∧
               OpenAI.mkResponse (OpenAI.id r) (OpenAI.object r) (OpenAI.created r)
                 (OpenAI.model r) (streamed_choices (seen ++ [p])) (OpenAI.usage r)
               = streamed_response first (seen ++ [p])) as (r & -> & Hr & Hr').
  { destruct seen as [|q seen].
    - destruct Hst as [-> ->]. eexists; split; [reflexivity|]. split; reflexivity.
    - rewrite Hst. eexists; split; [reflexivity|]. split; reflexivity. }
  unfold bind at 1. rewrite (consume_parts_single rm p r seen s Hi Hr), Hr'.
  destruct (OpenAI.resolved st); cbn [orb]; [reflexivity|].
  unfold bind, OpenAI.lift. cbn [OpenAI.all_finished]. unfold finished.
  destruct (is_given (OpenAI.p_finish_reason p)); reflexivity.
Qed.

Lemma consume_chunks rm first : ∀ chunks parts seen st s,
  map OpenAI.m_choices chunks = map (λ p, [Some p]) parts →
  Forall (λ p, OpenAI.p_index p = 0) parts →
  seen ≠ [] →
  OpenAI.response st = Some (streamed_response first seen) →
  OpenAI.consume (Some rm) (map OpenAI.Chunk chunks) st s =
  (Normal (OpenAI.mkStream (Some (streamed_response first (seen ++ parts)))
             (OpenAI.resolved st || existsb finished parts)
             (if OpenAI.resolved st then OpenAI.resolved_with st
              else match first_finished seen parts with
                   | Some pre => Some (Some (streamed_response first pre))
                   | None => OpenAI.resolved_with st
                   end)),
   after_tokens rm (map OpenAI.delta_content parts) s).
Proof.
  induction chunks as [|m chunks IH]; intros parts seen st s Hc Hi Hseen Hst.
  - destruct parts; [|discriminate]. destruct st as [r b w]. cbn in *.
    rewrite app_nil_r, orb_false_r, Hst. now destruct b.
  - destruct parts as [|p parts]; [discriminate|].
    injection Hc as Hm Hc. apply Forall_cons in Hi as [Hp Hi].
    cbn [map OpenAI.consume]. unfold bind.
    rewrite (onmessage_chunk rm st m p first seen s Hm Hp)
      by (destruct seen; [congruence|exact Hst]).
    rewrite (IH parts (seen ++ [p])); [|exact Hc|exact Hi| |reflexivity].
    + cbn [OpenAI.resolved OpenAI.resolved_with existsb first_finished].
      rewrite <- app_assoc, orb_assoc. cbn [app].
      change (after_tokens rm (map OpenAI.delta_content parts)
                (after_tokens rm [OpenAI.delta_content p] s))
        with (after_tokens rm (OpenAI.delta_content p :: map OpenAI.delta_content parts) s).
      destruct (OpenAI.resolved st); cbn [orb]; [reflexivity|].
      destruct (finished p); cbn [orb]; reflexivity.
    + now destruct seen.
Qed.

Lemma arrays_after_tokens rm tokens : ∀ s, arrays (after_tokens rm tokens s) = arrays s.
Proof.
  induction tokens as [|t tokens IH]; intros s; [reflexivity|].
  unfold after_tokens in *. cbn [foldl]. now rewrite IH.
Qed.

Lemma calls_after_tokens rm tokens : ∀ s,
  calls (after_tokens rm tokens s) =
  calls s ++
  flat_map (λ token,
     map (λ h, mkCall h (EvLLMNewToken token) (BaseRunManager.runId rm)
                 (BaseRunManager._parentRunId rm))
       (notified ignoreLLM (EvLLMNewToken token)
          (arrays s !!! BaseRunManager.handlers rm))) tokens.
Proof.
  induction tokens as [|t tokens IH]; intros s.
  - cbn. now rewrite app_nil_r.
  - unfold after_tokens in *. cbn [foldl flat_map]. rewrite IH.
    rewrite calls_after_fan_out, calls_of_notified, <- app_assoc. reflexivity.
Qed.

(** X26: a stream for a single choice (every chunk has one part, of index
    0), consumed by [onmessage] from the start.  Every chunk is consumed
    without an error; the response has the identifiers of the first chunk and
    one choice, whose role and [finish_reason] are those of the first part
    (later ones are not looked at) and whose content is the content of the
    first part followed by the contents of all parts, so the first content
    is there twice; [resolved] is set when a part has a [finish_reason], and
    the promise is resolved with the response as it is after the first such
    part; and [handleLLMNewToken] of the run manager has been called with
    the content of each part in turn ("" for a part without content),
    whether or not the promise was resolved before. *)
Theorem stream_of_a_single_choice (rm : CallbackManagerForLLMRun)
    (first : OpenAI.ChunkMessage) (pfirst : OpenAI.Part)
    (more : list OpenAI.ChunkMessage) (pmore : list OpenAI.Part) (s : Store) :
  OpenAI.m_choices first = [Some pfirst] →
  map OpenAI.m_choices more = map (λ p, [Some p]) pmore →
  Forall (λ p, OpenAI.p_index p = 0) (pfirst :: pmore) →
  OpenAI.consume (Some rm) (map OpenAI.Chunk (first :: more)) OpenAI.initial_stream s =
  (Normal (OpenAI.mkStream
             (Some (streamed_response first (pfirst :: pmore)))
             (existsb finished (pfirst :: pmore))
             (option_map (λ pre, Some (streamed_response first pre))
                (first_finished [] (pfirst :: pmore)))),
   after_tokens rm (map OpenAI.delta_content (pfirst :: pmore)) s) ∧
  calls (after_tokens rm (map OpenAI.delta_content (pfirst :: pmore)) s) =
  calls s ++
  flat_map (λ token,
     map (λ h, mkCall h (EvLLMNewToken token) (BaseRunManager.runId rm)
                 (BaseRunManager._parentRunId rm))
       (notified ignoreLLM (EvLLMNewToken token)
          (arrays s !!! BaseRunManager.handlers rm)))
    (map OpenAI.delta_content (pfirst :: pmore)).
Proof.
  intros Hfirst Hmore Hi. split; [|apply calls_after_tokens].
  apply Forall_cons in Hi as [Hp Hi].
  cbn [map OpenAI.consume]. unfold bind.
  rewrite (onmessage_chunk rm OpenAI.initial_stream first pfirst first [] s Hfirst Hp)
    by (split; reflexivity).
  rewrite (consume_chunks rm first more pmore ([] ++ [pfirst]));
    [|exact Hmore|exact Hi|discriminate|reflexivity].
  cbn [OpenAI.resolved OpenAI.resolved_with OpenAI.initial_stream orb existsb
       first_finished app option_map].
  destruct (finished pfirst); cbn [orb option_map]; [reflexivity|].
  destruct (first_finished [pfirst] pmore); reflexivity.
Qed.

Lemma stream_of_a_single_choice_witness :
  OpenAI.consume (Some run_twice)
    (map OpenAI.Chunk [example_chunk None (Some "assistant") None;
                       example_chunk (Some "Hel") None None;
                       example_chunk (Some "lo") None (Some "stop")])
    OpenAI.initial_stream store_twice =
  (Normal (OpenAI.mkStream
             (Some (streamed_response (example_chunk None (Some "assistant") None)
                      [example_part None (Some "assistant") None;
                       example_part (Some "Hel") None None;
                       example_part (Some "lo") None (Some "stop")]))
             (existsb finished [example_part None (Some "assistant") None;
                                example_part (Some "Hel") None None;
                                example_part (Some "lo") None (Some "stop")])
             (option_map (λ pre, Some (streamed_response
                                         (example_chunk None (Some "assistant") None) pre))
                (first_finished [] [example_part None (Some "assistant") None;
                                    example_part (Some "Hel") None None;
                                    example_part (Some "lo") None (Some "stop")]))),
   after_tokens run_twice
     (map OpenAI.delta_content [example_part None (Some "assistant") None;
                                example_part (Some "Hel") None None;
                                example_part (Some "lo") None (Some "stop")])
     store_twice).
Proof.
  refine (proj1 (stream_of_a_single_choice run_twice
                  (example_chunk None (Some "assistant") None)
                  (example_part None (Some "assistant") None)
                  [example_chunk (Some "Hel") None None;
                   example_chunk (Some "lo") None (Some "stop")]
                  [example_part (Some "Hel") None None;
                   example_part (Some "lo") None (Some "stop")]
                  store_twice eq_refl eq_refl _)).
  repeat constructor.
Defined.

Example first_content_is_streamed_twice :
  streamed_choices [example_part (Some "Hel") (Some "assistant") None;
                    example_part (Some "lo") None (Some "stop")] =
  [Some (OpenAI.mkChoice 0
           (Some (OpenAI.mkResponseMessage (Some "assistant") (Some "HelHello"))) None)].
Proof. reflexivity. Qed.

Lemma first_finished_prefix parts : ∀ seen pre,
  first_finished seen parts = Some pre → ∃ rest, pre = seen ++ rest.
Proof.
  induction parts as [|p parts IH]; intros seen pre H; [discriminate|].
  cbn [first_finished] in H. destruct (finished p).
  - injection H as <-. eauto.
  - apply IH in H as [rest ->]. rewrite <- app_assoc. eauto.
Qed.



Lemma onmessage_resolved rm st event s st' s' :
  OpenAI.resolved st = true →
  OpenAI.onmessage rm st event s = (Normal st', s') →
  OpenAI.resolved st' = true ∧ OpenAI.resolved_with st' = OpenAI.resolved_with st.
Proof.
  intros Hres. unfold OpenAI.onmessage. destruct event as [|m].
  - rewrite Hres. intros [= <- <-]. auto.
  - unfold bind at 1. destruct (OpenAI.consume_parts _ _ _ _) as [[r|e] s1];
      [|discriminate].
    rewrite Hres. intros [= <- <-]. auto.
Qed.

Lemma consume_resolved rm events : ∀ st s st' s',
  OpenAI.resolved st = true →
  OpenAI.consume rm events st s = (Normal st', s') →
  OpenAI.resolved st' = true ∧ OpenAI.resolved_with st' = OpenAI.resolved_with st.
Proof.
  induction events as [|event events IH]; intros st s st' s' Hres H.
  - injection H as <- <-. auto.
  - cbn [OpenAI.consume] in H. unfold bind in H.
    destruct (OpenAI.onmessage rm st event s) as [[st1|e] s1] eqn:H1; [|discriminate].
    destruct (onmessage_resolved _ _ _ _ _ _ Hres H1) as [Hres1 Hw1].
    destruct (IH _ _ _ _ Hres1 H) as [Hres' Hw']. split; congruence.
Qed.

(** X28: the promise of the streaming branch is resolved once, and
    possibly with nothing.  Once [resolved] is set, no event resolves the
    promise again.  When "[DONE]" comes before any chunk, the promise is
    resolved with [undefined], whatever events follow, and [_generate], which
    reads [data.usage] next, rejects with a [TypeError]. *)
Theorem stream_is_resolved_once (rm : option CallbackManagerForLLMRun)
    (events : list OpenAI.StreamEvent) (st st' : OpenAI.StreamState) (s s' : Store)
    (this : OpenAI.ChatOpenAI) (messages : list OpenAI.BaseChatMessage)
    (options : option OpenAI.CallOptions.t) :
  (OpenAI.resolved st = true →
   OpenAI.consume rm events st s = (Normal st', s') →
   OpenAI.resolved st' = true ∧ OpenAI.resolved_with st' = OpenAI.resolved_with st) ∧
  OpenAI.consume rm [OpenAI.Done] OpenAI.initial_stream s =
    (Normal (OpenAI.mkStream None true (Some None)), s) ∧
  (OpenAI.consume rm (OpenAI.Done :: events) OpenAI.initial_stream s = (Normal st', s') →
   OpenAI.resolved_with st' = Some None) ∧
  (stop_conflict this options = false →
   existsb is_generic messages = false →
   OpenAI._generate this messages options answers_undefined =
   Throw "TypeError: Cannot read properties of undefined (reading 'usage')").
Proof.
  split; [|split; [|split]].
  - apply consume_resolved.
  - reflexivity.
  - intros H. cbn [OpenAI.consume] in H. unfold bind in H.
    cbn [OpenAI.onmessage OpenAI.initial_stream OpenAI.resolved] in H.
    unfold ret at 1 in H.
    apply consume_resolved in H as [_ ->]; reflexivity.
  - intros Hstop Hgen. unfold stop_conflict in Hstop.
    unfold OpenAI._generate, answers_undefined.
    rewrite Hstop, request_messages, Hgen. reflexivity.
Qed.

Lemma stream_is_resolved_once_witness :
  OpenAI.resolved_with
    (OpenAI.mkStream
       (Some (streamed_response (example_chunk (Some "late") None None)
                [example_part (Some "late") None None]))
       true (Some None)) = Some None ∧
  OpenAI._generate example_streaming_model [human "hi"] None answers_undefined =
  Throw "TypeError: Cannot read properties of undefined (reading 'usage')".
Proof.
  split.
  - apply (proj1 (proj2 (proj2 (stream_is_resolved_once (Some run_twice)
                                  [OpenAI.Chunk (example_chunk (Some "late") None None)]
                                  OpenAI.initial_stream
                                  (OpenAI.mkStream
                                     (Some (streamed_response
                                              (example_chunk (Some "late") None None)
                                              [example_part (Some "late") None None]))
                                     true (Some None))
                                  store_twice (after_tokens run_twice ["late"] store_twice)
                                  example_streaming_model [human "hi"] None)))).
    reflexivity.
  - apply (proj2 (proj2 (proj2 (stream_is_resolved_once (Some run_twice) []
                                  OpenAI.initial_stream OpenAI.initial_stream
                                  store_twice store_twice
                                  example_streaming_model [human "hi"] None))));
      reflexivity.
Defined.

(** ** The parameters of a request *)

Lemma named_literal_lookup (this : OpenAI.ChatOpenAI) (k : string) :
  OpenAI.modelKwargs this !! k = None →
  is_Some (OpenAI.invocationParams this !! k) → k ∈ named_params.
Proof.
  intros Hk. rewrite invocationParams_lookup, Hk. open_params.
  destruct (decide (k ∈ named_params)) as [Hin|Hout]; [auto|].
  unfold named_params in Hout. rewrite !elem_of_cons, elem_of_nil in Hout.
  unfold OpenAI.object_literal. cbn [foldl fst snd].
  rewrite !lookup_insert_ne by (intros <-; tauto).
  rewrite lookup_empty. intros [v Hv]. discriminate.
Qed.

(** X29: the keys of the parameters of a request are the ten parameters
    [invocationParams] names, whether or not the model has a value for them
    ([stop], [logit_bias] and [max_tokens] are keys with the value
    [undefined] then), and the keys of [modelKwargs]; an entry of
    [modelKwargs] replaces the named parameter of the same key; and
    [max_tokens] is [undefined] for a model whose [maxTokens] is -1. *)
Theorem request_parameters (this : OpenAI.ChatOpenAI) (k : string) (v : OpenAI.JSValue) :
  (is_Some (OpenAI.invocationParams this !! k) ↔
   k ∈ named_params ∨ is_Some (OpenAI.modelKwargs this !! k)) ∧
  (OpenAI.modelKwargs this !! k = Some v → OpenAI.invocationParams this !! k = Some v) ∧
  (OpenAI.maxTokens this = Some (OpenAI.Finite (Qc_of_Z (-1))) →
   OpenAI.modelKwargs this !! "max_tokens" = None →
   OpenAI.invocationParams this !! "max_tokens" = Some OpenAI.VUndefined).
Proof.
  split; [split|split].
  - intros H. destruct (OpenAI.modelKwargs this !! k) eqn:Hk; [right; eauto|].
    left. now apply (named_literal_lookup this).
  - intros [H|[w H]].
    + now apply invocationParams_named.
    + rewrite invocationParams_lookup, H. eauto.
  - intros H. now rewrite invocationParams_lookup, H.
  - intros Hmax Hk. rewrite invocationParams_lookup, Hk. open_params.
    lookup_literal. now rewrite Hmax.
Qed.

Lemma request_parameters_witness :
  OpenAI.invocationParams unlimited_model !! "user" = Some (OpenAI.VString "u-1") ∧
  OpenAI.invocationParams unlimited_model !! "max_tokens" = Some OpenAI.VUndefined.
Proof.
  split.
  - apply (proj1 (proj2 (request_parameters unlimited_model "user" (OpenAI.VString "u-1")))).
    reflexivity.
  - apply (proj2 (proj2 (request_parameters unlimited_model "user" (OpenAI.VString "u-1"))));
      reflexivity.
Defined.

(** ** Streams for several choices *)

Lemma update_choice_first_high p :
  OpenAI.p_index p ≠ 0 →
  ∃ cs, OpenAI.update_choice p [] = Normal (None :: cs).
Proof.
  intros Hi. unfold OpenAI.update_choice. destruct (OpenAI.p_index p) as [|i]; [done|].
  cbn. eauto.
Qed.

(** X30: a stream has to start with the choice of index 0.  When the first
    part of a stream has another index, the array of choices gets a missing
    element at index 0, and the next part, of whatever index, in the same
    chunk or in the next, makes [onmessage] throw a [TypeError] from the
    search through the array; the token of the first part has been handed to
    the run manager by then. *)
Theorem stream_must_start_at_index_zero (rm : CallbackManagerForLLMRun)
    (m m2 : OpenAI.ChunkMessage) (p q : OpenAI.Part) (rest : list (option OpenAI.Part))
    (s : Store) :
  OpenAI.p_index p ≠ 0 →
  (OpenAI.m_choices m = Some p :: Some q :: rest →
   OpenAI.consume (Some rm) [OpenAI.Chunk m] OpenAI.initial_stream s =
   (Throw "TypeError: Cannot read properties of undefined (reading 'index')",
    after_tokens rm [OpenAI.delta_content p] s)) ∧
  (OpenAI.m_choices m = [Some p] →
   OpenAI.m_choices m2 = Some q :: rest →
   OpenAI.consume (Some rm) [OpenAI.Chunk m; OpenAI.Chunk m2] OpenAI.initial_stream s =
   (Throw "TypeError: Cannot read properties of undefined (reading 'index')",
    after_tokens rm [OpenAI.delta_content p] s)).
Proof.
  intros Hi. destruct (update_choice_first_high p Hi) as [cs Hcs]. split.
  - intros Hm. cbn [OpenAI.consume OpenAI.onmessage OpenAI.initial_stream
                    OpenAI.response]. rewrite Hm.
    cbn [OpenAI.consume_parts OpenAI.choices]. rewrite Hcs.
    unfold bind, OpenAI.lift, ret. rewrite handleLLMNewToken_run. reflexivity.
  - intros Hm Hm2. cbn [OpenAI.consume OpenAI.onmessage OpenAI.initial_stream
                        OpenAI.response OpenAI.resolved]. rewrite Hm, Hm2.
    cbn [OpenAI.consume_parts OpenAI.choices]. rewrite Hcs.
    unfold bind, OpenAI.lift, ret. rewrite handleLLMNewToken_run.
    cbn [OpenAI.all_finished]. destruct (is_given (OpenAI.p_finish_reason p)); reflexivity.
Qed.

Lemma stream_must_start_at_index_zero_witness :
  OpenAI.consume (Some run_twice)
    [OpenAI.Chunk (chunk_with [Some (OpenAI.mkPart 1 None None)]);
     OpenAI.Chunk (chunk_with [Some (OpenAI.mkPart 0 None None)])]
    OpenAI.initial_stream store_twice =
  (Throw "TypeError: Cannot read properties of undefined (reading 'index')",
   after_tokens run_twice [OpenAI.delta_content (OpenAI.mkPart 1 None None)] store_twice).
Proof.
  refine (proj2 (stream_must_start_at_index_zero run_twice
                  (chunk_with [Some (OpenAI.mkPart 1 None None)])
                  (chunk_with [Some (OpenAI.mkPart 0 None None)])
                  (OpenAI.mkPart 1 None None) (OpenAI.mkPart 0 None None) []
                  store_twice _) _ _); [simpl; lia|reflexivity|reflexivity].
Defined.
